(** * Partner billing app: data shaping, aggregation and discount store

    A shallow embedding of the pure parts of the billing front end:
    - [src/hooks/useInvoices.ts], [src/hooks/useInvoiceDetail.ts]
      (status derivation and the response mapper),
    - [src/utils/billingCalculations.ts] (metrics, aging buckets and the
      vendor aggregation engine),
    - [src/hooks/useTenantDiscounts.ts], its query-cache revision and the
      Express service of the discount API (the discount store, its
      product key, the request handlers and the state they return),
    - [src/pages/InvoiceDetailPage.tsx] and
      [src/components/InvoiceTable.tsx] (customer cards, card totals, the
      WL filter and the filters of the invoice table).

    Modelling conventions.
    - A JavaScript number is [jsnum]: a finite value, kept as an exact
      rational [Qc], or [NaN].  Binary rounding error and the two
      infinities are outside the model.
    - A JavaScript string is a [string] of 8-bit characters; letter case
      and white space are the ASCII ones.
    - A field read through [??], [?.], [||] or [typeof] is an [option].
    - A JavaScript [Map] is an association list in insertion order; an
      object used as a dictionary is a [gmap], and the table of the
      service a [gmap] on its primary key.
    - The clock ([new Date()]), date parsing and the Danish collation
      ([localeCompare(_, "da")]) are parameters of the functions that use
      them. *)

From Stdlib Require Import ZArith QArith Qcanon Qround Lia Lqa.
From Stdlib Require Import Ascii String DecimalString List Permutation Sorted.
From Stdlib Require OrderedTypeEx.
From stdpp Require Import base decidable option list numbers strings gmap.

Local Open Scope Z_scope.

(** ** JavaScript numbers *)

Module Js.

Inductive jsnum : Type :=
  | Num (q : Qc)
  | NaN.

Global Instance jsnum_eq_dec : EqDecision jsnum.
Proof. solve_decision. Defined.

Definition ofZ (z : Z) : jsnum := Num (Q2Qc (inject_Z z)).
Definition ofNat (n : nat) : jsnum := ofZ (Z.of_nat n).
(** The decimal literal [n / d], e.g. [dec 33456 1000] for [33.456]. *)
Definition dec (n : Z) (d : positive) : jsnum := Num (Q2Qc (n # d)).

Definition zero : jsnum := ofZ 0.

(** [a + b], [a - b], [a * b] *)
Definition add (a b : jsnum) : jsnum :=
  match a, b with
  | Num x, Num y => Num (x + y)%Qc
  | _, _ => NaN
  end.

Definition sub (a b : jsnum) : jsnum :=
  match a, b with
  | Num x, Num y => Num (x - y)%Qc
  | _, _ => NaN
  end.

Definition mul (a b : jsnum) : jsnum :=
  match a, b with
  | Num x, Num y => Num (x * y)%Qc
  | _, _ => NaN
  end.

(** [a / b]; a zero divisor gives an infinity or [NaN] in JavaScript and
    is mapped to [NaN] here (no caller divides by zero). *)
Definition div (a b : jsnum) : jsnum :=
  match a, b with
  | Num x, Num y => if decide (y = 0%Qc) then NaN else Num (x / y)%Qc
  | _, _ => NaN
  end.

(** [a <= b], [a < b], [a > b], [a === b]: all false on [NaN] *)
Definition le (a b : jsnum) : bool :=
  match a, b with
  | Num x, Num y => bool_decide (x <= y)%Qc
  | _, _ => false
  end.

Definition lt (a b : jsnum) : bool :=
  match a, b with
  | Num x, Num y => bool_decide (x < y)%Qc
  | _, _ => false
  end.

Definition gt (a b : jsnum) : bool := lt b a.

Definition strict_eq (a b : jsnum) : bool :=
  match a, b with
  | Num x, Num y => bool_decide (x = y)
  | _, _ => false
  end.

(** [Number.isNaN] *)
Definition isNaN (a : jsnum) : bool :=
  match a with NaN => true | Num _ => false end.

(** Truthiness of a number: [0] and [NaN] are falsy. *)
Definition truthy (a : jsnum) : bool :=
  match a with
  | Num x => negb (bool_decide (x = 0%Qc))
  | NaN => false
  end.

(** [Math.floor], [Math.round] (ties go up), [Math.min], [Math.max] *)
Definition floor (a : jsnum) : jsnum :=
  match a with
  | Num x => ofZ (Qfloor x)
  | NaN => NaN
  end.

Definition round (a : jsnum) : jsnum :=
  match a with
  | Num x => ofZ (Qfloor (x + Q2Qc (1 # 2))%Qc)
  | NaN => NaN
  end.

Definition min (a b : jsnum) : jsnum :=
  match a, b with
  | Num x, Num y => if bool_decide (x <= y)%Qc then a else b
  | _, _ => NaN
  end.

Definition max (a b : jsnum) : jsnum :=
  match a, b with
  | Num x, Num y => if bool_decide (x <= y)%Qc then b else a
  | _, _ => NaN
  end.

(** [reduce((acc, x) => acc + x, 0)] *)
Definition sum (l : list jsnum) : jsnum := fold_left add l zero.

(** ** JavaScript strings *)

(** [a || b] on strings that may be absent: the empty string is falsy. *)
Definition str_or (s : option string) (d : string) : string :=
  match s with
  | Some (String c r) => String c r
  | _ => d
  end.

(** [a < b] on strings: code units compared left to right. *)
Definition str_lt (a b : string) : bool := String.ltb a b.

(** [\s] *)
Definition is_space (c : ascii) : bool := Ascii.is_space c.

(** [toLowerCase] *)
Definition lower_char (c : ascii) : ascii :=
  let n := N_of_ascii c in
  if ((65 <=? n) && (n <=? 90))%N then ascii_of_N (n + 32) else c.

Fixpoint toLowerCase (s : string) : string :=
  match s with
  | "" => ""
  | String c r => String (lower_char c) (toLowerCase r)
  end.

(** [trimStart], [trimEnd], [trim] *)
Fixpoint trimStart (s : string) : string :=
  match s with
  | "" => ""
  | String c r => if is_space c then trimStart r else s
  end.

Fixpoint trimEnd (s : string) : string :=
  match s with
  | "" => ""
  | String c r =>
      match trimEnd r with
      | "" => if is_space c then "" else String c ""
      | r' => String c r'
      end
  end.

Definition trim (s : string) : string := trimStart (trimEnd s).

(** [s.includes(needle)] *)
Fixpoint includes (needle s : string) : bool :=
  String.prefix needle s ||
  match s with
  | "" => false
  | String _ r => includes needle r
  end.

(** [s.replace(/\s+/g, " ")]; [in_run] tells that the previous character
    was white space, already replaced. *)
Fixpoint squash_go (in_run : bool) (s : string) : string :=
  match s with
  | "" => ""
  | String c r =>
      if is_space c
      then if in_run then squash_go true r else String " " (squash_go true r)
      else String c (squash_go false r)
  end.

Definition squashSpaces (s : string) : string := squash_go false s.

(** One letter of a pattern under the [i] flag. *)
Definition char_ci (p c : ascii) : bool :=
  bool_decide (lower_char c = lower_char p).

(** Decimal digits of an array index, for template strings. *)
Definition nat_to_string (n : nat) : string :=
  DecimalString.NilZero.string_of_uint (Nat.to_uint n).

End Js.

Import Js.

(** ** Canonical entities ([src/types/invoice.ts]) *)

Inductive Status : Type := Paid | Unpaid | Overdue.

Global Instance Status_eq_dec : EqDecision Status.
Proof. solve_decision. Defined.

Record Invoice : Type := {
  invoiceNumber : string;
  postingDate : string;
  inv_amount : option jsnum;
  amountInclVat : option jsnum;
  dueDate : string;
  status : Status;
  invoicePdf : string;
  billingDataExcel : string
}.

(** ** Status derivation *)

(** [mapStatus] of [src/hooks/useInvoiceDetail.ts]; [today] is
    [new Date().toISOString().slice(0, 10)]. *)
Definition mapStatus (today : string)
    (remainingAmountIncludingVAT : jsnum) (dueDate : string) : Status :=
  if strict_eq remainingAmountIncludingVAT zero then Paid
  else if str_lt dueDate today then Overdue else Unpaid.

(** The raw invoice record of [src/hooks/useInvoices.ts], restricted to
    the fields the mapping reads. *)
Record ApiInvoice : Type := {
  api_invoiceNo : string;
  api_postingDate : string;
  api_amount : option jsnum;
  api_amountIncludingVAT : option jsnum;
  api_remainingAmountIncludingVAT : jsnum;
  api_dueDate : string;
  api_invoicePdf : string;
  api_billingDataExcel : option string
}.

(** [mapStatus] of [src/hooks/useInvoices.ts] *)
Definition mapStatus_list (today : string) (inv : ApiInvoice) : Status :=
  if strict_eq (api_remainingAmountIncludingVAT inv) zero then Paid
  else if str_lt (api_dueDate inv) today then Overdue else Unpaid.

Definition mapInvoice (today : string) (inv : ApiInvoice) : Invoice :=
  {| invoiceNumber := api_invoiceNo inv;
     postingDate := api_postingDate inv;
     inv_amount := api_amount inv;
     amountInclVat := api_amountIncludingVAT inv;
     dueDate := api_dueDate inv;
     status := mapStatus_list today inv;
     invoicePdf := api_invoicePdf inv;
     billingDataExcel := default "" (api_billingDataExcel inv) |}.

(** ** Billing metrics ([src/utils/billingCalculations.ts]) *)

Inductive BillingAmountMode : Type := inclVat | exclVat.

Record BillingMetrics : Type := {
  totalInvoiced : jsnum;
  balanceDue : jsnum;
  overdueAmount : jsnum;
  currentMonthVolume : jsnum;
  paidThisMonth : jsnum;
  averageInvoice : jsnum;
  openInvoiceCount : jsnum
}.

(** The accumulator of the [reduce] in [calculateBillingMetrics]. *)
Record MetricsAcc : Type := {
  acc_totalInvoiced : jsnum;
  acc_balanceDue : jsnum;
  acc_overdueAmount : jsnum;
  acc_currentMonthVolume : jsnum;
  acc_paidThisMonth : jsnum;
  acc_openInvoiceCount : jsnum;
  acc_invoiceAmountSum : jsnum;
  acc_invoiceCount : jsnum
}.

(** [value.slice(0, 7)] *)
Definition getIsoMonth (value : string) : string := String.substring 0 7 value.

(** [inv.amountInclVat ?? inv.amount ?? 0] or the other way round *)
Definition invoiceAmount (amountMode : BillingAmountMode) (inv : Invoice) : jsnum :=
  match amountMode with
  | inclVat => default (default zero (inv_amount inv)) (amountInclVat inv)
  | exclVat => default (default zero (amountInclVat inv)) (inv_amount inv)
  end.

Definition isOpen (inv : Invoice) : bool :=
  bool_decide (status inv = Unpaid) || bool_decide (status inv = Overdue).

Definition metricsStep (amountMode : BillingAmountMode) (currentMonthIso : string)
    (acc : MetricsAcc) (inv : Invoice) : MetricsAcc :=
  let amount := invoiceAmount amountMode inv in
  let inMonth := bool_decide (getIsoMonth (postingDate inv) = currentMonthIso) in
  {| acc_totalInvoiced := add (acc_totalInvoiced acc) amount;
     acc_balanceDue :=
       if isOpen inv then add (acc_balanceDue acc) amount else acc_balanceDue acc;
     acc_overdueAmount :=
       if bool_decide (status inv = Overdue)
       then add (acc_overdueAmount acc) amount else acc_overdueAmount acc;
     acc_currentMonthVolume :=
       if inMonth then add (acc_currentMonthVolume acc) amount
       else acc_currentMonthVolume acc;
     acc_paidThisMonth :=
       if inMonth && bool_decide (status inv = Paid)
       then add (acc_paidThisMonth acc) amount else acc_paidThisMonth acc;
     acc_openInvoiceCount :=
       if isOpen inv then add (acc_openInvoiceCount acc) (ofZ 1)
       else acc_openInvoiceCount acc;
     acc_invoiceAmountSum := add (acc_invoiceAmountSum acc) amount;
     acc_invoiceCount := add (acc_invoiceCount acc) (ofZ 1) |}.

Definition metricsInit : MetricsAcc :=
  {| acc_totalInvoiced := zero; acc_balanceDue := zero;
     acc_overdueAmount := zero; acc_currentMonthVolume := zero;
     acc_paidThisMonth := zero; acc_openInvoiceCount := zero;
     acc_invoiceAmountSum := zero; acc_invoiceCount := zero |}.

(** [calculateBillingMetrics]; [nowIso] is [new Date().toISOString()].
    A [null] or [undefined] invoice list is the empty list. *)
Definition calculateBillingMetrics (nowIso : string)
    (invoices : list Invoice) (amountMode : BillingAmountMode) : BillingMetrics :=
  let currentMonthIso := getIsoMonth nowIso in
  let aggregate :=
    fold_left (metricsStep amountMode currentMonthIso) invoices metricsInit in
  {| totalInvoiced := acc_totalInvoiced aggregate;
     balanceDue := acc_balanceDue aggregate;
     overdueAmount := acc_overdueAmount aggregate;
     currentMonthVolume := acc_currentMonthVolume aggregate;
     paidThisMonth := acc_paidThisMonth aggregate;
     openInvoiceCount := acc_openInvoiceCount aggregate;
     averageInvoice :=
       if gt (acc_invoiceCount aggregate) zero
       then div (acc_invoiceAmountSum aggregate) (acc_invoiceCount aggregate)
       else zero |}.

(** ** Aging buckets *)

Record AgingBuckets : Type := {
  b0_30 : jsnum;
  b31_60 : jsnum;
  b61_90 : jsnum;
  b90plus : jsnum
}.

Definition MS_PER_DAY : jsnum := ofZ (1000 * 60 * 60 * 24).

(** [x += v] where [v] may be [undefined]: [undefined] converts to [NaN]. *)
Definition toNumber (v : option jsnum) : jsnum := default NaN v.

Section Aging.
(** [new Date(iso).getTime()]: milliseconds since the epoch, or [NaN]
    for a string that is not a date. *)
Variable parseDate : string -> jsnum.

(** [from] is [referenceDate.getTime()]. *)
Definition diffInDays (from : jsnum) (toIso : string) : jsnum :=
  let due := parseDate toIso in
  let diff := sub from due in
  floor (div diff MS_PER_DAY).

Definition agingStep (referenceDate : jsnum)
    (buckets : AgingBuckets) (invoice : Invoice) : AgingBuckets :=
  if bool_decide (status invoice = Paid) then buckets
  else
    let daysPastDue := diffInDays referenceDate (dueDate invoice) in
    let v := toNumber (amountInclVat invoice) in
    if le daysPastDue (ofZ 30) then
      {| b0_30 := add (b0_30 buckets) v; b31_60 := b31_60 buckets;
         b61_90 := b61_90 buckets; b90plus := b90plus buckets |}
    else if le daysPastDue (ofZ 60) then
      {| b0_30 := b0_30 buckets; b31_60 := add (b31_60 buckets) v;
         b61_90 := b61_90 buckets; b90plus := b90plus buckets |}
    else if le daysPastDue (ofZ 90) then
      {| b0_30 := b0_30 buckets; b31_60 := b31_60 buckets;
         b61_90 := add (b61_90 buckets) v; b90plus := b90plus buckets |}
    else
      {| b0_30 := b0_30 buckets; b31_60 := b31_60 buckets;
         b61_90 := b61_90 buckets; b90plus := add (b90plus buckets) v |}.

Definition calculateAgingBuckets (invoices : list Invoice)
    (referenceDate : jsnum) : AgingBuckets :=
  fold_left (agingStep referenceDate) invoices
    {| b0_30 := zero; b31_60 := zero; b61_90 := zero; b90plus := zero |}.
End Aging.

(** ** Product labels and vendors *)

(** One character of a pattern under the [i] flag: the rest of the
    subject, if it starts with that character in either letter case. *)
Definition expectCi (p : ascii) (s : string) : option string :=
  match s with
  | String c r => if char_ci p c then Some r else None
  | "" => None
  end.

(** The match of [/^\(\s*NCE\s*\)\s*/i]: what follows the prefix.  The
    pattern is anchored, and each [\s*] is followed by a character that
    is not white space, so the greedy match is the only one. *)
Definition matchNcePrefix (label : string) : option string :=
  r0 ← expectCi "(" label;
  r1 ← expectCi "N" (trimStart r0);
  r2 ← expectCi "C" r1;
  r3 ← expectCi "E" r2;
  r4 ← expectCi ")" (trimStart r3);
  Some (trimStart r4).

(** [label.replace(/^\(\s*NCE\s*\)\s*/i, "")] *)
Definition stripNcePrefix (label : string) : string :=
  default label (matchNcePrefix label).

Definition formatProductLabel (label : string) : string :=
  let trimmed := trim label in
  let withoutPrefix := trim (stripNcePrefix trimmed) in
  if (0 <? String.length withoutPrefix)%nat then withoutPrefix else trimmed.

Definition normalizeLabel (label : string) : string :=
  toLowerCase (trim (squashSpaces (formatProductLabel label))).

Definition identifyVendorFromProduct (productLabel : string) : option string :=
  let normalized := toLowerCase productLabel in
  if includes "exclaimer" normalized then Some "Exclaimer"
  else if includes "keepit" normalized then Some "Keepit"
  else if includes "adobe" normalized then Some "Adobe"
  else if includes "microsoft" normalized then Some "Microsoft"
  else None.

Definition shouldUseRetailAmount (vendorName : string) : bool :=
  let normalized := toLowerCase vendorName in
  includes "keepit" normalized ||
  includes "adobe" normalized ||
  includes "microsoft" normalized.

(** [InvoiceTenantEntry] *)
Record InvoiceTenantEntry : Type := {
  e_productId : string;
  e_skuId : string;
  e_description : option string;
  e_nickname : option string;
  e_licensQuantity : option jsnum;
  e_invoicingType : option string;
  e_startDate : option string;
  e_endDate : option string;
  e_quantity : option jsnum;
  e_days : option jsnum;
  e_unitPrice : option jsnum;
  e_retailUnitPrice : option jsnum;
  e_amount : option jsnum;
  e_retailAmount : option jsnum;
  e_billing : option string;
  e_commitment : option string;
  e_billingStartDate : option string;
  e_billingEndDate : option string;
  e_commitmentStartDate : option string;
  e_commitmentEndDate : option string
}.

(** [InvoiceSubscriptionBreakdown].  For [amount] and [retailAmount],
    [None] is any value whose [typeof] is not ["number"]; for the other
    fields it is [undefined]. *)
Record InvoiceSubscriptionBreakdown : Type := {
  s_id : string;
  s_description : option string;
  s_nickname : option string;
  s_licensQuantity : option jsnum;
  s_amount : option jsnum;
  s_retailAmount : option jsnum;
  s_billingTypeId : option string;
  s_billingTypeDescription : option string;
  s_entries : list InvoiceTenantEntry
}.

Definition getAmountForVendor (sub : InvoiceSubscriptionBreakdown)
    (vendorName : string) : jsnum :=
  let prefersRetail := shouldUseRetailAmount vendorName in
  if prefersRetail then
    match s_retailAmount sub, s_amount sub with
    | Some r, _ => r
    | None, Some a => a
    | None, None => zero
    end
  else
    match s_amount sub, s_retailAmount sub with
    | Some a, _ => a
    | None, Some r => r
    | None, None => zero
    end.

(** ** JavaScript [Map] and [Set], in insertion order *)

Section JsMap.
Context {V : Type}.

Fixpoint map_get (k : string) (m : list (string * V)) : option V :=
  match m with
  | [] => None
  | (k', v) :: r => if bool_decide (k' = k) then Some v else map_get k r
  end.

(** [m.set(k, v)]: an existing key keeps its place. *)
Fixpoint map_set (k : string) (v : V) (m : list (string * V)) : list (string * V) :=
  match m with
  | [] => [(k, v)]
  | (k', v') :: r =>
      if bool_decide (k' = k) then (k, v) :: r else (k', v') :: map_set k v r
  end.

Definition map_values (m : list (string * V)) : list V := snd <$> m.
End JsMap.

Definition set_add (x : string) (s : list string) : list string :=
  if bool_decide (x ∈ s) then s else s ++ [x].

(** [Array.from(new Set(l))] *)
Definition unique (l : list string) : list string :=
  fold_left (fun acc x => set_add x acc) l [].

(** [l.sort((a, b) => cmp(key(a), key(b)))]: a stable sort. *)
Section Sort.
Context {A : Type}.
Variable cmp : A -> A -> Z.

Fixpoint sort_insert (x : A) (l : list A) : list A :=
  match l with
  | [] => [x]
  | y :: r => if cmp x y <=? 0 then x :: y :: r else y :: sort_insert x r
  end.

Definition js_sort (l : list A) : list A := fold_right sort_insert [] l.
End Sort.

(** ** The vendor aggregation engine *)

Record AggregatedDetail : Type := {
  d_label : string;
  d_billing : option string;
  d_commitment : option string;
  d_licenses : jsnum;
  d_amount : jsnum
}.

Record AggregatedProduct : Type := {
  displayName : string;
  licenses : jsnum;
  amount : jsnum;
  costAmount : jsnum;
  billing : option string;
  commitment : option string;
  details : list AggregatedDetail
}.

Record AggregatedVendor : Type := {
  vendorName : string;
  totalLicenses : jsnum;
  totalAmount : jsnum;
  products : list AggregatedProduct
}.

(** The accumulators held in [vendorMap] and [productsMap]. *)
Record ProductEntry : Type := {
  pe_displayName : string;
  pe_licenses : jsnum;
  pe_amount : jsnum;
  pe_costAmount : jsnum;
  pe_billingValues : list string;
  pe_commitmentValues : list string;
  pe_detailsMap : list (string * AggregatedDetail)
}.

Record VendorEntry : Type := {
  ve_vendorName : string;
  ve_totalLicenses : jsnum;
  ve_totalAmount : jsnum;
  ve_productsMap : list (string * ProductEntry)
}.

(** [s || undefined] *)
Definition nonEmpty (s : option string) : option string :=
  match s with
  | Some (String c r) => Some (String c r)
  | _ => None
  end.

(** [if (v) values.add(v)] *)
Definition addIfTruthy (v : option string) (values : list string) : list string :=
  match nonEmpty v with
  | Some x => set_add x values
  | None => values
  end.

(** The body of [(sub.entries ?? []).forEach]; the state is the product
    entry under update and [subscriptionEntryAmount]. *)
Definition entryStep (productLabel : string)
    (st : ProductEntry * jsnum) (entry : InvoiceTenantEntry) : ProductEntry * jsnum :=
  let productEntry := fst st in
  let subscriptionEntryAmount := snd st in
  let detailLabel := str_or (trim <$> e_description entry) productLabel in
  let detailKey :=
    detailLabel +:+ "|" +:+ default "" (e_billing entry)
                +:+ "|" +:+ default "" (e_commitment entry) in
  let detailEntry :=
    default {| d_label := detailLabel;
               d_billing := nonEmpty (e_billing entry);
               d_commitment := nonEmpty (e_commitment entry);
               d_licenses := zero;
               d_amount := zero |}
            (map_get detailKey (pe_detailsMap productEntry)) in
  let entryLicenses :=
    default (default (default zero (e_days entry)) (e_quantity entry))
            (e_licensQuantity entry) in
  let entryAmount := default zero (e_amount entry) in
  let detailEntry' :=
    {| d_label := d_label detailEntry;
       d_billing := d_billing detailEntry;
       d_commitment := d_commitment detailEntry;
       d_licenses := add (d_licenses detailEntry) entryLicenses;
       d_amount := add (d_amount detailEntry) entryAmount |} in
  ({| pe_displayName := pe_displayName productEntry;
      pe_licenses := pe_licenses productEntry;
      pe_amount := pe_amount productEntry;
      pe_costAmount := pe_costAmount productEntry;
      pe_billingValues := addIfTruthy (e_billing entry) (pe_billingValues productEntry);
      pe_commitmentValues :=
        addIfTruthy (e_commitment entry) (pe_commitmentValues productEntry);
      pe_detailsMap := map_set detailKey detailEntry' (pe_detailsMap productEntry) |},
   add subscriptionEntryAmount entryAmount).

Definition resolveVendorName (sub : InvoiceSubscriptionBreakdown) : string :=
  str_or (trim <$> s_billingTypeDescription sub)
    (default
       (str_or (s_nickname sub) (str_or (s_description sub) "Product"))
       (identifyVendorFromProduct
          (str_or (s_description sub) (str_or (s_nickname sub) "Product")))).

Definition rawProductLabel (sub : InvoiceSubscriptionBreakdown) : string :=
  trim (str_or (s_description sub) (str_or (s_nickname sub) "Line item")).

Definition productLabelOf (sub : InvoiceSubscriptionBreakdown) : string :=
  formatProductLabel (rawProductLabel sub).

Definition productKeyOf (sub : InvoiceSubscriptionBreakdown) : string :=
  normalizeLabel (productLabelOf sub).

Definition subLicenses (sub : InvoiceSubscriptionBreakdown) : jsnum :=
  default zero (s_licensQuantity sub).

(** The body of [(subscriptions ?? []).forEach]. *)
Definition subscriptionStep (vendorMap : list (string * VendorEntry))
    (sub : InvoiceSubscriptionBreakdown) : list (string * VendorEntry) :=
  let vendorName := resolveVendorName sub in
  let productLabel := productLabelOf sub in
  let productKey := normalizeLabel productLabel in
  let vendorEntry :=
    default {| ve_vendorName := vendorName; ve_totalLicenses := zero;
               ve_totalAmount := zero; ve_productsMap := [] |}
            (map_get vendorName vendorMap) in
  let effectiveAmount := getAmountForVendor sub vendorName in
  let licenses := subLicenses sub in
  let productEntry :=
    default {| pe_displayName := productLabel; pe_licenses := zero;
               pe_amount := zero; pe_costAmount := zero;
               pe_billingValues := []; pe_commitmentValues := [];
               pe_detailsMap := [] |}
            (map_get productKey (ve_productsMap vendorEntry)) in
  let productEntry1 :=
    {| pe_displayName := pe_displayName productEntry;
       pe_licenses := add (pe_licenses productEntry) licenses;
       pe_amount := add (pe_amount productEntry) effectiveAmount;
       pe_costAmount := pe_costAmount productEntry;
       pe_billingValues := pe_billingValues productEntry;
       pe_commitmentValues := pe_commitmentValues productEntry;
       pe_detailsMap := pe_detailsMap productEntry |} in
  let subCostAmount := default zero (s_amount sub) in
  let st := fold_left (entryStep productLabel) (s_entries sub) (productEntry1, zero) in
  let productEntry2 := fst st in
  let subscriptionEntryAmount := snd st in
  let costContribution :=
    if gt subscriptionEntryAmount zero then subscriptionEntryAmount else subCostAmount in
  let productEntry3 :=
    {| pe_displayName := pe_displayName productEntry2;
       pe_licenses := pe_licenses productEntry2;
       pe_amount := pe_amount productEntry2;
       pe_costAmount := add (pe_costAmount productEntry2) costContribution;
       pe_billingValues := pe_billingValues productEntry2;
       pe_commitmentValues := pe_commitmentValues productEntry2;
       pe_detailsMap := pe_detailsMap productEntry2 |} in
  map_set vendorName
    {| ve_vendorName := ve_vendorName vendorEntry;
       ve_totalLicenses := add (ve_totalLicenses vendorEntry) licenses;
       ve_totalAmount := add (ve_totalAmount vendorEntry) effectiveAmount;
       ve_productsMap := map_set productKey productEntry3 (ve_productsMap vendorEntry) |}
    vendorMap.

Definition resolveLabel (values : list string) : option string :=
  match values with
  | [] => None
  | _ =>
      match unique (trim <$> values) with
      | [x] => Some x
      | _ => Some "Mixed"
      end
  end.

Section Aggregate.
(** [a.localeCompare(b, "da")]: negative, zero or positive. *)
Variable localeCompare : string -> string -> Z.

Definition by_key {A : Type} (key : A -> string) (a b : A) : Z :=
  localeCompare (key a) (key b).

Definition finishProduct (product : ProductEntry) : AggregatedProduct :=
  {| displayName := pe_displayName product;
     licenses := pe_licenses product;
     amount := pe_amount product;
     costAmount := pe_costAmount product;
     billing := resolveLabel (pe_billingValues product);
     commitment := resolveLabel (pe_commitmentValues product);
     details := js_sort (by_key d_label) (map_values (pe_detailsMap product)) |}.

Definition finishVendor (vendor : VendorEntry) : AggregatedVendor :=
  {| vendorName := ve_vendorName vendor;
     totalLicenses := ve_totalLicenses vendor;
     totalAmount := ve_totalAmount vendor;
     products :=
       js_sort (by_key displayName)
         (finishProduct <$> map_values (ve_productsMap vendor)) |}.

(** [aggregateVendorsFromSubscriptions]; an [undefined] list is the
    empty list. *)
Definition aggregateVendorsFromSubscriptions
    (subscriptions : list InvoiceSubscriptionBreakdown) : list AggregatedVendor :=
  let vendorMap := fold_left subscriptionStep subscriptions [] in
  js_sort (by_key vendorName) (finishVendor <$> map_values vendorMap).
End Aggregate.

(** ** The discount store *)

(** [Record<string, Record<string, number>>] *)
Abbreviation TenantProductDiscounts := (gmap string jsnum).
Abbreviation TenantDiscountState := (gmap string (gmap string jsnum)).

Definition clampRate (value : jsnum) : jsnum :=
  Js.min (ofZ 100) (Js.max (ofZ 0) value).

(** [makeProductKey], the same text in [src/hooks/useTenantDiscounts.ts],
    in its query-cache revision and in the service of the discount API. *)
Definition makeProductKey (vendorName productName : option string) : string :=
  toLowerCase (default "vendor" vendorName +:+ "::" +:+ default "product" productName).

(** The key of the discount API service: [parseBody] trims both names
    before [makeProductKey] joins them. *)
Definition serverProductKey (vendorName productName : string) : string :=
  makeProductKey (Some (trim vendorName)) (Some (trim productName)).

(** [Math.round(clampRate(rate) * 100) / 100] *)
Definition normalizeRate (rate : jsnum) : jsnum :=
  div (round (mul (clampRate rate) (ofZ 100))) (ofZ 100).

Definition getDiscountRate (discounts : TenantDiscountState)
    (tenantId : option string) (vendorName productName : option string)
    : option jsnum :=
  match nonEmpty tenantId with
  | None => None
  | Some tenantId =>
      let productKey := makeProductKey vendorName productName in
      discounts !! tenantId ≫= fun products => products !! productKey
  end.

(** The removal branch of the state update, shared by both revisions. *)
Definition removeRate (tenantId productKey : string)
    (prev : TenantDiscountState) : TenantDiscountState :=
  let tenantDiscounts := default ∅ (prev !! tenantId) in
  if bool_decide (is_Some (tenantDiscounts !! productKey)) then
    let restProducts := delete productKey tenantDiscounts in
    if bool_decide (restProducts = ∅) then delete tenantId prev
    else <[tenantId := restProducts]> prev
  else prev.

(** [setDiscountRate] of [src/hooks/useTenantDiscounts.ts]: the function
    handed to [setDiscounts].  A [rate] of [None] is [null]. *)
Definition setDiscountRate (tenantId : option string)
    (vendorName productName : option string) (rate : option jsnum)
    (prev : TenantDiscountState) : TenantDiscountState :=
  match nonEmpty tenantId with
  | None => prev
  | Some tenantId =>
      let productKey := makeProductKey vendorName productName in
      let tenantDiscounts := default ∅ (prev !! tenantId) in
      match rate with
      | None => removeRate tenantId productKey prev
      | Some r =>
          if isNaN r then removeRate tenantId productKey prev
          else
            let normalized := normalizeRate r in
            <[tenantId := <[productKey := normalized]> tenantDiscounts]> prev
      end
  end.

(** [setDiscountRate] of the query-cache revision of the hook: the rate
    is normalised first, then the cached state is updated. *)
Definition setDiscountRate_query (tenantId : option string)
    (vendorName productName : option string) (rate : option jsnum)
    (prev : TenantDiscountState) : TenantDiscountState :=
  match nonEmpty tenantId with
  | None => prev
  | Some tenantId =>
      let productKey := makeProductKey vendorName productName in
      let normalizedRate :=
        match rate with
        | None => None
        | Some r => if isNaN r then None else Some (normalizeRate r)
        end in
      let tenantDiscounts := default ∅ (prev !! tenantId) in
      match normalizedRate with
      | None => removeRate tenantId productKey prev
      | Some n => <[tenantId := <[productKey := n]> tenantDiscounts]> prev
      end
  end.

(** ** The response mapper ([src/hooks/useInvoiceDetail.ts]) *)

Record TenantEntryApi : Type := {
  ea_productId : option string;
  ea_skuId : option string;
  ea_description : option string;
  ea_nickname : option string;
  ea_licensQuantity : option jsnum;
  ea_invoicingType : option string;
  ea_startDate : option string;
  ea_endDate : option string;
  ea_quantity : option jsnum;
  ea_days : option jsnum;
  ea_unitPrice : option jsnum;
  ea_retailUnitPrice : option jsnum;
  ea_amount : option jsnum;
  ea_retailAmount : option jsnum;
  ea_billing : option string;
  ea_commitment : option string;
  ea_billingStartDate : option string;
  ea_billingEndDate : option string;
  ea_commitmentStartDate : option string;
  ea_commitmentEndDate : option string
}.

Record TenantConnectorApi : Type := {
  ca_id : option string;
  ca_description : option string;
  ca_quantity : option jsnum;
  ca_unitPrice : option jsnum;
  ca_retailUnitPrice : option jsnum;
  ca_amount : option jsnum;
  ca_retailAmount : option jsnum
}.

Record SubscriptionApi : Type := {
  sa_id : string;
  sa_description : option string;
  sa_nickname : option string;
  sa_licensQuantity : option jsnum;
  sa_amount : option jsnum;
  sa_retailAmount : option jsnum;
  sa_entries : option (list TenantEntryApi)
}.

Record TenantApi : Type := {
  ta_id : string;
  ta_name : option string;
  ta_domain : string;
  ta_amount : option jsnum;
  ta_retailAmount : option jsnum;
  ta_customerName : string;
  ta_customerVatId : string;
  ta_customerReference : string;
  ta_productId : option string;
  ta_productDescription : option string;
  ta_quantity : option jsnum;
  ta_unitPrice : option jsnum;
  ta_retailUnitPrice : option jsnum;
  ta_entries : option (list TenantEntryApi);
  ta_connectors : option (list TenantConnectorApi);
  ta_subscriptions : option (list SubscriptionApi)
}.

Record LineApi : Type := {
  la_description : option string;
  la_lineAmount : jsnum;
  la_billingTypeId : option string;
  la_billingTypeDescription : option string;
  la_tenants : option (list TenantApi)
}.

Record InvoiceTenantBreakdown : Type := {
  t_id : string;
  t_name : option string;
  t_domain : string;
  t_amount : jsnum;
  t_retailAmount : jsnum;
  t_customerName : string;
  t_customerVatId : string;
  t_customerReference : string;
  t_subscriptions : list InvoiceSubscriptionBreakdown
}.

(** [a ?? b] *)
Definition orElse {A : Type} (a b : option A) : option A :=
  match a with
  | Some x => Some x
  | None => b
  end.

Definition buildEntry (entry : TenantEntryApi)
    (fallbackId fallbackDescription : string) : InvoiceTenantEntry :=
  {| e_productId := default fallbackId (ea_productId entry);
     e_skuId := default fallbackId (ea_skuId entry);
     e_description := Some (default fallbackDescription (ea_description entry));
     e_nickname :=
       Some (default (default fallbackDescription (ea_description entry))
                     (ea_nickname entry));
     e_licensQuantity :=
       Some (default (default zero (ea_quantity entry)) (ea_licensQuantity entry));
     e_invoicingType := ea_invoicingType entry;
     e_startDate := ea_startDate entry;
     e_endDate := ea_endDate entry;
     e_quantity := ea_quantity entry;
     e_days := ea_days entry;
     e_unitPrice := ea_unitPrice entry;
     e_retailUnitPrice := ea_retailUnitPrice entry;
     e_amount := Some (default zero (ea_amount entry));
     e_retailAmount := Some (default zero (ea_retailAmount entry));
     e_billing := ea_billing entry;
     e_commitment := ea_commitment entry;
     e_billingStartDate := ea_billingStartDate entry;
     e_billingEndDate := ea_billingEndDate entry;
     e_commitmentStartDate := ea_commitmentStartDate entry;
     e_commitmentEndDate := ea_commitmentEndDate entry |}.

Section MapSubscriptions.
Variable line : LineApi.
Variable tenant : TenantApi.

Definition mapSubscriptionEntries (subEntries : option (list TenantEntryApi))
    (subId : string) (subDescription : option string) : list InvoiceTenantEntry :=
  imap (fun idx entry =>
          buildEntry entry
            (default (default (subId +:+ "-entry-" +:+ nat_to_string idx)
                              (ea_skuId entry))
                     (ea_productId entry))
            (default (default (default "Line item" subDescription)
                              (ea_nickname entry))
                     (ea_description entry)))
       (default [] subEntries).

Definition sumEntryLicenses (entries : list InvoiceTenantEntry) : jsnum :=
  fold_left
    (fun acc entry =>
       add acc (default (default zero (e_quantity entry)) (e_licensQuantity entry)))
    entries zero.

(** Strategy 1: one subscription of the payload. *)
Definition fromSubscription (sub : SubscriptionApi) : InvoiceSubscriptionBreakdown :=
  let entries := mapSubscriptionEntries (sa_entries sub) (sa_id sub) (sa_description sub) in
  let derivedLicenses := sumEntryLicenses entries in
  let fallbackLicenses :=
    if truthy derivedLicenses then derivedLicenses
    else if (0 <? length entries)%nat then ofNat (length entries) else zero in
  {| s_id := sa_id sub;
     s_description := sa_description sub;
     s_nickname := sa_nickname sub;
     s_licensQuantity := Some (default fallbackLicenses (sa_licensQuantity sub));
     s_amount := sa_amount sub;
     s_retailAmount := sa_retailAmount sub;
     s_billingTypeId := la_billingTypeId line;
     s_billingTypeDescription := la_billingTypeDescription line;
     s_entries := entries |}.

(** Strategy 2: one synthetic subscription per flat entry. *)
Definition fromEntry (idx : nat) (entry : TenantEntryApi) : InvoiceSubscriptionBreakdown :=
  let description :=
    default
      (default
         (default
            (default (default "Item" (la_billingTypeDescription line))
                     (la_description line))
            (ta_productDescription tenant))
         (ea_nickname entry))
      (ea_description entry) in
  let fallbackId :=
    default (default (ta_id tenant +:+ "-entry-" +:+ nat_to_string idx)
                     (ea_skuId entry))
            (ea_productId entry) in
  {| s_id := fallbackId;
     s_description := Some description;
     s_nickname := Some (default description (ea_nickname entry));
     s_licensQuantity :=
       Some (default (default zero (ea_quantity entry)) (ea_licensQuantity entry));
     s_amount := Some (default zero (ea_amount entry));
     s_retailAmount := Some (default zero (ea_retailAmount entry));
     s_billingTypeId := la_billingTypeId line;
     s_billingTypeDescription := la_billingTypeDescription line;
     s_entries := [buildEntry entry fallbackId description] |}.

(** The amount of a connector: the explicit one, else quantity times
    unit price when both are known, else [0]. *)
Definition connectorAmount (explicit rawQuantity rawUnitPrice : option jsnum) : jsnum :=
  let quantity := default zero rawQuantity in
  let unitPrice := default zero rawUnitPrice in
  default
    (if bool_decide (is_Some rawQuantity) && bool_decide (is_Some rawUnitPrice)
     then mul quantity unitPrice else zero)
    explicit.

(** Strategy 3: one subscription per connector. *)
Definition fromConnector (idx : nat) (connector : TenantConnectorApi)
    : InvoiceSubscriptionBreakdown :=
  let rawQuantity := orElse (ca_quantity connector) (ta_quantity tenant) in
  let rawUnitPrice := orElse (ca_unitPrice connector) (ta_unitPrice tenant) in
  let rawRetailUnitPrice :=
    orElse (ca_retailUnitPrice connector) (ta_retailUnitPrice tenant) in
  let quantity := default zero rawQuantity in
  let unitPrice := default zero rawUnitPrice in
  let retailUnitPrice := default zero rawRetailUnitPrice in
  let amount := connectorAmount (ca_amount connector) rawQuantity rawUnitPrice in
  let retailAmount :=
    connectorAmount (ca_retailAmount connector) rawQuantity rawRetailUnitPrice in
  let description :=
    default
      (default
         (default (default "Product" (la_billingTypeDescription line))
                  (la_description line))
         (ta_productDescription tenant))
      (ca_description connector) in
  let fallbackId :=
    default (default (ta_id tenant +:+ "-connector-" +:+ nat_to_string idx)
                     (ta_productId tenant))
            (ca_id connector) in
  let connectorEntry :=
    {| ea_productId := orElse (ta_productId tenant) (ca_id connector);
       ea_skuId := ca_id connector;
       ea_description := Some description;
       ea_nickname := Some description;
       ea_licensQuantity := Some quantity;
       ea_invoicingType := None;
       ea_startDate := None;
       ea_endDate := None;
       ea_quantity := Some quantity;
       ea_days := None;
       ea_unitPrice := Some unitPrice;
       ea_retailUnitPrice := Some retailUnitPrice;
       ea_amount := Some amount;
       ea_retailAmount := Some retailAmount;
       ea_billing := None;
       ea_commitment := None;
       ea_billingStartDate := None;
       ea_billingEndDate := None;
       ea_commitmentStartDate := None;
       ea_commitmentEndDate := None |} in
  {| s_id := fallbackId;
     s_description := Some description;
     s_nickname := Some description;
     s_licensQuantity := Some quantity;
     s_amount := Some amount;
     s_retailAmount := Some retailAmount;
     s_billingTypeId := la_billingTypeId line;
     s_billingTypeDescription := la_billingTypeDescription line;
     s_entries := [buildEntry connectorEntry fallbackId description] |}.

(** Strategy 4: one subscription from the tenant's own fields. *)
Definition fromTenant : InvoiceSubscriptionBreakdown :=
  let fallbackDescription :=
    default
      (default
         (default (default "Item" (ta_name tenant))
                  (la_billingTypeDescription line))
         (la_description line))
      (ta_productDescription tenant) in
  let fallbackId := default (ta_id tenant) (ta_productId tenant) in
  {| s_id := fallbackId;
     s_description := Some fallbackDescription;
     s_nickname := Some fallbackDescription;
     s_licensQuantity := Some (default zero (ta_quantity tenant));
     s_amount := Some (default zero (ta_amount tenant));
     s_retailAmount := Some (default zero (ta_retailAmount tenant));
     s_billingTypeId := la_billingTypeId line;
     s_billingTypeDescription := la_billingTypeDescription line;
     s_entries :=
       [buildEntry
          {| ea_productId := ta_productId tenant;
             ea_skuId := None;
             ea_description := Some fallbackDescription;
             ea_nickname := Some fallbackDescription;
             ea_licensQuantity := ta_quantity tenant;
             ea_invoicingType := None;
             ea_startDate := None;
             ea_endDate := None;
             ea_quantity := ta_quantity tenant;
             ea_days := None;
             ea_unitPrice := ta_unitPrice tenant;
             ea_retailUnitPrice := ta_retailUnitPrice tenant;
             ea_amount := ta_amount tenant;
             ea_retailAmount := ta_retailAmount tenant;
             ea_billing := None;
             ea_commitment := None;
             ea_billingStartDate := None;
             ea_billingEndDate := None;
             ea_commitmentStartDate := None;
             ea_commitmentEndDate := None |}
          fallbackId fallbackDescription] |}.

Definition mapSubscriptions : list InvoiceSubscriptionBreakdown :=
  match ta_subscriptions tenant with
  | Some (sub :: subs) => fromSubscription <$> (sub :: subs)
  | _ =>
      let directEntries := imap fromEntry (default [] (ta_entries tenant)) in
      if (0 <? length directEntries)%nat then directEntries
      else
        let connectorSubscriptions :=
          imap fromConnector (default [] (ta_connectors tenant)) in
        if (0 <? length connectorSubscriptions)%nat then connectorSubscriptions
        else [fromTenant]
  end.

Definition mapTenant : InvoiceTenantBreakdown :=
  {| t_id := ta_id tenant;
     t_name := ta_name tenant;
     t_domain := ta_domain tenant;
     t_amount := default zero (ta_amount tenant);
     t_retailAmount := default zero (ta_retailAmount tenant);
     t_customerName := ta_customerName tenant;
     t_customerVatId := ta_customerVatId tenant;
     t_customerReference := ta_customerReference tenant;
     t_subscriptions := mapSubscriptions |}.
End MapSubscriptions.

(** [inv.lines.flatMap(...)] of [mapInvoiceDetail] *)
Definition mapTenants (lines : list LineApi) : list InvoiceTenantBreakdown :=
  lines ≫= fun line => mapTenant line <$> default [] (la_tenants line).

(** ** Specification-side definitions and fixtures *)


(** The four aging buckets, and the bucket that the words of the
    specification give to a number of days past due: inclusive upper
    bounds 30, 60 and 90. *)
Inductive Bucket : Type := B0_30 | B31_60 | B61_90 | B90plus.

Global Instance Bucket_eq_dec : EqDecision Bucket.
Proof. solve_decision. Defined.

Definition bucketValue (b : Bucket) (a : AgingBuckets) : jsnum :=
  match b with
  | B0_30 => b0_30 a
  | B31_60 => b31_60 a
  | B61_90 => b61_90 a
  | B90plus => b90plus a
  end.

Definition bucketOf (daysPastDue : jsnum) : Bucket :=
  if le daysPastDue (ofZ 30) then B0_30
  else if le daysPastDue (ofZ 60) then B31_60
  else if le daysPastDue (ofZ 90) then B61_90
  else B90plus.

(** Membership of an invoice in a bucket: not Paid, and classified there. *)
Definition inBucket (parseDate : string -> jsnum) (referenceDate : jsnum)
    (b : Bucket) (inv : Invoice) : bool :=
  negb (bool_decide (status inv = Paid)) &&
  bool_decide (bucketOf (diffInDays parseDate referenceDate (dueDate inv)) = b).

(** The fixture of the aging test, with the time stamps of its dates. *)
Definition agingParse (iso : string) : jsnum :=
  if bool_decide (iso = "2026-01-25") then ofZ 1769299200000
  else if bool_decide (iso = "2025-12-18") then ofZ 1766016000000
  else if bool_decide (iso = "2025-11-20") then ofZ 1763596800000
  else if bool_decide (iso = "2025-10-01") then ofZ 1759276800000
  else if bool_decide (iso = "2026-01-15") then ofZ 1768435200000
  else NaN.

Definition agingInvoice (number due : string) (v : Z) (st : Status) : Invoice :=
  {| invoiceNumber := number; postingDate := "2026-01-01";
     inv_amount := Some (ofZ 1000); amountInclVat := Some (ofZ v);
     dueDate := due; status := st; invoicePdf := ""; billingDataExcel := "" |}.

Definition agingFixture : list Invoice :=
  [ agingInvoice "0-15" "2026-01-25" 100 Unpaid;
    agingInvoice "45" "2025-12-18" 200 Overdue;
    agingInvoice "75" "2025-11-20" 300 Overdue;
    agingInvoice "120" "2025-10-01" 400 Overdue;
    agingInvoice "paid" "2026-01-15" 999 Paid ].

(** The amount basis in the words of the specification: retail first for
    the three named vendors, cost first for every other vendor, the
    other amount as fallback, and [0] when neither is a number. *)
Definition namesRetailVendor (vendorName : string) : bool :=
  let v := toLowerCase vendorName in
  includes "keepit" v || includes "adobe" v || includes "microsoft" v.

Definition amountBasis (vendorName : string) (cost retail : option jsnum) : jsnum :=
  if namesRetailVendor vendorName
  then default (default zero cost) retail
  else default (default zero retail) cost.

Definition mkSub (id desc nick : string) (lic amt retail : Z)
    (btd : option string) : InvoiceSubscriptionBreakdown :=
  {| s_id := id; s_description := Some desc; s_nickname := Some nick;
     s_licensQuantity := Some (ofZ lic); s_amount := Some (ofZ amt);
     s_retailAmount := Some (ofZ retail); s_billingTypeId := None;
     s_billingTypeDescription := btd; s_entries := [] |}.

(** A stand-in for the collation in examples: code-unit order. *)
Definition codeUnitCompare (a b : string) : Z :=
  match String.compare a b with
  | Lt => -1
  | Eq => 0
  | Gt => 1
  end.

(** A stored rate, by tenant id and product key. *)
Definition storedRate (discounts : TenantDiscountState)
    (tenantId productKey : string) : option jsnum :=
  discounts !! tenantId ≫= fun products => products !! productKey.


(** The state of [vendorMap] after the [forEach] over the subscriptions. *)
Definition aggState (subscriptions : list InvoiceSubscriptionBreakdown)
    : list (string * VendorEntry) :=
  fold_left subscriptionStep subscriptions [].

(** What one subscription brings to its product: the amount on the
    vendor's basis, and the cost. *)
Definition subAmount (sub : InvoiceSubscriptionBreakdown) : jsnum :=
  getAmountForVendor sub (resolveVendorName sub).

Definition entryAmount (entry : InvoiceTenantEntry) : jsnum :=
  default zero (e_amount entry).

Definition subCost (sub : InvoiceSubscriptionBreakdown) : jsnum :=
  let subscriptionEntryAmount := sum (entryAmount <$> s_entries sub) in
  if gt subscriptionEntryAmount zero then subscriptionEntryAmount
  else default zero (s_amount sub).

(** The subscriptions of a vendor, and of a product bucket of a vendor. *)
Definition ofVendor (v : string) (sub : InvoiceSubscriptionBreakdown) : bool :=
  bool_decide (resolveVendorName sub = v).

Definition ofProduct (v k : string) (sub : InvoiceSubscriptionBreakdown) : bool :=
  bool_decide (resolveVendorName sub = v) && bool_decide (productKeyOf sub = k).

(** Reading the result: the vendor of a name, and the product of a
    grouping key, which is the normalised display name. *)
Definition findVendor (v : string) (vendors : list AggregatedVendor)
    : option AggregatedVendor :=
  List.find (fun av => bool_decide (vendorName av = v)) vendors.

Definition findProduct (k : string) (vendor : AggregatedVendor)
    : option AggregatedProduct :=
  List.find (fun p => bool_decide (normalizeLabel (displayName p) = k)) (products vendor).


(** Keys are the names they stand for, and occur once. *)
Definition vendorKeyed (kv : string * VendorEntry) : Prop :=
  ve_vendorName kv.2 = kv.1 /\
  NoDup (ve_productsMap kv.2).*1 /\
  Forall (fun kp => normalizeLabel (pe_displayName kp.2) = kp.1) (ve_productsMap kv.2).

Definition stateKeyed (m : list (string * VendorEntry)) : Prop :=
  NoDup m.*1 /\ Forall vendorKeyed m.

(** What the aggregation holds for a vendor and for a product bucket:
    nothing for an empty bucket; else the sums over the bucket and, for a
    product, the label of its first subscription. *)
Definition vendorInfo (ve : VendorEntry) : jsnum * jsnum :=
  (ve_totalLicenses ve, ve_totalAmount ve).

Definition productInfo (pe : ProductEntry) : string * jsnum * jsnum * jsnum :=
  (pe_displayName pe, pe_licenses pe, pe_amount pe, pe_costAmount pe).

Definition vendorBucket (b : list InvoiceSubscriptionBreakdown)
    : option (jsnum * jsnum) :=
  match b with
  | [] => None
  | _ :: _ => Some (sum (subLicenses <$> b), sum (subAmount <$> b))
  end.

Definition productBucket (b : list InvoiceSubscriptionBreakdown)
    : option (string * jsnum * jsnum * jsnum) :=
  match b with
  | [] => None
  | first :: _ =>
      Some (productLabelOf first, sum (subLicenses <$> b), sum (subAmount <$> b),
            sum (subCost <$> b))
  end.

(** The sum of a value over a bucket, if the bucket has a member. *)
Definition bucketSum (f : InvoiceSubscriptionBreakdown -> jsnum)
    (b : list InvoiceSubscriptionBreakdown) : option jsnum :=
  match b with
  | [] => None
  | _ :: _ => Some (sum (f <$> b))
  end.

(** Two subscriptions of one vendor whose labels differ in letter case. *)
Definition subUpper : InvoiceSubscriptionBreakdown :=
  mkSub "sub-1" "Product X" "Product X" 1 100 100 (Some "Vendor").

Definition subLower : InvoiceSubscriptionBreakdown :=
  mkSub "sub-2" "product x" "product x" 2 200 200 (Some "Vendor").

(** The two labels of the NCE example. *)
Definition subNce : InvoiceSubscriptionBreakdown :=
  mkSub "nce" "(NCE) Product X" "(NCE) Product X" 4 400 400 (Some "Microsoft").

Definition subPlain : InvoiceSubscriptionBreakdown :=
  mkSub "std" "Product X" "Product X" 1 100 100 (Some "Microsoft").

(** The entry of the vendor and of the product that a step starts from. *)
Definition vendorBefore (m : list (string * VendorEntry))
    (sub : InvoiceSubscriptionBreakdown) : VendorEntry :=
  default {| ve_vendorName := resolveVendorName sub; ve_totalLicenses := zero;
             ve_totalAmount := zero; ve_productsMap := [] |}
          (map_get (resolveVendorName sub) m).

Definition productBefore (m : list (string * VendorEntry))
    (sub : InvoiceSubscriptionBreakdown) : ProductEntry :=
  default {| pe_displayName := productLabelOf sub; pe_licenses := zero;
             pe_amount := zero; pe_costAmount := zero;
             pe_billingValues := []; pe_commitmentValues := [];
             pe_detailsMap := [] |}
          (map_get (productKeyOf sub) (ve_productsMap (vendorBefore m sub))).




(** ** Further definitions: metrics and aging *)

(** The invoices posted in the month of [nowIso]. *)
Definition inCurrentMonth (nowIso : string) (inv : Invoice) : bool :=
  bool_decide (getIsoMonth (postingDate inv) = getIsoMonth nowIso).

Definition hasStatus (st : Status) (inv : Invoice) : bool :=
  bool_decide (status inv = st).

(** The four buckets added up. *)
Definition bucketsTotal (a : AgingBuckets) : jsnum :=
  add (add (add (b0_30 a) (b31_60 a)) (b61_90 a)) (b90plus a).

(** An open invoice whose [amountInclVat] is missing. *)
Definition agingNoAmount : Invoice :=
  {| invoiceNumber := "no-amount"; postingDate := "2026-01-01";
     inv_amount := Some (ofZ 1000); amountInclVat := None;
     dueDate := "2026-01-25"; status := Unpaid; invoicePdf := ""; billingDataExcel := "" |}.

(** ** Further definitions: the product rows of the aggregation *)

(** [entry.licensQuantity ?? entry.quantity ?? entry.days ?? 0] *)
Definition entryLicenses (entry : InvoiceTenantEntry) : jsnum :=
  default (default (default zero (e_days entry)) (e_quantity entry))
          (e_licensQuantity entry).

(** The entries of the subscriptions of a bucket, in input order. *)
Definition bucketEntries (b : list InvoiceSubscriptionBreakdown)
    : list InvoiceTenantEntry :=
  b ≫= s_entries.

(** The billing and commitment terms that the entries carry; an empty
    string counts as none. *)
Definition billingTags (es : list InvoiceTenantEntry) : list string :=
  omap (fun e => nonEmpty (e_billing e)) es.

Definition commitmentTags (es : list InvoiceTenantEntry) : list string :=
  omap (fun e => nonEmpty (e_commitment e)) es.

(** The label of a list of terms: none for no term, the trimmed term
    when all terms agree after trimming, and "Mixed" otherwise. *)
Definition commonLabel (tags : list string) : option string :=
  match tags with
  | [] => None
  | t :: rest =>
      if forallb (fun x => bool_decide (trim x = trim t)) rest
      then Some (trim t) else Some "Mixed"
  end.

Definition isNil {A : Type} (l : list A) : bool :=
  match l with
  | [] => true
  | _ :: _ => false
  end.

(** What a product accumulator holds besides its sums, and the same
    read off the entries of a bucket. *)
Definition productExtra (pe : ProductEntry)
    : list string * list string * jsnum * jsnum * bool :=
  (pe_billingValues pe, pe_commitmentValues pe,
   sum (d_licenses <$> map_values (pe_detailsMap pe)),
   sum (d_amount <$> map_values (pe_detailsMap pe)),
   isNil (pe_detailsMap pe)).

Definition entriesExtra (es : list InvoiceTenantEntry)
    : list string * list string * jsnum * jsnum * bool :=
  (unique (billingTags es), unique (commitmentTags es),
   sum (entryLicenses <$> es), sum (entryAmount <$> es), isNil es).

Definition nonEmptyBucket {A : Type} (b : list A) : option (list A) :=
  match b with
  | [] => None
  | _ :: _ => Some b
  end.

(** A comparator that orders its arguments: any two are comparable, and
    the order is transitive. *)
Definition consistentComparator (cmp : string -> string -> Z) : Prop :=
  (forall a b, cmp a b <= 0 \/ cmp b a <= 0) /\
  (forall a b c, cmp a b <= 0 -> cmp b c <= 0 -> cmp a c <= 0).

(** Ascending by a key: every element is at most the ones after it. *)
Definition sortedBy {A : Type} (cmp : string -> string -> Z) (key : A -> string)
    (l : list A) : Prop :=
  StronglySorted (fun a b => cmp (key a) (key b) <= 0) l.

(** ** Further definitions: the response mapper *)

(** The fields that [buildEntry] always fills. *)
Definition entryComplete (e : InvoiceTenantEntry) : Prop :=
  is_Some (e_description e) /\ is_Some (e_nickname e) /\
  is_Some (e_licensQuantity e) /\ is_Some (e_amount e) /\ is_Some (e_retailAmount e).

(** [entry.licensQuantity ?? entry.quantity ?? 0] on an entry of the payload. *)
Definition apiEntryLicenses (e : TenantEntryApi) : jsnum :=
  default (default zero (ea_quantity e)) (ea_licensQuantity e).

(** A payload for examples: a line of billing type "Microsoft " whose
    tenant has one flat entry and no subscription. *)
Definition exampleEntryApi : TenantEntryApi :=
  {| ea_productId := Some "p-1"; ea_skuId := None;
     ea_description := Some "(NCE) Microsoft 365 E3"; ea_nickname := None;
     ea_licensQuantity := None; ea_invoicingType := None;
     ea_startDate := None; ea_endDate := None;
     ea_quantity := Some (ofZ 3); ea_days := None;
     ea_unitPrice := None; ea_retailUnitPrice := None;
     ea_amount := Some (ofZ 90); ea_retailAmount := Some (ofZ 120);
     ea_billing := Some "Monthly"; ea_commitment := None;
     ea_billingStartDate := None; ea_billingEndDate := None;
     ea_commitmentStartDate := None; ea_commitmentEndDate := None |}.

Definition exampleTenantApi : TenantApi :=
  {| ta_id := "tenant-1"; ta_name := Some "Contoso"; ta_domain := "contoso.example";
     ta_amount := Some (ofZ 90); ta_retailAmount := Some (ofZ 120);
     ta_customerName := "Contoso A/S"; ta_customerVatId := "DK1";
     ta_customerReference := "WL 12";
     ta_productId := None; ta_productDescription := None;
     ta_quantity := None; ta_unitPrice := None; ta_retailUnitPrice := None;
     ta_entries := Some [exampleEntryApi]; ta_connectors := None;
     ta_subscriptions := None |}.

Definition exampleLineApi : LineApi :=
  {| la_description := Some "Licenses"; la_lineAmount := ofZ 90;
     la_billingTypeId := Some "MS"; la_billingTypeDescription := Some "Microsoft ";
     la_tenants := Some [exampleTenantApi] |}.

(** [mapInvoiceDetail] of [src/hooks/useInvoiceDetail.ts].  A line of the
    payload is the [LineApi] read by the tenant mapping together with
    its [billingDataExcel]. *)
Record DetailLineApi : Type := {
  dl_line : LineApi;
  dl_billingDataExcel : option string
}.

Record InvoiceDetailApi : Type := {
  da_partnerName : string;
  da_invoiceNo : string;
  da_postingDate : string;
  da_amount : option jsnum;
  da_amountIncludingVAT : option jsnum;
  da_remainingAmountIncludingVAT : jsnum;
  da_dueDate : string;
  da_invoicePdf : string;
  da_lines : list DetailLineApi
}.

Record InvoiceDetailLine : Type := {
  il_description : option string;
  il_amount : jsnum;
  il_billingTypeId : option string;
  il_billingTypeDescription : option string
}.

(** [InvoiceDetail extends Invoice] *)
Record InvoiceDetail : Type := {
  det_invoice : Invoice;
  det_customerName : string;
  det_lines : list InvoiceDetailLine;
  det_tenants : option (list InvoiceTenantBreakdown)
}.

Definition mapInvoiceDetail (today : string) (api : InvoiceDetailApi) : InvoiceDetail :=
  let tenants := mapTenants (dl_line <$> da_lines api) in
  {| det_invoice :=
       {| invoiceNumber := da_invoiceNo api;
          postingDate := da_postingDate api;
          inv_amount := da_amount api;
          amountInclVat := da_amountIncludingVAT api;
          dueDate := da_dueDate api;
          status := mapStatus today (da_remainingAmountIncludingVAT api) (da_dueDate api);
          invoicePdf := da_invoicePdf api;
          billingDataExcel := default "" (head (da_lines api) ≫= dl_billingDataExcel) |};
     det_customerName := da_partnerName api;
     det_lines :=
       (fun line =>
          {| il_description := la_description (dl_line line);
             il_amount := la_lineAmount (dl_line line);
             il_billingTypeId := la_billingTypeId (dl_line line);
             il_billingTypeDescription := la_billingTypeDescription (dl_line line) |})
         <$> da_lines api;
     det_tenants := if (0 <? length tenants)%nat then Some tenants else None |}.

(** The amount of a raw invoice on a basis. *)
Definition apiAmount (amountMode : BillingAmountMode) (inv : ApiInvoice) : jsnum :=
  match amountMode with
  | inclVat => default (default zero (api_amount inv)) (api_amountIncludingVAT inv)
  | exclVat => default (default zero (api_amountIncludingVAT inv)) (api_amount inv)
  end.

(** ** Further definitions: the discount store *)

(** One call of [setDiscountRate]. *)
Record DiscountOp : Type := {
  op_tenantId : option string;
  op_vendorName : option string;
  op_productName : option string;
  op_rate : option jsnum
}.

Definition applyOp (st : TenantDiscountState) (op : DiscountOp) : TenantDiscountState :=
  setDiscountRate (op_tenantId op) (op_vendorName op) (op_productName op) (op_rate op) st.

Definition applyOps (ops : list DiscountOp) (st : TenantDiscountState)
    : TenantDiscountState :=
  fold_left applyOp ops st.

(** What a call leaves under its key: the normalised rate, or nothing
    for [null] and [NaN]. *)
Definition effectiveRate (rate : option jsnum) : option jsnum :=
  match rate with
  | Some r => if isNaN r then None else Some (normalizeRate r)
  | None => None
  end.

(** A call writes to the pair of a tenant id and a product key. *)
Definition writesTo (t k : string) (op : DiscountOp) : bool :=
  bool_decide (nonEmpty (op_tenantId op) = Some t /\
               makeProductKey (op_vendorName op) (op_productName op) = k).

(** The last call of a sequence that writes to a pair, if any. *)
Definition lastWrite (t k : string) (ops : list DiscountOp) : option DiscountOp :=
  fold_left (fun acc op => if writesTo t k op then Some op else acc) ops None.

(** A rate with two decimals between 0 and 100. *)
Definition validRate (r : jsnum) : Prop :=
  exists n : Z, 0 <= n <= 10000 /\ r = dec n 100.

Definition storeValid (st : TenantDiscountState) : Prop :=
  (forall t k r, storedRate st t k = Some r -> validRate r) /\
  (forall t, st !! t <> Some ∅).

(** A name without a colon. *)
Definition noColon (s : string) : Prop := includes ":" s = false.

(** ** The discount service (the Express application) *)

(** A field of a JSON request body, as far as [typeof] tells it apart. *)
Inductive jsval : Type :=
  | JUndefined
  | JString (s : string)
  | JNumber (n : jsnum)
  | JOther.

Record RequestBody : Type := {
  body_tenantId : jsval;
  body_vendorName : jsval;
  body_productName : jsval;
  body_rate : jsval
}.

Record ParsedBody : Type := {
  pb_tenantId : string;
  pb_vendorName : string;
  pb_productName : string;
  pb_rate : option jsnum
}.

(** [typeof v === "string" ? v.trim() : ""] *)
Definition stringField (v : jsval) : string :=
  match v with
  | JString s => trim s
  | _ => ""
  end.

(** [parseBody]; a number of the model that is not [NaN] is finite. *)
Definition parseBody (body : RequestBody) : ParsedBody :=
  {| pb_tenantId := stringField (body_tenantId body);
     pb_vendorName := stringField (body_vendorName body);
     pb_productName := stringField (body_productName body);
     pb_rate :=
       match body_rate body with
       | JNumber rawRate => if isNaN rawRate then None else Some (normalizeRate rawRate)
       | _ => None
       end |}.

(** The table [tenant_discounts]: its primary key is the pair of
    [tenant_id] and [product_key]; [updated_at] is not read. *)
Abbreviation DiscountTable := (gmap (string * string) jsnum).

(** [!s] on a string *)
Definition blank (s : string) : bool := bool_decide (s = "").

(** The check [!tenantId || !vendorName || !productName]. *)
Definition missingNames (p : ParsedBody) : bool :=
  blank (pb_tenantId p) || blank (pb_vendorName p) || blank (pb_productName p).

Definition parsedKey (p : ParsedBody) : string * string :=
  (pb_tenantId p, makeProductKey (Some (pb_vendorName p)) (Some (pb_productName p))).

(** The handlers: the status of the response and the table afterwards.
    The rate is read after the check [rate === null] has passed. *)
Definition handlePost (body : RequestBody) (db : DiscountTable) : Z * DiscountTable :=
  let p := parseBody body in
  match (if missingNames p then None else pb_rate p) with
  | None => (400, db)
  | Some rate =>
      match db !! parsedKey p with
      | Some _ => (409, db)
      | None => (201, <[parsedKey p := rate]> db)
      end
  end.

Definition handlePatch (body : RequestBody) (db : DiscountTable) : Z * DiscountTable :=
  let p := parseBody body in
  match (if missingNames p then None else pb_rate p) with
  | None => (400, db)
  | Some rate =>
      match db !! parsedKey p with
      | None => (404, db)
      | Some _ => (200, <[parsedKey p := rate]> db)
      end
  end.

Definition handlePut (body : RequestBody) (db : DiscountTable) : Z * DiscountTable :=
  let p := parseBody body in
  match (if missingNames p then None else pb_rate p) with
  | None => (400, db)
  | Some rate => (200, <[parsedKey p := rate]> db)
  end.

Definition handleDelete (body : RequestBody) (db : DiscountTable) : Z * DiscountTable :=
  let p := parseBody body in
  if missingNames p then (400, db) else (204, delete (parsedKey p) db).

Inductive Method : Type := POST | PATCH | PUT | DELETE.

Definition handle (m : Method) : RequestBody -> DiscountTable -> Z * DiscountTable :=
  match m with
  | POST => handlePost
  | PATCH => handlePatch
  | PUT => handlePut
  | DELETE => handleDelete
  end.

(** The table after a sequence of requests. *)
Definition serveAll (requests : list (Method * RequestBody)) (db : DiscountTable)
    : DiscountTable :=
  fold_left (fun db req => (handle req.1 req.2 db).2) requests db.

(** A row of [SELECT tenant_id, product_key, rate]. *)
Record DiscountRow : Type := {
  row_tenant_id : string;
  row_product_key : string;
  row_rate : jsnum
}.

(** The names that every object inherits: [discounts[name]] finds the
    inherited value, so [mapRowsToState] creates no object for such a
    tenant id and its write does not reach [discounts]. *)
Definition inheritedNames : list string :=
  [ "__proto__"; "constructor"; "hasOwnProperty"; "isPrototypeOf";
    "propertyIsEnumerable"; "toLocaleString"; "toString"; "valueOf";
    "__defineGetter__"; "__defineSetter__"; "__lookupGetter__"; "__lookupSetter__" ].

(** A row that the object model of the state covers: the tenant id is
    no inherited name, and the product key is not [__proto__], whose
    assignment sets no property. *)
Definition plainRow (row : DiscountRow) : bool :=
  negb (bool_decide (row_tenant_id row ∈ inheritedNames)) &&
  negb (bool_decide (row_product_key row = "__proto__")).

(** [mapRowsToState]; [None] when a row is outside the object model. *)
Definition mapRowsToState (rows : list DiscountRow) : option TenantDiscountState :=
  fold_left
    (fun acc row =>
       discounts ← acc;
       if plainRow row then
         let tenantDiscounts := default ∅ (discounts !! row_tenant_id row) in
         Some (<[row_tenant_id row :=
                   <[row_product_key row := row_rate row]> tenantDiscounts]> discounts)
       else None)
    rows (Some ∅).

(** The rows of the table, in the order of the map. *)
Definition tableRows (db : DiscountTable) : list DiscountRow :=
  (fun kv => {| row_tenant_id := kv.1.1; row_product_key := kv.1.2; row_rate := kv.2 |})
    <$> map_to_list db.

(** What the table of the service keeps: tenant ids that are trimmed and
    not empty, product keys in lower case that hold the separator, and
    rates with two decimals between 0 and 100. *)
Definition tableValid (db : DiscountTable) : Prop :=
  forall t k r, db !! (t, k) = Some r ->
    t <> "" /\ trim t = t /\ toLowerCase k = k /\ includes "::" k = true /\ validRate r.

(** The request that the hook sends for a call of [setDiscountRate]:
    [DELETE] for [null] and [NaN], [PUT] with the normalised rate
    otherwise.  An [undefined] name is left out by [JSON.stringify]. *)
Definition nameField (s : option string) : jsval :=
  match s with
  | Some x => JString x
  | None => JUndefined
  end.

Definition hookRequest (tenantId : string) (vendorName productName : option string)
    (rate : option jsnum) : Method * RequestBody :=
  let normalizedRate := effectiveRate rate in
  match normalizedRate with
  | None =>
      (DELETE, {| body_tenantId := JString tenantId;
                  body_vendorName := nameField vendorName;
                  body_productName := nameField productName;
                  body_rate := JUndefined |})
  | Some r =>
      (PUT, {| body_tenantId := JString tenantId;
               body_vendorName := nameField vendorName;
               body_productName := nameField productName;
               body_rate := JNumber r |})
  end.

(** The update of [mapRowsToState] for one row within the object model. *)
Definition rowInsert (discounts : TenantDiscountState) (row : DiscountRow)
    : TenantDiscountState :=
  <[row_tenant_id row :=
      <[row_product_key row := row_rate row]>
        (default ∅ (discounts !! row_tenant_id row))]> discounts.

Definition rowKey (row : DiscountRow) : string * string :=
  (row_tenant_id row, row_product_key row).

(** ** The invoice detail page ([src/pages/InvoiceDetailPage.tsx]) *)

Record GroupedCustomer : Type := {
  g_key : string;
  g_id : string;
  g_name : string;
  g_domains : list string;
  g_references : list string;
  g_subscriptions : list InvoiceSubscriptionBreakdown
}.

Record CustomerCard : Type := {
  c_id : string;
  c_name : string;
  c_domains : list string;
  c_references : list string;
  c_subscriptions : list InvoiceSubscriptionBreakdown
}.

(** [if (s) set.add(s)] and [new Set(s ? [s] : [])] *)
Definition addNonEmpty (s : string) (set : list string) : list string :=
  if bool_decide (s = "") then set else set_add s set.

(** The key of a tenant's customer.  [customerName] is a string in every
    tenant of the mapper, so that the fallbacks [?? tenant.name ??
    tenant.id] of the key, and [?? tenant.name ?? "Kunde"] of the name,
    are not reached. *)
Definition customerKey (tenant : InvoiceTenantBreakdown) : string :=
  toLowerCase (t_customerName tenant).

(** The body of [filteredTenants.forEach]: an existing group is updated
    in its place, a new one is added at the end. *)
Definition groupStep (map : list (string * GroupedCustomer))
    (tenant : InvoiceTenantBreakdown) : list (string * GroupedCustomer) :=
  let mapKey := customerKey tenant in
  match map_get mapKey map with
  | Some existing =>
      map_set mapKey
        {| g_key := g_key existing;
           g_id := g_id existing;
           g_name := g_name existing;
           g_domains := addNonEmpty (t_domain tenant) (g_domains existing);
           g_references := addNonEmpty (t_customerReference tenant) (g_references existing);
           g_subscriptions := g_subscriptions existing ++ t_subscriptions tenant |}
        map
  | None =>
      map_set mapKey
        {| g_key := mapKey;
           g_id := t_id tenant;
           g_name := t_customerName tenant;
           g_domains := addNonEmpty (t_domain tenant) [];
           g_references := addNonEmpty (t_customerReference tenant) [];
           g_subscriptions := t_subscriptions tenant |}
        map
  end.

Definition customerGroups (filteredTenants : list InvoiceTenantBreakdown)
    : list (string * GroupedCustomer) :=
  fold_left groupStep filteredTenants [].

(** [group.id || `${group.key}-${index}`] *)
Definition cardId (group : GroupedCustomer) (index : nat) : string :=
  if bool_decide (g_id group = "") then g_key group +:+ "-" +:+ nat_to_string index
  else g_id group.

Definition groupedCustomers (filteredTenants : list InvoiceTenantBreakdown)
    : list CustomerCard :=
  imap (fun index group =>
          {| c_id := cardId group index;
             c_name := g_name group;
             c_domains := g_domains group;
             c_references := g_references group;
             c_subscriptions := g_subscriptions group |})
       (map_values (customerGroups filteredTenants)).

(** The tenants of a customer key. *)
Definition ofCustomer (k : string) (tenant : InvoiceTenantBreakdown) : bool :=
  bool_decide (customerKey tenant = k).








(** ** The invoice table ([src/components/InvoiceTable.tsx]) *)

Inductive StatusFilter : Type := filterAll | filterOverdue | filterUnpaid | filterPaid.

Definition statusFilterString (f : StatusFilter) : string :=
  match f with
  | filterAll => "all"
  | filterOverdue => "overdue"
  | filterUnpaid => "unpaid"
  | filterPaid => "paid"
  end.

(** The status of an invoice as the string it is. *)
Definition statusString (s : Status) : string :=
  match s with
  | Paid => "Paid"
  | Unpaid => "Unpaid"
  | Overdue => "Overdue"
  end.

Definition matchesStatus (statusFilter : StatusFilter) (status : Status) : bool :=
  if bool_decide (statusFilterString statusFilter = "all") then true
  else
    let normalized := toLowerCase (statusString status) in
    bool_decide (normalized = statusFilterString statusFilter).

Inductive DatePreset : Type := presetAll | preset30 | preset90 | preset365.

Section InvoiceTable.
Variable parseDate : string -> jsnum.

(** [now] is [now.getTime()]. *)
Definition matchesDatePreset (datePreset : DatePreset) (invoice : Invoice)
    (now : jsnum) : bool :=
  match datePreset with
  | presetAll => true
  | _ =>
      let postingDate := parseDate (postingDate invoice) in
      let diffMs := sub now postingDate in
      let diffDays := div diffMs (ofZ (1000 * 60 * 60 * 24)) in
      match datePreset with
      | preset30 => le diffDays (ofZ 30)
      | preset90 => le diffDays (ofZ 90)
      | _ => le diffDays (ofZ 365)
      end
  end.

Definition filteredInvoices (now : jsnum) (search : string)
    (statusFilter : StatusFilter) (datePreset : DatePreset)
    (invoices : list Invoice) : list Invoice :=
  List.filter (fun inv => matchesDatePreset datePreset inv now)
    (List.filter (fun inv => matchesStatus statusFilter (status inv))
       (List.filter
          (fun inv => includes (toLowerCase search) (toLowerCase (invoiceNumber inv)))
          invoices)).

(** [calculateBillingMetrics(filteredInvoices)]: the basis defaults to
    [inclVat]. *)
Definition tableMetrics (nowIso : string) (now : jsnum) (search : string)
    (statusFilter : StatusFilter) (datePreset : DatePreset)
    (invoices : list Invoice) : BillingMetrics :=
  calculateBillingMetrics nowIso
    (filteredInvoices now search statusFilter datePreset invoices) inclVat.
End InvoiceTable.

(** ** The WL codes of the detail page *)

(** [\d] *)
Definition is_digit (c : ascii) : bool :=
  let n := N_of_ascii c in ((48 <=? n) && (n <=? 57))%N.

(** [\d+] at the start of a string, as far as it goes. *)
Fixpoint takeDigits (s : string) : string :=
  match s with
  | "" => ""
  | String c r => if is_digit c then String c (takeDigits r) else ""
  end.

(** [/wl\s*(\d+)/i] at the start of a string: the group, if it matches.
    White space and digits are disjoint, so the greedy [\s*] has only
    one way to let [\d+] match. *)
Definition matchWlHere (s : string) : option string :=
  match s with
  | String w (String l rest) =>
      if char_ci "w" w && char_ci "l" l then
        match takeDigits (trimStart rest) with
        | "" => None
        | digits => Some digits
        end
      else None
  | _ => None
  end.

(** [reference.match(/wl\s*(\d+)/i)]: the leftmost match. *)
Fixpoint matchWl (s : string) : option string :=
  match matchWlHere s with
  | Some digits => Some digits
  | None =>
      match s with
      | "" => None
      | String _ r => matchWl r
      end
  end.

(** [reference.match(/(\d+)/)]: the leftmost run of digits, or the empty
    string when there is none. *)
Fixpoint firstDigits (s : string) : string :=
  match s with
  | "" => ""
  | String c r => if is_digit c then takeDigits s else firstDigits r
  end.

Definition extractWlCode (reference : option string) : string :=
  match nonEmpty reference with
  | None => ""
  | Some ref =>
      match matchWl ref with
      | Some code => code
      | None => firstDigits ref
      end
  end.

Fixpoint allDigits (s : string) : bool :=
  match s with
  | "" => true
  | String c r => is_digit c && allDigits r
  end.

Fixpoint hasDigit (s : string) : bool :=
  match s with
  | "" => false
  | String c r => is_digit c || hasDigit r
  end.






Definition filteredTenants (customerSearch wlFilter : string)
    (tenants : list InvoiceTenantBreakdown) : list InvoiceTenantBreakdown :=
  let normalizedSearch := toLowerCase (trim customerSearch) in
  List.filter
    (fun tenant =>
       let wlCode := extractWlCode (Some (t_customerReference tenant)) in
       let matchesWl :=
         bool_decide (wlFilter = "all") || bool_decide (wlCode = wlFilter) in
       if bool_decide (normalizedSearch = "") then matchesWl
       else
         let haystack :=
           toLowerCase
             <$> omap nonEmpty
                   [ t_name tenant; Some (t_domain tenant);
                     Some (t_customerName tenant); Some (t_customerReference tenant) ] in
         let matchesSearch :=
           existsb (fun value => includes normalizedSearch value) haystack in
         matchesSearch && matchesWl)
    tenants.


(** A request for examples: PUT of the rate 33.456 with white space
    around the tenant id. *)
Definition examplePut : Method * RequestBody :=
  (PUT, {| body_tenantId := JString " tenant-1 ";
           body_vendorName := JString "Microsoft";
           body_productName := JString "M365";
           body_rate := JNumber (dec 33456 1000) |}).

(** * Theorems *)

(** ** Arithmetic of [jsnum] *)

Lemma add_comm (a b : jsnum) : add a b = add b a.
Proof. destruct a, b; simpl; try reflexivity. f_equal. apply Qcplus_comm. Qed.

Lemma add_assoc (a b c : jsnum) : add (add a b) c = add a (add b c).
Proof.
  destruct a, b, c; simpl; try reflexivity. f_equal.
  symmetry. apply Qcplus_assoc.
Qed.

Lemma add_zero_l (a : jsnum) : add zero a = a.
Proof. destruct a; simpl; [|reflexivity]. f_equal. apply Qcplus_0_l. Qed.

Lemma add_zero_r (a : jsnum) : add a zero = a.
Proof. rewrite add_comm. apply add_zero_l. Qed.

Lemma ofZ_add (x y : Z) : add (ofZ x) (ofZ y) = ofZ (x + y).
Proof.
  unfold ofZ, add. f_equal. apply Qc_is_canon. simpl.
  rewrite !Qred_correct. unfold Qeq. simpl. lia.
Qed.

Lemma ofZ_le (x y : Z) : le (ofZ x) (ofZ y) = bool_decide (x <= y).
Proof.
  unfold le, ofZ. apply bool_decide_ext. unfold Qcle. simpl.
  rewrite !Qred_correct. unfold Qle. simpl. lia.
Qed.


Lemma strict_eq_zero (a : jsnum) : strict_eq a zero = true <-> a = zero.
Proof.
  destruct a as [x|]; simpl.
  - rewrite bool_decide_eq_true. split; [intros ->; reflexivity|].
    intros H. injection H as H. exact H.
  - split; discriminate.
Qed.

(** Sums taken by a conditional accumulation are sums over a filter. *)
Lemma fold_add_filter {A : Type} (p : A -> bool) (f : A -> jsnum)
    (l : list A) (a : jsnum) :
  fold_left (fun acc x => if p x then add acc (f x) else acc) l a
  = fold_left add (map f (List.filter p l)) a.
Proof.
  revert a. induction l as [|x l IH]; intros a; simpl; [reflexivity|].
  rewrite IH. destruct (p x); reflexivity.
Qed.

Lemma fold_add_map {A : Type} (f : A -> jsnum) (l : list A) (a : jsnum) :
  fold_left (fun acc x => add acc (f x)) l a = fold_left add (map f l) a.
Proof.
  revert a. induction l as [|x l IH]; intros a; simpl; [reflexivity|]. apply IH.
Qed.

Lemma fold_add_count {A : Type} (p : A -> bool) (l : list A) (n : nat) :
  fold_left (fun acc x => if p x then add acc (ofZ 1) else acc) l (ofNat n)
  = ofNat (n + length (List.filter p l)).
Proof.
  revert n. induction l as [|x l IH]; intros n; cbn [fold_left List.filter].
  - cbn [length]. f_equal. lia.
  - destruct (p x); cbn [length].
    + replace (add (ofNat n) (ofZ 1)) with (ofNat (S n)).
      * rewrite IH. f_equal. lia.
      * unfold ofNat. rewrite ofZ_add. f_equal. lia.
    + apply IH.
Qed.


Lemma fold_count_filter {A : Type} (p : A -> bool) (l : list A) :
  fold_left (fun acc x => if p x then add acc (ofZ 1) else acc) l zero
  = ofNat (length (List.filter p l)).
Proof. apply (fold_add_count p l 0). Qed.


(** ** Status derivation *)

Example mapStatus_examples :
  mapStatus "2026-02-01" (ofZ 0) "2026-01-15" = Paid /\
  mapStatus "2026-02-01" (ofZ 125) "2026-01-15" = Overdue /\
  mapStatus "2026-02-01" (ofZ 125) "2026-02-01" = Unpaid /\
  mapStatus "2026-02-01" NaN "2026-03-01" = Unpaid.
Proof. vm_compute. auto. Qed.

(** C7.  The derived status is [Paid] exactly when the remaining
    tax-inclusive balance is zero; otherwise it is [Overdue] exactly when
    the due date is strictly below the current date as strings, compared
    character by character, and [Unpaid] in the remaining cases.  The
    invoice-list mapper derives the same status as the detail mapper. *)
Theorem mapStatus_derived (today : string) (inv : ApiInvoice) :
  let remaining := api_remainingAmountIncludingVAT inv in
  let due := api_dueDate inv in
  (mapStatus today remaining due = Paid <-> remaining = zero) /\
  (mapStatus today remaining due = Overdue <->
     remaining <> zero /\ String.compare due today = Lt) /\
  (mapStatus today remaining due = Unpaid <->
     remaining <> zero /\ String.compare due today <> Lt) /\
  status (mapInvoice today inv) = mapStatus today remaining due.
Proof.
  cbv zeta. unfold mapInvoice, mapStatus_list, mapStatus, str_lt, String.ltb.
  cbn [status].
  pose proof (strict_eq_zero (api_remainingAmountIncludingVAT inv)) as Hz.
  destruct (strict_eq (api_remainingAmountIncludingVAT inv) zero) eqn:E.
  - assert (Hr : api_remainingAmountIncludingVAT inv = zero) by (apply Hz; reflexivity).
    clear Hz E. intuition congruence.
  - assert (Hr : api_remainingAmountIncludingVAT inv <> zero).
    { intros H. apply Hz in H. discriminate. }
    clear Hz E.
    destruct (String.compare (api_dueDate inv) today) eqn:C; intuition congruence.
Qed.

(** ** Billing metrics *)

Lemma metrics_fold (mode : BillingAmountMode) (month : string)
    (l : list Invoice) (acc : MetricsAcc) :
  fold_left (metricsStep mode month) l acc =
  {| acc_totalInvoiced :=
       fold_left (fun a inv => add a (invoiceAmount mode inv)) l (acc_totalInvoiced acc);
     acc_balanceDue :=
       fold_left (fun a inv => if isOpen inv then add a (invoiceAmount mode inv) else a)
                 l (acc_balanceDue acc);
     acc_overdueAmount :=
       fold_left (fun a inv => if bool_decide (status inv = Overdue)
                               then add a (invoiceAmount mode inv) else a)
                 l (acc_overdueAmount acc);
     acc_currentMonthVolume :=
       fold_left (fun a inv => if bool_decide (getIsoMonth (postingDate inv) = month)
                               then add a (invoiceAmount mode inv) else a)
                 l (acc_currentMonthVolume acc);
     acc_paidThisMonth :=
       fold_left (fun a inv => if bool_decide (getIsoMonth (postingDate inv) = month)
                                  && bool_decide (status inv = Paid)
                               then add a (invoiceAmount mode inv) else a)
                 l (acc_paidThisMonth acc);
     acc_openInvoiceCount :=
       fold_left (fun a inv => if isOpen inv then add a (ofZ 1) else a) l
                 (acc_openInvoiceCount acc);
     acc_invoiceAmountSum :=
       fold_left (fun a inv => add a (invoiceAmount mode inv)) l (acc_invoiceAmountSum acc);
     acc_invoiceCount :=
       fold_left (fun a inv => if true then add a (ofZ 1) else a) l
                 (acc_invoiceCount acc) |}.
Proof.
  revert acc. induction l as [|inv l IH]; intros acc.
  - destruct acc; reflexivity.
  - cbn [fold_left]. rewrite IH. reflexivity.
Qed.



(** ** Aging buckets *)

Lemma ofZ_sub (x y : Z) : sub (ofZ x) (ofZ y) = ofZ (x - y).
Proof.
  unfold ofZ, sub. f_equal. apply Qc_is_canon. unfold Qcminus, Qcplus, Qcopp.
  cbn [this Q2Qc]. rewrite !Qred_correct. unfold Qeq. simpl. lia.
Qed.

Lemma Q2Qc_pos_neq0 (p : positive) : Q2Qc (inject_Z (Zpos p)) <> 0%Qc.
Proof.
  intros H. apply (f_equal this) in H. unfold Q2Qc in H. cbn [this] in H.
  assert (Hq : (Qred (inject_Z (Zpos p)) == 0)%Q) by (rewrite H; reflexivity).
  rewrite Qred_correct in Hq. unfold Qeq in Hq. cbn in Hq. lia.
Qed.

Lemma Qfloor_div (x : Z) (p : positive) :
  Qfloor (Q2Qc (inject_Z x) / Q2Qc (inject_Z (Zpos p)))%Qc = x / Zpos p.
Proof.
  unfold Qcdiv, Qcmult, Qcinv. cbn [this Q2Qc].
  rewrite !Qred_correct.
  unfold Qinv, inject_Z, Qmult. cbn.
  rewrite Z.mul_1_r. reflexivity.
Qed.

Lemma floor_div_ofZ (x : Z) (p : positive) :
  floor (div (ofZ x) (ofZ (Zpos p))) = ofZ (x / Zpos p).
Proof.
  unfold div, ofZ at 1 2. destruct (decide _) as [E|_].
  - exfalso. exact (Q2Qc_pos_neq0 p E).
  - unfold floor. rewrite Qfloor_div. reflexivity.
Qed.

Lemma diffInDays_finite (parseDate : string -> jsnum) (iso : string) (r d : Z) :
  parseDate iso = ofZ d ->
  diffInDays parseDate (ofZ r) iso = ofZ ((r - d) / 86400000).
Proof.
  intros H. unfold diffInDays. rewrite H, ofZ_sub.
  apply (floor_div_ofZ (r - d) 86400000).
Qed.

Lemma bucketOf_finite (d : Z) :
  (bucketOf (ofZ d) = B0_30 <-> d <= 30) /\
  (bucketOf (ofZ d) = B31_60 <-> 30 < d <= 60) /\
  (bucketOf (ofZ d) = B61_90 <-> 60 < d <= 90) /\
  (bucketOf (ofZ d) = B90plus <-> 90 < d).
Proof.
  unfold bucketOf. rewrite !ofZ_le.
  repeat case_bool_decide; split_and!; split; intros; try discriminate; try lia;
    reflexivity.
Qed.

Lemma aging_fold (parseDate : string -> jsnum) (referenceDate : jsnum)
    (l : list Invoice) (acc : AgingBuckets) :
  fold_left (agingStep parseDate referenceDate) l acc =
  {| b0_30 :=
       fold_left (fun a inv => if inBucket parseDate referenceDate B0_30 inv
                               then add a (toNumber (amountInclVat inv)) else a)
                 l (b0_30 acc);
     b31_60 :=
       fold_left (fun a inv => if inBucket parseDate referenceDate B31_60 inv
                               then add a (toNumber (amountInclVat inv)) else a)
                 l (b31_60 acc);
     b61_90 :=
       fold_left (fun a inv => if inBucket parseDate referenceDate B61_90 inv
                               then add a (toNumber (amountInclVat inv)) else a)
                 l (b61_90 acc);
     b90plus :=
       fold_left (fun a inv => if inBucket parseDate referenceDate B90plus inv
                               then add a (toNumber (amountInclVat inv)) else a)
                 l (b90plus acc) |}.
Proof.
  revert acc. induction l as [|inv l IH]; intros acc.
  - destruct acc; reflexivity.
  - cbn [fold_left]. rewrite IH. unfold agingStep, inBucket, bucketOf.
    destruct (bool_decide (status inv = Paid)); cbn [negb andb].
    + reflexivity.
    + destruct (le _ (ofZ 30)); [reflexivity|].
      destruct (le _ (ofZ 60)); [reflexivity|].
      destruct (le _ (ofZ 90)); reflexivity.
Qed.

Lemma aging_paid_skipped (parseDate : string -> jsnum) (referenceDate : jsnum)
    (l : list Invoice) (acc : AgingBuckets) :
  fold_left (agingStep parseDate referenceDate)
            (List.filter (fun inv => negb (bool_decide (status inv = Paid))) l) acc
  = fold_left (agingStep parseDate referenceDate) l acc.
Proof.
  revert acc. induction l as [|inv l IH]; intros acc; [reflexivity|].
  cbn [List.filter fold_left]. unfold agingStep at 3.
  destruct (bool_decide (status inv = Paid)) eqn:E; cbn [negb].
  - apply IH.
  - cbn [fold_left]. rewrite IH. unfold agingStep at 2. rewrite E. reflexivity.
Qed.

(** C6.  Every invoice that is not Paid adds its tax-inclusive amount to
    exactly one bucket, the one of
    [daysPastDue = floor((referenceDate - dueDate) / 1 day)]:
    at most 30 days (negative ones included) is ["0-30"], at most 60 is
    ["31-60"], at most 90 is ["61-90"], anything else is ["90+"]; Paid
    invoices add to no bucket.  On the fixture of the test the buckets
    are 100, 200, 300 and 400. *)
Theorem calculateAgingBuckets_spec (parseDate : string -> jsnum)
    (invoices : list Invoice) (referenceDate : jsnum) :
  let notPaid inv := negb (bool_decide (status inv = Paid)) in
  let days inv := diffInDays parseDate referenceDate (dueDate inv) in
  let member b inv := notPaid inv && bool_decide (bucketOf (days inv) = b) in
  (forall b : Bucket,
     bucketValue b (calculateAgingBuckets parseDate invoices referenceDate)
     = sum (map (fun inv => toNumber (amountInclVat inv))
                (List.filter (member b) invoices))) /\
  (forall (inv : Invoice) (b : Bucket),
     member b inv = true <-> status inv <> Paid /\ b = bucketOf (days inv)) /\
  calculateAgingBuckets parseDate (List.filter notPaid invoices) referenceDate
    = calculateAgingBuckets parseDate invoices referenceDate /\
  (forall (iso : string) (r d : Z),
     parseDate iso = ofZ d ->
     diffInDays parseDate (ofZ r) iso = ofZ ((r - d) / 86400000)) /\
  (forall d : Z,
     (bucketOf (ofZ d) = B0_30 <-> d <= 30) /\
     (bucketOf (ofZ d) = B31_60 <-> 30 < d <= 60) /\
     (bucketOf (ofZ d) = B61_90 <-> 60 < d <= 90) /\
     (bucketOf (ofZ d) = B90plus <-> 90 < d)) /\
  calculateAgingBuckets agingParse agingFixture (ofZ 1769904000000)
    = {| b0_30 := ofZ 100; b31_60 := ofZ 200; b61_90 := ofZ 300;
         b90plus := ofZ 400 |}.
Proof.
  cbv zeta. split_and!.
  - intros b. unfold calculateAgingBuckets. rewrite aging_fold.
    destruct b; cbn [bucketValue b0_30 b31_60 b61_90 b90plus];
      apply (fold_add_filter (inBucket parseDate referenceDate _)).
  - intros inv b. rewrite andb_true_iff, negb_true_iff, bool_decide_eq_false,
      bool_decide_eq_true. split; intros [H1 H2]; split; congruence.
  - apply aging_paid_skipped.
  - intros iso r d. apply diffInDays_finite.
  - apply bucketOf_finite.
  - vm_compute. reflexivity.
Qed.

(** ** The amount basis of a vendor *)

(** ** Letter case and the product keys *)

Lemma lower_char_idem (c : ascii) : lower_char (lower_char c) = lower_char c.
Proof. destruct c as [[] [] [] [] [] [] [] []]; reflexivity. Qed.

Lemma is_space_lower (c : ascii) : is_space (lower_char c) = is_space c.
Proof. destruct c as [[] [] [] [] [] [] [] []]; reflexivity. Qed.

Lemma char_ci_lower (p c : ascii) : char_ci p (lower_char c) = char_ci p c.
Proof. unfold char_ci. rewrite lower_char_idem. reflexivity. Qed.

Lemma toLowerCase_idem (s : string) : toLowerCase (toLowerCase s) = toLowerCase s.
Proof.
  induction s as [|c s IH]; simpl; [reflexivity|].
  rewrite lower_char_idem, IH. reflexivity.
Qed.

Lemma toLowerCase_app (a b : string) :
  toLowerCase (a +:+ b) = toLowerCase a +:+ toLowerCase b.
Proof.
  induction a as [|c a IH]; [reflexivity|].
  change (String c a +:+ b) with (String c (a +:+ b)).
  cbn [toLowerCase]. rewrite IH. reflexivity.
Qed.

Lemma toLowerCase_length (s : string) :
  String.length (toLowerCase s) = String.length s.
Proof. induction s as [|c s IH]; simpl; [reflexivity|]. rewrite IH. reflexivity. Qed.

Lemma trimStart_lower (s : string) :
  trimStart (toLowerCase s) = toLowerCase (trimStart s).
Proof.
  induction s as [|c s IH]; [reflexivity|].
  cbn [toLowerCase trimStart]. rewrite is_space_lower.
  destruct (is_space c); [exact IH|reflexivity].
Qed.

Lemma trimEnd_lower (s : string) :
  trimEnd (toLowerCase s) = toLowerCase (trimEnd s).
Proof.
  induction s as [|c s IH]; [reflexivity|].
  cbn [toLowerCase trimEnd]. rewrite IH, is_space_lower.
  destruct (trimEnd s) as [|c' s']; cbn [toLowerCase].
  - destruct (is_space c); reflexivity.
  - reflexivity.
Qed.

Lemma trim_lower (s : string) : trim (toLowerCase s) = toLowerCase (trim s).
Proof. unfold trim. rewrite trimEnd_lower, trimStart_lower. reflexivity. Qed.

Lemma squash_go_lower (b : bool) (s : string) :
  squash_go b (toLowerCase s) = toLowerCase (squash_go b s).
Proof.
  revert b. induction s as [|c s IH]; intros b; [reflexivity|].
  cbn [toLowerCase squash_go]. rewrite is_space_lower.
  destruct (is_space c).
  - destruct b; cbn [toLowerCase]; rewrite IH; reflexivity.
  - cbn [toLowerCase]. rewrite IH. reflexivity.
Qed.

Lemma expectCi_lower (p : ascii) (s : string) :
  expectCi p (toLowerCase s) = toLowerCase <$> expectCi p s.
Proof.
  destruct s as [|c r]; [reflexivity|].
  cbn [toLowerCase expectCi]. rewrite char_ci_lower.
  destruct (char_ci p c); reflexivity.
Qed.

Lemma matchNcePrefix_lower (s : string) :
  matchNcePrefix (toLowerCase s) = toLowerCase <$> matchNcePrefix s.
Proof.
  unfold matchNcePrefix. rewrite expectCi_lower.
  destruct (expectCi "(" s) as [r0|]; [|reflexivity].
  cbn [fmap option_fmap option_map mbind option_bind].
  rewrite trimStart_lower, expectCi_lower.
  destruct (expectCi "N" (trimStart r0)) as [r1|]; [|reflexivity].
  cbn [fmap option_fmap option_map mbind option_bind].
  rewrite expectCi_lower.
  destruct (expectCi "C" r1) as [r2|]; [|reflexivity].
  cbn [fmap option_fmap option_map mbind option_bind].
  rewrite expectCi_lower.
  destruct (expectCi "E" r2) as [r3|]; [|reflexivity].
  cbn [fmap option_fmap option_map mbind option_bind].
  rewrite trimStart_lower, expectCi_lower.
  destruct (expectCi ")" (trimStart r3)) as [r4|]; [|reflexivity].
  cbn [fmap option_fmap option_map mbind option_bind].
  rewrite trimStart_lower. reflexivity.
Qed.

Lemma stripNcePrefix_lower (s : string) :
  stripNcePrefix (toLowerCase s) = toLowerCase (stripNcePrefix s).
Proof.
  unfold stripNcePrefix. rewrite matchNcePrefix_lower.
  destruct (matchNcePrefix s); reflexivity.
Qed.

Lemma formatProductLabel_lower (s : string) :
  formatProductLabel (toLowerCase s) = toLowerCase (formatProductLabel s).
Proof.
  unfold formatProductLabel.
  rewrite trim_lower, stripNcePrefix_lower, trim_lower, toLowerCase_length.
  destruct (0 <? _)%nat; reflexivity.
Qed.

Lemma normalizeLabel_lower (s : string) :
  normalizeLabel (toLowerCase s) = normalizeLabel s.
Proof.
  unfold normalizeLabel, squashSpaces.
  rewrite formatProductLabel_lower, squash_go_lower, trim_lower, toLowerCase_idem.
  reflexivity.
Qed.

Lemma normalizeLabel_same_case (a b : string) :
  toLowerCase a = toLowerCase b -> normalizeLabel a = normalizeLabel b.
Proof.
  intros H. rewrite <- (normalizeLabel_lower a), <- (normalizeLabel_lower b), H.
  reflexivity.
Qed.

Lemma makeProductKey_eq (v a b : string) :
  makeProductKey (Some v) (Some a) = makeProductKey (Some v) (Some b)
  <-> toLowerCase a = toLowerCase b.
Proof.
  unfold makeProductKey. cbv [default from_option id].
  rewrite !toLowerCase_app. split.
  - intros H. apply String.app_inj in H. apply String.app_inj in H. exact H.
  - intros ->. reflexivity.
Qed.

Lemma trimStart_idem (s : string) : trimStart (trimStart s) = trimStart s.
Proof.
  induction s as [|c s IH]; [reflexivity|]. cbn [trimStart].
  destruct (is_space c) eqn:E; [exact IH|]. cbn [trimStart]. rewrite E. reflexivity.
Qed.

Lemma trimEnd_idem (s : string) : trimEnd (trimEnd s) = trimEnd s.
Proof.
  induction s as [|c s IH]; [reflexivity|]. cbn [trimEnd].
  destruct (trimEnd s) as [|c' s'] eqn:E.
  - destruct (is_space c) eqn:Ec; [reflexivity|]. cbn [trimEnd]. rewrite Ec. reflexivity.
  - cbn [trimEnd] in *. rewrite IH. reflexivity.
Qed.

Lemma trimEnd_trimStart (s : string) : trimEnd (trimStart s) = trimStart (trimEnd s).
Proof.
  induction s as [|c s IH]; [reflexivity|]. cbn [trimStart trimEnd].
  destruct (is_space c) eqn:Ec.
  - rewrite IH. destruct (trimEnd s) as [|c' s']; [reflexivity|].
    cbn [trimStart]. rewrite Ec. reflexivity.
  - cbn [trimEnd]. destruct (trimEnd s) as [|c' s']; cbn [trimStart]; rewrite Ec;
      reflexivity.
Qed.

Lemma trim_idem (s : string) : trim (trim s) = trim s.
Proof.
  unfold trim. rewrite trimEnd_trimStart, trimEnd_idem, trimStart_idem. reflexivity.
Qed.

Lemma formatProductLabel_trim (s : string) :
  formatProductLabel (trim s) = formatProductLabel s.
Proof. unfold formatProductLabel. rewrite trim_idem. reflexivity. Qed.

Lemma normalizeLabel_trim (s : string) : normalizeLabel (trim s) = normalizeLabel s.
Proof. unfold normalizeLabel. rewrite formatProductLabel_trim. reflexivity. Qed.

Lemma formatProductLabel_trimmed (s : string) :
  trim (formatProductLabel s) = formatProductLabel s.
Proof.
  unfold formatProductLabel. destruct (0 <? _)%nat; apply trim_idem.
Qed.

(** On a display label without runs of white space the grouping key is
    the label in lower case. *)
Lemma normalizeLabel_clean (a : string) :
  formatProductLabel a = a -> squashSpaces a = a -> normalizeLabel a = toLowerCase a.
Proof.
  intros Ha Hs. unfold normalizeLabel. rewrite Ha, Hs.
  rewrite <- Ha at 1. rewrite formatProductLabel_trimmed, Ha. reflexivity.
Qed.

(** The claim C3 as it is written fails: two display labels that differ
    in a run of white space are one product for the aggregation and two
    products for the discount store, in the hook and in the server, so a
    rate stored under one label is not found under the other. *)
Lemma discount_key_counterexample :
  let a := "Product  X" in
  let b := "Product X" in
  formatProductLabel a = a /\ formatProductLabel b = b /\
  normalizeLabel a = normalizeLabel b /\
  makeProductKey (Some "Microsoft") (Some a) <> makeProductKey (Some "Microsoft") (Some b) /\
  serverProductKey "Microsoft" a <> serverProductKey "Microsoft" b /\
  getDiscountRate
    (setDiscountRate (Some "t1") (Some "Microsoft") (Some a) (Some (ofZ 10)) ∅)
    (Some "t1") (Some "Microsoft") (Some b) = None.
Proof. cbv zeta. split_and!; try reflexivity; vm_compute; discriminate. Qed.

(** C3, amended.  For every vendor name and every pair of product labels,
    the discount key identifies the two labels exactly when they agree up
    to letter case; labels with one discount key have one grouping key in
    the aggregation, for the key of the hook and for the key of the
    service alike.  The converse holds for display labels whose white
    space is single blanks, and not in general: the discount key keeps
    the runs of white space and the second NCE marker that the grouping
    key removes. *)
Theorem discount_key_refines_grouping_key (v a b : string) :
  (makeProductKey (Some v) (Some a) = makeProductKey (Some v) (Some b)
   <-> toLowerCase a = toLowerCase b) /\
  (makeProductKey (Some v) (Some a) = makeProductKey (Some v) (Some b)
   -> normalizeLabel a = normalizeLabel b) /\
  (serverProductKey v a = serverProductKey v b
   -> normalizeLabel a = normalizeLabel b) /\
  (formatProductLabel a = a -> squashSpaces a = a ->
   formatProductLabel b = b -> squashSpaces b = b ->
   (makeProductKey (Some v) (Some a) = makeProductKey (Some v) (Some b)
    <-> normalizeLabel a = normalizeLabel b)).
Proof.
  split_and!.
  - apply makeProductKey_eq.
  - intros H. apply normalizeLabel_same_case. apply (makeProductKey_eq v). exact H.
  - unfold serverProductKey. intros H. apply makeProductKey_eq in H.
    rewrite <- (normalizeLabel_trim a), <- (normalizeLabel_trim b).
    apply normalizeLabel_same_case. exact H.
  - intros Ha Hsa Hb Hsb.
    rewrite (normalizeLabel_clean a Ha Hsa), (normalizeLabel_clean b Hb Hsb).
    apply makeProductKey_eq.
Qed.

(** ** The discount store *)

(** A closed equation between values with decidable equality, settled by
    evaluation of the decision. *)
Ltac by_compute :=
  match goal with
  | |- ?P => apply (bool_decide_eq_true_1 P); vm_compute; reflexivity
  end.

(** Case analysis on a decidable proposition, with its [bool_decide]
    rewritten in the goal. *)
Tactic Notation "decide_case" constr(P) "as" ident(H) :=
  destruct (decide P) as [H|H];
  [ rewrite ?(bool_decide_eq_true_2 P H) | rewrite ?(bool_decide_eq_false_2 P H) ].

(** Order goals on [Qc], sent to the rationals. *)
Ltac qc_lra :=
  unfold Qcle, Qclt in *; cbn [this Q2Qc] in *;
  repeat match goal with
         | H : context [Qred _] |- _ => rewrite Qred_correct in H
         end;
  rewrite ?Qred_correct; unfold inject_Z in *; lra.

Lemma clampRate_finite (q : Qc) :
  exists c : Qc,
    clampRate (Num q) = Num c /\ (0 <= c)%Qc /\ (c <= Q2Qc (inject_Z 100))%Qc /\
    ((0 <= q)%Qc -> (q <= Q2Qc (inject_Z 100))%Qc -> c = q) /\
    ((q < 0)%Qc -> c = 0%Qc) /\
    ((Q2Qc (inject_Z 100) < q)%Qc -> c = Q2Qc (inject_Z 100)).
Proof.
  unfold clampRate, Js.max, Js.min, ofZ.
  change (Q2Qc (inject_Z 0)) with 0%Qc.
  destruct (bool_decide (0 <= q)%Qc) eqn:E0.
  - apply bool_decide_eq_true in E0.
    destruct (bool_decide (Q2Qc (inject_Z 100) <= q)%Qc) eqn:E1.
    + apply bool_decide_eq_true in E1. exists (Q2Qc (inject_Z 100)).
      split_and!; try reflexivity; try (intros; apply Qc_is_canon);
        try qc_lra.
    + apply bool_decide_eq_false in E1. exists q.
      split_and!; try reflexivity; try (intros; apply Qc_is_canon);
        try qc_lra.
  - apply bool_decide_eq_false in E0.
    replace (bool_decide (Q2Qc (inject_Z 100) <= 0)%Qc) with false
      by (symmetry; apply bool_decide_eq_false; vm_compute; intros H; apply H; reflexivity).
    exists 0%Qc.
    split_and!; try reflexivity; try (intros; apply Qc_is_canon);
      try qc_lra.
Qed.

Lemma div_ofZ_100 (n : Z) : div (ofZ n) (ofZ 100) = dec n 100.
Proof.
  unfold div, ofZ, dec. destruct (decide _) as [E|_].
  - exfalso. exact (Q2Qc_pos_neq0 100 E).
  - f_equal. apply Qc_is_canon.
    unfold Qcdiv, Qcmult, Qcinv. cbn [this Q2Qc]. rewrite !Qred_correct.
    unfold Qeq, Qmult, Qinv, inject_Z. cbn. lia.
Qed.

(** Rounding to two decimals: the stored value is [n / 100] for the
    integer [n] nearest to a hundred times the clamped rate, a tie going
    up. *)
Lemma normalizeRate_finite (q : Qc) :
  exists (c : Qc) (n : Z),
    clampRate (Num q) = Num c /\
    normalizeRate (Num q) = dec n 100 /\
    0 <= n <= 10000 /\
    (inject_Z n - (1 # 2) <= 100 * c)%Q /\ (100 * c < inject_Z n + (1 # 2))%Q.
Proof.
  destruct (clampRate_finite q) as (c & Hc & H0 & H100 & _).
  exists c, (Qfloor (c * Q2Qc (inject_Z 100) + Q2Qc (1 # 2))%Qc).
  set (x := (c * Q2Qc (inject_Z 100) + Q2Qc (1 # 2))%Qc).
  assert (Hx : (this x == 100 * c + (1 # 2))%Q).
  { unfold x, Qcplus, Qcmult. cbn [this Q2Qc]. rewrite !Qred_correct.
    unfold inject_Z. ring. }
  split_and!.
  - exact Hc.
  - unfold normalizeRate. rewrite Hc. unfold mul, ofZ at 1. unfold round.
    fold x. apply div_ofZ_100.
  - change 0 with (Qfloor (1 # 2)). apply Qfloor_resp_le. rewrite Hx. qc_lra.
  - change 10000 with (Qfloor (20001 # 2)). apply Qfloor_resp_le. rewrite Hx. qc_lra.
  - pose proof (Qfloor_le x) as H. lra.
  - pose proof (Qlt_floor x) as H. rewrite inject_Z_plus in H.
    change (inject_Z 1) with 1%Q in H. lra.
Qed.

Lemma storedRate_update (prev : TenantDiscountState) (t key : string) (x : jsnum)
    (t' key' : string) :
  storedRate (<[t := <[key := x]> (default ∅ (prev !! t))]> prev) t' key'
  = if bool_decide (t' = t /\ key' = key) then Some x else storedRate prev t' key'.
Proof.
  unfold storedRate. destruct (decide (t' = t)) as [->|Ht].
  - rewrite lookup_insert_eq. cbn [mbind option_bind].
    destruct (decide (key' = key)) as [->|Hk].
    + rewrite lookup_insert_eq. rewrite bool_decide_eq_true_2 by auto. reflexivity.
    + rewrite lookup_insert_ne by auto.
      rewrite bool_decide_eq_false_2 by tauto.
      destruct (prev !! t); reflexivity.
  - rewrite lookup_insert_ne by auto.
    rewrite bool_decide_eq_false_2 by tauto. reflexivity.
Qed.

Lemma storedRate_remove (prev : TenantDiscountState) (t key : string)
    (t' key' : string) :
  storedRate (removeRate t key prev) t' key'
  = if bool_decide (t' = t /\ key' = key) then None else storedRate prev t' key'.
Proof.
  unfold removeRate, storedRate.
  assert (Htd : forall k, prev !! t ≫= (fun ps : gmap string jsnum => ps !! k)
                          = default ∅ (prev !! t) !! k).
  { intros k. destruct (prev !! t); [reflexivity|]. symmetry. apply lookup_empty. }
  set (td := default ∅ (prev !! t)) in *.
  destruct (decide (t' = t /\ key' = key)) as [[-> ->]|Hk].
  - rewrite (bool_decide_eq_true_2 (t = t /\ key = key)) by auto.
    destruct (bool_decide (is_Some (td !! key))) eqn:Hp.
    + destruct (bool_decide (delete key td = ∅)) eqn:Hr.
      * rewrite lookup_delete_eq. reflexivity.
      * rewrite lookup_insert_eq. cbn [mbind option_bind]. apply lookup_delete_eq.
    + apply bool_decide_eq_false in Hp. rewrite Htd.
      destruct (td !! key) eqn:E; [|reflexivity]. exfalso. apply Hp. eauto.
  - rewrite (bool_decide_eq_false_2 (t' = t /\ key' = key)) by auto.
    destruct (bool_decide (is_Some (td !! key))) eqn:Hp; [|reflexivity].
    destruct (bool_decide (delete key td = ∅)) eqn:Hr.
    + apply bool_decide_eq_true in Hr. destruct (decide (t' = t)) as [->|Ht].
      * rewrite lookup_delete_eq, Htd. cbn [mbind option_bind].
        assert (Hne : key <> key') by (intros ->; apply Hk; auto).
        rewrite <- (lookup_delete_ne td key key' Hne), Hr. symmetry. apply lookup_empty.
      * rewrite lookup_delete_ne by auto. reflexivity.
    + destruct (decide (t' = t)) as [->|Ht].
      * rewrite lookup_insert_eq, Htd. cbn [mbind option_bind].
        apply lookup_delete_ne. intros ->. apply Hk. auto.
      * rewrite lookup_insert_ne by auto. reflexivity.
Qed.

Lemma setDiscountRate_query_eq (tenantId vendorName productName : option string)
    (rate : option jsnum) (prev : TenantDiscountState) :
  setDiscountRate_query tenantId vendorName productName rate prev
  = setDiscountRate tenantId vendorName productName rate prev.
Proof.
  unfold setDiscountRate_query, setDiscountRate.
  destruct (nonEmpty tenantId); [|reflexivity].
  destruct rate as [r|]; [|reflexivity].
  destruct (isNaN r); reflexivity.
Qed.




(** ** The fallback chain of the response mapper *)

Lemma elem_of_imap_inv {A B : Type} (f : nat -> A -> B) (l : list A) (y : B) :
  y ∈ imap f l -> exists i x, y = f i x.
Proof.
  revert f. induction l as [|x l IH]; intros f H; cbn [imap] in H.
  - apply elem_of_nil in H. contradiction.
  - apply elem_of_cons in H as [->|H]; [eauto|].
    apply IH in H as (i & x' & ->). eauto.
Qed.


(** ** Sums *)

Lemma fold_add_acc (l : list jsnum) (a : jsnum) : fold_left add l a = add a (sum l).
Proof.
  unfold sum. revert a. induction l as [|x l IH]; intros a; cbn [fold_left].
  - symmetry. apply add_zero_r.
  - rewrite IH, (IH (add zero x)), add_zero_l, add_assoc. reflexivity.
Qed.

Lemma sum_nil : sum [] = zero.
Proof. reflexivity. Qed.

Lemma sum_cons (x : jsnum) (l : list jsnum) : sum (x :: l) = add x (sum l).
Proof. unfold sum at 1. cbn [fold_left]. rewrite fold_add_acc, add_zero_l. reflexivity. Qed.

Lemma sum_app (l1 l2 : list jsnum) : sum (l1 ++ l2) = add (sum l1) (sum l2).
Proof.
  induction l1 as [|x l1 IH]; cbn [app].
  - rewrite sum_nil, add_zero_l. reflexivity.
  - rewrite !sum_cons, IH, add_assoc. reflexivity.
Qed.

Lemma sum_snoc (l : list jsnum) (x : jsnum) : sum (l ++ [x]) = add (sum l) x.
Proof. rewrite sum_app, sum_cons, sum_nil, add_zero_r. reflexivity. Qed.

Lemma sum_perm (l l' : list jsnum) : Permutation l l' -> sum l = sum l'.
Proof.
  induction 1 as [|x l l' _ IH|x y l|l l' l'' _ IH1 _ IH2].
  - reflexivity.
  - rewrite !sum_cons, IH. reflexivity.
  - rewrite !sum_cons, <- !add_assoc, (add_comm y x). reflexivity.
  - congruence.
Qed.

(** ** Association lists as maps *)

Section JsMapFacts.
Context {V : Type}.
Implicit Types (m : list (string * V)) (k : string) (v : V).

Lemma map_get_set k v m j :
  map_get j (map_set k v m) = if bool_decide (j = k) then Some v else map_get j m.
Proof.
  induction m as [|[k' v'] m IH]; cbn [map_set map_get].
  - destruct (decide (j = k)) as [->|Hne].
    + rewrite !bool_decide_eq_true_2 by reflexivity. reflexivity.
    + rewrite bool_decide_eq_false_2 by congruence.
      rewrite bool_decide_eq_false_2 by exact Hne. reflexivity.
  - destruct (decide (k' = k)) as [->|Hk].
    + rewrite bool_decide_eq_true_2 by reflexivity. cbn [map_get].
      destruct (decide (j = k)) as [->|Hne].
      * rewrite !bool_decide_eq_true_2 by reflexivity. reflexivity.
      * rewrite !(bool_decide_eq_false_2 (k = j)) by congruence.
        rewrite bool_decide_eq_false_2 by exact Hne. reflexivity.
    + rewrite bool_decide_eq_false_2 by exact Hk. cbn [map_get]. rewrite IH.
      destruct (decide (k' = j)) as [->|Hj].
      * rewrite bool_decide_eq_true_2 by reflexivity.
        rewrite bool_decide_eq_false_2 by exact Hk. reflexivity.
      * rewrite bool_decide_eq_false_2 by exact Hj. reflexivity.
Qed.

Lemma map_get_Some_elem k v m : map_get k m = Some v -> (k, v) ∈ m.
Proof.
  induction m as [|[k' v'] m IH]; cbn [map_get]; [discriminate|].
  case_bool_decide as Hk.
  - intros [= ->]. subst. apply list_elem_of_here.
  - intros H. apply list_elem_of_further. auto.
Qed.

Lemma map_get_None_keys k m : map_get k m = None <-> k ∉ m.*1.
Proof.
  induction m as [|[k' v'] m IH]; cbn [map_get fmap list_fmap fst].
  - split; [intros _; apply not_elem_of_nil|reflexivity].
  - rewrite not_elem_of_cons. case_bool_decide as Hk.
    + split; [discriminate|]. intros [H _]. congruence.
    + rewrite IH. split; [intros H; split; [congruence|exact H]|intros [_ H]; exact H].
Qed.

Lemma map_get_elem_NoDup k v m : NoDup m.*1 -> (k, v) ∈ m -> map_get k m = Some v.
Proof.
  induction m as [|[k' v'] m IH]; cbn [map_get fmap list_fmap fst].
  - intros _ H. apply elem_of_nil in H. contradiction.
  - intros Hnd H. apply NoDup_cons in Hnd as [Hk Hnd].
    apply elem_of_cons in H as [[= -> ->]|H].
    + rewrite bool_decide_eq_true_2 by reflexivity. reflexivity.
    + case_bool_decide as E.
      * subst. exfalso. apply Hk. apply (list_elem_of_fmap_2 fst _ (k, v)). exact H.
      * auto.
Qed.

Lemma map_set_keys k v m :
  (map_set k v m).*1 = if bool_decide (k ∈ m.*1) then m.*1 else m.*1 ++ [k].
Proof.
  induction m as [|[k' v'] m IH]; cbn [map_set fmap list_fmap fst].
  - rewrite bool_decide_eq_false_2 by apply not_elem_of_nil. reflexivity.
  - decide_case (k' = k) as Hk.
    + subst. rewrite bool_decide_eq_true_2 by apply list_elem_of_here. reflexivity.
    + cbn [fmap list_fmap fst]. fold (m.*1). fold ((map_set k v m).*1). rewrite IH.
      decide_case (k ∈ m.*1) as Hin.
      * rewrite bool_decide_eq_true_2 by (apply list_elem_of_further; exact Hin).
        reflexivity.
      * rewrite bool_decide_eq_false_2; [reflexivity|].
        rewrite not_elem_of_cons. split; [congruence|exact Hin].
Qed.

Lemma map_set_NoDup k v m : NoDup m.*1 -> NoDup (map_set k v m).*1.
Proof.
  intros H. rewrite map_set_keys. case_bool_decide as Hk; [exact H|].
  apply NoDup_app. split_and!; [exact H| |apply NoDup_singleton].
  intros x Hx Hx'. apply list_elem_of_singleton in Hx'. subst. contradiction.
Qed.

Lemma map_set_Forall (P : string * V -> Prop) k v m :
  Forall P m -> P (k, v) -> Forall P (map_set k v m).
Proof.
  intros Hm Hv. induction Hm as [|[k' v'] m Hx Hm IH]; cbn [map_set].
  - apply Forall_cons. split; [exact Hv|apply Forall_nil_2].
  - case_bool_decide; apply Forall_cons; auto.
Qed.

(** A value summed over the map after an update: an updated entry
    brings its increment, a new entry its whole value. *)
Lemma map_set_sum (f : V -> jsnum) k v m (a : jsnum) :
  f v = add (from_option f zero (map_get k m)) a ->
  sum (f <$> map_values (map_set k v m)) = add (sum (f <$> map_values m)) a.
Proof.
  unfold map_values. induction m as [|[k' v'] m IH]; cbn [map_set map_get]; intros Hv.
  - cbn [fmap list_fmap snd from_option] in *.
    rewrite sum_cons, !sum_nil, Hv, add_zero_r. reflexivity.
  - case_bool_decide as Hk; cbn [fmap list_fmap snd from_option] in *.
    + rewrite !sum_cons, Hv, add_assoc, (add_comm a), <- add_assoc. reflexivity.
    + rewrite !sum_cons. fold (snd <$> map_set k v m). fold (snd <$> m).
      fold (f <$> (snd <$> map_set k v m)). fold (f <$> (snd <$> m)).
      rewrite (IH Hv), add_assoc. reflexivity.
Qed.
End JsMapFacts.

(** ** The aggregation step *)

Lemma entryStep_fold (lbl : string) (es : list InvoiceTenantEntry)
    (pe : ProductEntry) (a : jsnum) :
  let r := fold_left (entryStep lbl) es (pe, a) in
  pe_displayName r.1 = pe_displayName pe /\
  pe_licenses r.1 = pe_licenses pe /\
  pe_amount r.1 = pe_amount pe /\
  pe_costAmount r.1 = pe_costAmount pe /\
  r.2 = add a (sum (entryAmount <$> es)).
Proof.
  cbv zeta. revert pe a. induction es as [|e es IH]; intros pe a.
  - cbn [fold_left fst snd fmap list_fmap]. rewrite sum_nil, add_zero_r. auto.
  - cbn [fold_left]. unfold entryStep at 2 4 6 8 10. cbn [fst snd].
    match goal with
    | |- context [fold_left _ es (?p, ?b)] => destruct (IH p b) as (H1 & H2 & H3 & H4 & H5)
    end.
    rewrite H1, H2, H3, H4, H5. cbn [pe_displayName pe_licenses pe_amount pe_costAmount].
    split_and!; try reflexivity.
    cbn [fmap list_fmap]. rewrite sum_cons, add_assoc. reflexivity.
Qed.

Lemma subscriptionStep_shape (m : list (string * VendorEntry))
    (sub : InvoiceSubscriptionBreakdown) :
  exists pe : ProductEntry,
    subscriptionStep m sub =
      map_set (resolveVendorName sub)
        {| ve_vendorName := ve_vendorName (vendorBefore m sub);
           ve_totalLicenses := add (ve_totalLicenses (vendorBefore m sub)) (subLicenses sub);
           ve_totalAmount := add (ve_totalAmount (vendorBefore m sub)) (subAmount sub);
           ve_productsMap :=
             map_set (productKeyOf sub) pe (ve_productsMap (vendorBefore m sub)) |}
        m /\
    pe_displayName pe = pe_displayName (productBefore m sub) /\
    pe_licenses pe = add (pe_licenses (productBefore m sub)) (subLicenses sub) /\
    pe_amount pe = add (pe_amount (productBefore m sub)) (subAmount sub) /\
    pe_costAmount pe = add (pe_costAmount (productBefore m sub)) (subCost sub).
Proof.
  unfold subscriptionStep. fold (vendorBefore m sub).
  fold (productKeyOf sub). fold (productBefore m sub). fold (subAmount sub).
  match goal with
  | |- context [fold_left (entryStep ?lbl) ?es (?p, ?a)] =>
      destruct (entryStep_fold lbl es p a) as (H1 & H2 & H3 & H4 & H5);
      set (r := fold_left (entryStep lbl) es (p, a)) in *
  end.
  eexists. split; [reflexivity|].
  cbn [pe_displayName pe_licenses pe_amount pe_costAmount] in *.
  rewrite H1, H2, H3, H4, H5, add_zero_l. unfold subCost. auto.
Qed.

Lemma fold_left_invariant {A B : Type} (P : A -> Prop) (f : A -> B -> A)
    (l : list B) (a : A) :
  P a -> (forall a x, P a -> P (f a x)) -> P (fold_left f l a).
Proof.
  intros Ha Hf. revert a Ha. induction l as [|x l IH]; intros a Ha; cbn [fold_left]; auto.
Qed.

Lemma vendorBefore_keyed (m : list (string * VendorEntry))
    (sub : InvoiceSubscriptionBreakdown) :
  stateKeyed m -> vendorKeyed (resolveVendorName sub, vendorBefore m sub).
Proof.
  intros [_ Hm]. unfold vendorBefore.
  destruct (map_get (resolveVendorName sub) m) as [ve|] eqn:E; cbn [default from_option id].
  - apply map_get_Some_elem in E. rewrite Forall_forall in Hm. apply (Hm _ E).
  - split_and!; cbn; [reflexivity|apply NoDup_nil_2|apply Forall_nil_2].
Qed.

Lemma productBefore_key (m : list (string * VendorEntry))
    (sub : InvoiceSubscriptionBreakdown) :
  stateKeyed m ->
  normalizeLabel (pe_displayName (productBefore m sub)) = productKeyOf sub.
Proof.
  intros Hm. destruct (vendorBefore_keyed m sub Hm) as (_ & _ & Hp).
  unfold productBefore. cbn [snd] in Hp.
  destruct (map_get (productKeyOf sub) _) as [pe|] eqn:E; cbn [default from_option id].
  - apply map_get_Some_elem in E. rewrite Forall_forall in Hp. apply (Hp _ E).
  - reflexivity.
Qed.



Lemma subscriptionStep_keyed (m : list (string * VendorEntry))
    (sub : InvoiceSubscriptionBreakdown) :
  stateKeyed m -> stateKeyed (subscriptionStep m sub).
Proof.
  intros Hm. pose proof (vendorBefore_keyed m sub Hm) as (Hn & Hnd & Hp).
  pose proof (productBefore_key m sub Hm) as Hk.
  destruct (subscriptionStep_shape m sub) as (pe & -> & Hd & _).
  destruct Hm as [Hkeys Hm]. split.
  - apply map_set_NoDup. exact Hkeys.
  - apply map_set_Forall; [exact Hm|].
    split_and!; cbn [fst snd ve_vendorName ve_productsMap] in *.
    + exact Hn.
    + apply map_set_NoDup. exact Hnd.
    + apply map_set_Forall; [exact Hp|]. cbn [fst snd]. rewrite Hd. exact Hk.
Qed.


Lemma aggState_keyed (l : list InvoiceSubscriptionBreakdown) : stateKeyed (aggState l).
Proof.
  unfold aggState. apply (fold_left_invariant stateKeyed).
  - split; [apply NoDup_nil_2|apply Forall_nil_2].
  - intros m sub. apply subscriptionStep_keyed.
Qed.



(** ** Sorting *)

Lemma sort_insert_perm {A : Type} (cmp : A -> A -> Z) (x : A) (l : list A) :
  Permutation (sort_insert cmp x l) (x :: l).
Proof.
  induction l as [|y l IH]; cbn [sort_insert]; [reflexivity|].
  destruct (cmp x y <=? 0); [reflexivity|].
  rewrite IH. apply perm_swap.
Qed.

Lemma js_sort_perm {A : Type} (cmp : A -> A -> Z) (l : list A) :
  Permutation (js_sort cmp l) l.
Proof.
  induction l as [|x l IH]; cbn [js_sort fold_right]; [reflexivity|].
  rewrite sort_insert_perm. apply perm_skip. exact IH.
Qed.

(** ** Vendor totals and product sums *)



(** ** What the state holds for a vendor and for a product *)

Lemma aggState_snoc (l : list InvoiceSubscriptionBreakdown)
    (x : InvoiceSubscriptionBreakdown) :
  aggState (l ++ [x]) = subscriptionStep (aggState l) x.
Proof. unfold aggState. rewrite fold_left_app. reflexivity. Qed.

Lemma filter_snoc {A : Type} (p : A -> bool) (l : list A) (x : A) :
  List.filter p (l ++ [x]) = List.filter p l ++ (if p x then [x] else []).
Proof. rewrite List.filter_app. reflexivity. Qed.

Lemma vendorBucket_snoc (b : list InvoiceSubscriptionBreakdown)
    (x : InvoiceSubscriptionBreakdown) :
  vendorBucket (b ++ [x])
  = Some (add (from_option fst zero (vendorBucket b)) (subLicenses x),
          add (from_option snd zero (vendorBucket b)) (subAmount x)).
Proof.
  destruct b as [|s0 b].
  - cbn [app vendorBucket fmap list_fmap from_option].
    rewrite !sum_cons, !sum_nil, !add_zero_l, !add_zero_r. reflexivity.
  - change ((s0 :: b) ++ [x]) with (s0 :: (b ++ [x])).
    cbn [vendorBucket from_option fst snd].
    change (s0 :: (b ++ [x])) with ((s0 :: b) ++ [x]).
    rewrite !fmap_app. cbn [fmap list_fmap]. rewrite !sum_snoc. reflexivity.
Qed.

Lemma productBucket_snoc (b : list InvoiceSubscriptionBreakdown)
    (x : InvoiceSubscriptionBreakdown) :
  productBucket (b ++ [x])
  = Some (from_option (fun i => i.1.1.1) (productLabelOf x) (productBucket b),
          add (from_option (fun i => i.1.1.2) zero (productBucket b)) (subLicenses x),
          add (from_option (fun i => i.1.2) zero (productBucket b)) (subAmount x),
          add (from_option (fun i => i.2) zero (productBucket b)) (subCost x)).
Proof.
  destruct b as [|s0 b].
  - cbn [app productBucket fmap list_fmap from_option].
    rewrite !sum_cons, !sum_nil, !add_zero_l, !add_zero_r. reflexivity.
  - change ((s0 :: b) ++ [x]) with (s0 :: (b ++ [x])).
    cbn [productBucket from_option fst snd].
    change (s0 :: (b ++ [x])) with ((s0 :: b) ++ [x]).
    rewrite !fmap_app. cbn [fmap list_fmap]. rewrite !sum_snoc. reflexivity.
Qed.

Lemma vendor_lookup (l : list InvoiceSubscriptionBreakdown) (v : string) :
  vendorInfo <$> map_get v (aggState l) = vendorBucket (List.filter (ofVendor v) l).
Proof.
  induction l as [|x l IH] using rev_ind; [reflexivity|].
  rewrite aggState_snoc, filter_snoc.
  destruct (subscriptionStep_shape (aggState l) x) as (pe & -> & _).
  rewrite map_get_set. unfold ofVendor at 2.
  decide_case (v = resolveVendorName x) as Hv.
  - subst v. rewrite bool_decide_eq_true_2 by reflexivity.
    rewrite vendorBucket_snoc, <- IH.
    cbn [fmap option_fmap option_map vendorInfo ve_totalLicenses ve_totalAmount].
    unfold vendorBefore.
    destruct (map_get (resolveVendorName x) (aggState l)); reflexivity.
  - rewrite bool_decide_eq_false_2 by congruence. rewrite app_nil_r. exact IH.
Qed.

Lemma products_before (m : list (string * VendorEntry))
    (x : InvoiceSubscriptionBreakdown) (k : string) :
  map_get k (ve_productsMap (vendorBefore m x))
  = map_get (resolveVendorName x) m ≫= fun ve => map_get k (ve_productsMap ve).
Proof.
  unfold vendorBefore. destruct (map_get (resolveVendorName x) m); reflexivity.
Qed.

Lemma product_lookup (l : list InvoiceSubscriptionBreakdown) (v k : string) :
  productInfo <$> (map_get v (aggState l) ≫= fun ve => map_get k (ve_productsMap ve))
  = productBucket (List.filter (ofProduct v k) l).
Proof.
  induction l as [|x l IH] using rev_ind; [reflexivity|].
  rewrite aggState_snoc, filter_snoc.
  destruct (subscriptionStep_shape (aggState l) x) as (pe & -> & Hd & Hl & Ha & Hc).
  rewrite map_get_set. unfold ofProduct at 2.
  decide_case (v = resolveVendorName x) as Hv.
  - subst v. rewrite (bool_decide_eq_true_2 (resolveVendorName x = resolveVendorName x))
      by reflexivity.
    cbn [mbind option_bind ve_productsMap andb]. rewrite map_get_set.
    decide_case (k = productKeyOf x) as Hk.
    + subst k. rewrite bool_decide_eq_true_2 by reflexivity.
      rewrite productBucket_snoc, <- IH.
      cbn [fmap option_fmap option_map]. unfold productInfo at 1.
      rewrite Hd, Hl, Ha, Hc. unfold productBefore. rewrite products_before.
      destruct (map_get (resolveVendorName x) (aggState l) ≫= _); reflexivity.
    + rewrite bool_decide_eq_false_2 by congruence. rewrite app_nil_r, <- IH.
      rewrite products_before. reflexivity.
  - rewrite (bool_decide_eq_false_2 (resolveVendorName x = v)) by congruence.
    cbn [andb]. rewrite app_nil_r. exact IH.
Qed.

(** ** Reading the result by key *)

Section FindByKey.
Context {B : Type}.
Variable key : B -> string.

Lemma find_key_unique (l : list B) (b : B) :
  NoDup (key <$> l) -> b ∈ l ->
  List.find (fun x => bool_decide (key x = key b)) l = Some b.
Proof.
  induction l as [|y l IH]; cbn [fmap list_fmap List.find]; intros Hnd Hb.
  - apply elem_of_nil in Hb. contradiction.
  - apply NoDup_cons in Hnd as [Hy Hnd].
    apply elem_of_cons in Hb as [->|Hb].
    + rewrite bool_decide_eq_true_2 by reflexivity. reflexivity.
    + decide_case (key y = key b) as E.
      * exfalso. apply Hy. rewrite E. apply list_elem_of_fmap_2. exact Hb.
      * auto.
Qed.

Lemma find_key_none (l : list B) (j : string) :
  j ∉ key <$> l -> List.find (fun x => bool_decide (key x = j)) l = None.
Proof.
  induction l as [|y l IH]; cbn [fmap list_fmap List.find]; intros Hj; [reflexivity|].
  apply not_elem_of_cons in Hj as [Hy Hj].
  rewrite bool_decide_eq_false_2 by congruence. auto.
Qed.

(** A list that holds, in some order, the finished values of a map,
    each under its key, is read like the map. *)
Lemma find_by_key {V : Type} (f : V -> B) (m : list (string * V))
    (l : list B) (j : string) :
  NoDup m.*1 -> Forall (fun kv => key (f kv.2) = kv.1) m ->
  Permutation l (f <$> map_values m) ->
  List.find (fun x => bool_decide (key x = j)) l = f <$> map_get j m.
Proof.
  intros Hnd Hkey Hperm.
  assert (Hkeys : key <$> (f <$> map_values m) = m.*1).
  { unfold map_values. clear Hnd Hperm.
    induction Hkey as [|[k v] m Hk _ IH]; cbn [fmap list_fmap fst snd] in *;
      [reflexivity|]. f_equal; [exact Hk|exact IH]. }
  assert (Hl : Permutation (key <$> l) m.*1).
  { rewrite <- Hkeys. apply fmap_Permutation. exact Hperm. }
  destruct (map_get j m) as [v|] eqn:E; cbn [fmap option_fmap option_map].
  - apply map_get_Some_elem in E as Hin.
    assert (Hj : key (f v) = j).
    { rewrite Forall_forall in Hkey. apply (Hkey _ Hin). }
    rewrite <- Hj. apply find_key_unique.
    + rewrite Hl. exact Hnd.
    + rewrite Hperm. unfold map_values. apply list_elem_of_fmap_2.
      apply (list_elem_of_fmap_2 snd _ (j, v)). exact Hin.
  - apply find_key_none. rewrite Hl. apply map_get_None_keys. exact E.
Qed.
End FindByKey.

Lemma findVendor_aggregate (localeCompare : string -> string -> Z)
    (l : list InvoiceSubscriptionBreakdown) (v : string) :
  findVendor v (aggregateVendorsFromSubscriptions localeCompare l)
  = finishVendor localeCompare <$> map_get v (aggState l).
Proof.
  unfold findVendor, aggregateVendorsFromSubscriptions. fold (aggState l).
  destruct (aggState_keyed l) as [Hnd Hk].
  apply (find_by_key vendorName (finishVendor localeCompare)).
  - exact Hnd.
  - eapply Forall_impl; [exact Hk|]. intros [k ve] (Hn & _). exact Hn.
  - apply js_sort_perm.
Qed.

Lemma findProduct_finish (localeCompare : string -> string -> Z)
    (kv : string * VendorEntry) (k : string) :
  vendorKeyed kv ->
  findProduct k (finishVendor localeCompare kv.2)
  = finishProduct localeCompare <$> map_get k (ve_productsMap kv.2).
Proof.
  intros (_ & Hnd & Hk). unfold findProduct. cbn [finishVendor products].
  apply (find_by_key (fun p => normalizeLabel (displayName p))
                     (finishProduct localeCompare)).
  - exact Hnd.
  - exact Hk.
  - apply js_sort_perm.
Qed.

Lemma findProduct_aggregate (localeCompare : string -> string -> Z)
    (l : list InvoiceSubscriptionBreakdown) (v k : string) :
  findVendor v (aggregateVendorsFromSubscriptions localeCompare l) ≫= findProduct k
  = finishProduct localeCompare
      <$> (map_get v (aggState l) ≫= fun ve => map_get k (ve_productsMap ve)).
Proof.
  rewrite findVendor_aggregate.
  destruct (map_get v (aggState l)) as [ve|] eqn:E; [|reflexivity].
  cbn [fmap option_fmap option_map mbind option_bind].
  destruct (aggState_keyed l) as [_ Hk]. rewrite Forall_forall in Hk.
  apply (findProduct_finish localeCompare (v, ve)).
  apply Hk. apply map_get_Some_elem. exact E.
Qed.

(** The totals of a vendor of the result, and the values of one of its
    products, as sums over the subscriptions of the bucket. *)
Lemma aggregate_vendor_totals (localeCompare : string -> string -> Z)
    (l : list InvoiceSubscriptionBreakdown) (v : string) :
  (fun av => (totalLicenses av, totalAmount av))
    <$> findVendor v (aggregateVendorsFromSubscriptions localeCompare l)
  = vendorBucket (List.filter (ofVendor v) l).
Proof.
  rewrite findVendor_aggregate, <- vendor_lookup.
  destruct (map_get v (aggState l)); reflexivity.
Qed.

Lemma aggregate_product_values (localeCompare : string -> string -> Z)
    (l : list InvoiceSubscriptionBreakdown) (v k : string) :
  (fun p => (displayName p, licenses p, amount p, costAmount p))
    <$> (findVendor v (aggregateVendorsFromSubscriptions localeCompare l)
           ≫= findProduct k)
  = productBucket (List.filter (ofProduct v k) l).
Proof.
  rewrite findProduct_aggregate, <- product_lookup.
  destruct (map_get v (aggState l) ≫= _); reflexivity.
Qed.

Lemma getAmountForVendor_basis (sub : InvoiceSubscriptionBreakdown) (vendor : string) :
  getAmountForVendor sub vendor = amountBasis vendor (s_amount sub) (s_retailAmount sub).
Proof.
  unfold getAmountForVendor, amountBasis.
  change (shouldUseRetailAmount vendor) with (namesRetailVendor vendor).
  destruct (namesRetailVendor vendor), (s_amount sub), (s_retailAmount sub); reflexivity.
Qed.

Lemma ofProduct_vendor (v k : string) (l : list InvoiceSubscriptionBreakdown) :
  Forall (fun s => resolveVendorName s = v /\ productKeyOf s = k)
         (List.filter (ofProduct v k) l).
Proof.
  rewrite Forall_forall. intros s Hs. apply list_elem_of_In in Hs.
  apply List.filter_In in Hs as [_ Hs]. unfold ofProduct in Hs.
  apply andb_true_iff in Hs as [H1 H2].
  apply bool_decide_eq_true in H1. apply bool_decide_eq_true in H2. auto.
Qed.

Lemma productBucket_amount (b : list InvoiceSubscriptionBreakdown) :
  (fun i => i.1.2) <$> productBucket b = bucketSum subAmount b.
Proof. destruct b; reflexivity. Qed.

Lemma bucketSum_ext (f g : InvoiceSubscriptionBreakdown -> jsnum)
    (b : list InvoiceSubscriptionBreakdown) :
  Forall (fun s => f s = g s) b -> bucketSum f b = bucketSum g b.
Proof.
  intros H. apply Forall_fmap_ext in H. destruct b; [reflexivity|].
  unfold bucketSum. rewrite H. reflexivity.
Qed.

(** C1.  The amount that a subscription brings to its product is chosen
    by the vendor: the retail amount, else the cost amount, when the
    vendor name contains "keepit", "adobe" or "microsoft" in any letter
    case; the cost amount, else the retail amount, for every other
    vendor; [0] when neither is a number.  The amount of every product
    of the result is the sum of these over the subscriptions of its
    bucket.  A Keepit subscription with cost 50 and retail 120 gives 120,
    one of an unknown vendor with cost 10 and retail 25 gives 10. *)
Theorem product_amount_on_vendor_basis (localeCompare : string -> string -> Z)
    (subscriptions : list InvoiceSubscriptionBreakdown) (v k : string) :
  let vendors := aggregateVendorsFromSubscriptions localeCompare subscriptions in
  let basis sub := amountBasis v (s_amount sub) (s_retailAmount sub) in
  let keepit := mkSub "keepit-1" "Keepit Backup" "Keepit Backup" 2 50 120 (Some "Keepit") in
  let other := mkSub "other" "Other Product" "Other Product" 1 10 25 (Some "Contoso") in
  let fixture := aggregateVendorsFromSubscriptions codeUnitCompare [keepit; other] in
  (forall sub vendor,
     getAmountForVendor sub vendor
     = amountBasis vendor (s_amount sub) (s_retailAmount sub)) /\
  amount <$> (findVendor v vendors ≫= findProduct k)
    = bucketSum basis (List.filter (ofProduct v k) subscriptions) /\
  amount <$> (findVendor "Keepit" fixture ≫= findProduct "keepit backup")
    = Some (ofZ 120) /\
  amount <$> (findVendor "Contoso" fixture ≫= findProduct "other product")
    = Some (ofZ 10).
Proof.
  cbv zeta. split_and!.
  - apply getAmountForVendor_basis.
  - rewrite <- (bucketSum_ext subAmount).
    + rewrite <- productBucket_amount, <- (aggregate_product_values localeCompare).
      destruct (findVendor v _ ≫= findProduct k); reflexivity.
    + eapply Forall_impl; [apply ofProduct_vendor|].
      intros s [Hs _]. unfold subAmount. rewrite Hs.
      apply getAmountForVendor_basis.
  - by_compute.
  - by_compute.
Qed.

(** ** Independence of the input order *)





Lemma result_vendor_names (localeCompare : string -> string -> Z)
    (l : list InvoiceSubscriptionBreakdown) :
  Permutation (vendorName <$> aggregateVendorsFromSubscriptions localeCompare l)
              (aggState l).*1.
Proof.
  unfold aggregateVendorsFromSubscriptions. fold (aggState l).
  rewrite js_sort_perm. destruct (aggState_keyed l) as [_ Hk].
  unfold map_values. rewrite <- !list_fmap_compose.
  induction Hk as [|[k ve] m (Hn & _) _ IH]; cbn [fmap list_fmap]; [reflexivity|].
  cbn in Hn. cbn [compose finishVendor vendorName fst snd]. rewrite Hn.
  apply perm_skip. exact IH.
Qed.






(** ** White space and the grouping key *)






















(** ** Merging of label variants *)



(** * Further properties of the code *)

(** ** Metrics: the month figures and the split by status *)

Lemma metrics_fields (nowIso : string) (invoices : list Invoice)
    (mode : BillingAmountMode) :
  let m := calculateBillingMetrics nowIso invoices mode in
  let amt := invoiceAmount mode in
  totalInvoiced m = sum (map amt invoices) /\
  balanceDue m = sum (map amt (List.filter isOpen invoices)) /\
  overdueAmount m = sum (map amt (List.filter (hasStatus Overdue) invoices)) /\
  currentMonthVolume m = sum (map amt (List.filter (inCurrentMonth nowIso) invoices)) /\
  paidThisMonth m
    = sum (map amt (List.filter
                      (fun inv => inCurrentMonth nowIso inv && hasStatus Paid inv)
                      invoices)) /\
  openInvoiceCount m = ofNat (length (List.filter isOpen invoices)).
Proof.
  cbv zeta. unfold calculateBillingMetrics. rewrite metrics_fold.
  cbn [totalInvoiced balanceDue overdueAmount openInvoiceCount currentMonthVolume
       paidThisMonth acc_totalInvoiced acc_balanceDue acc_overdueAmount
       acc_openInvoiceCount acc_currentMonthVolume acc_paidThisMonth metricsInit].
  rewrite (fold_add_filter isOpen (invoiceAmount mode)).
  rewrite (fold_add_filter (fun inv => bool_decide (status inv = Overdue))
                           (invoiceAmount mode)).
  rewrite (fold_add_filter
             (fun inv => bool_decide (getIsoMonth (postingDate inv) = getIsoMonth nowIso))
             (invoiceAmount mode)).
  rewrite (fold_add_filter
             (fun inv => bool_decide (getIsoMonth (postingDate inv) = getIsoMonth nowIso)
                         && bool_decide (status inv = Paid))
             (invoiceAmount mode)).
  rewrite (fold_add_map (invoiceAmount mode)), (fold_count_filter isOpen).
  split_and!; reflexivity.
Qed.


Lemma filter_ext_in {A : Type} (p q : A -> bool) (l : list A) :
  (forall x, p x = q x) -> List.filter p l = List.filter q l.
Proof.
  intros H. induction l as [|x l IH]; cbn [List.filter]; [reflexivity|].
  rewrite H, IH. reflexivity.
Qed.




(** ** Aging buckets and the balance due *)




(** X4.  The aging buckets have no fallback for a missing amount: one
    invoice that is not Paid and has no [amountInclVat] turns the bucket
    it falls in into [NaN] (the metrics fall back to [amount] or [0]
    instead), so the buckets' total is [NaN] as well. *)
Theorem aging_missing_amount_is_NaN (parseDate : string -> jsnum)
    (referenceDate : jsnum) (invoices : list Invoice) (inv : Invoice) :
  In inv invoices -> status inv <> Paid -> amountInclVat inv = None ->
  let buckets := calculateAgingBuckets parseDate invoices referenceDate in
  bucketValue (bucketOf (diffInDays parseDate referenceDate (dueDate inv))) buckets = NaN /\
  bucketsTotal buckets = NaN.
Proof.
  intros Hin Hst Hnone. cbv zeta.
  assert (Hfold : forall (p : Invoice -> bool) l a,
             In inv l -> p inv = true ->
             fold_left (fun a i => if p i then add a (toNumber (amountInclVat i)) else a)
                       l a = NaN).
  { intros p l. induction l as [|i l IH]; intros a Hi Hp; [destruct Hi|].
    destruct Hi as [Hi|Hi]; cbn [fold_left].
    - subst i. rewrite Hp, Hnone. cbn [toNumber default].
      replace (add a NaN) with NaN by (destruct a; reflexivity).
      clear. induction l as [|i l IH]; [reflexivity|]. cbn [fold_left].
      destruct (p i); exact IH.
    - apply IH; assumption. }
  assert (Hb : bucketValue (bucketOf (diffInDays parseDate referenceDate (dueDate inv)))
                 (calculateAgingBuckets parseDate invoices referenceDate) = NaN).
  { unfold calculateAgingBuckets. rewrite aging_fold.
    assert (Hp : forall b, bucketOf (diffInDays parseDate referenceDate (dueDate inv)) = b ->
                           inBucket parseDate referenceDate b inv = true).
    { intros b Hbk. unfold inBucket.
      rewrite (bool_decide_eq_false_2 _ Hst), (bool_decide_eq_true_2 _ Hbk).
      reflexivity. }
    destruct (bucketOf _) eqn:Hbk; cbn [bucketValue b0_30 b31_60 b61_90 b90plus];
      apply Hfold; auto. }
  split; [exact Hb|].
  revert Hb. unfold bucketsTotal.
  destruct (calculateAgingBuckets parseDate invoices referenceDate) as [a b c d].
  cbn [b0_30 b31_60 b61_90 b90plus].
  destruct (bucketOf _); cbn [bucketValue b0_30 b31_60 b61_90 b90plus]; intros ->;
    clear; repeat match goal with x : jsnum |- _ => destruct x end; reflexivity.
Qed.

Lemma aging_missing_amount_is_NaN_witness :
  b0_30 (calculateAgingBuckets agingParse (agingFixture ++ [agingNoAmount])
           (ofZ 1769904000000)) = NaN.
Proof.
  apply (aging_missing_amount_is_NaN agingParse (ofZ 1769904000000)
           (agingFixture ++ [agingNoAmount]) agingNoAmount).
  - apply in_or_app. right. left. reflexivity.
  - discriminate.
  - reflexivity.
Defined.

(** ** The vendor rows of the aggregation *)

Lemma str_or_nonempty (s : option string) (d : string) : d <> "" -> str_or s d <> "".
Proof. intros Hd. destruct s as [[|c r]|]; cbn [str_or]; try exact Hd. discriminate. Qed.

Lemma resolveVendorName_nonempty (sub : InvoiceSubscriptionBreakdown) :
  resolveVendorName sub <> "".
Proof.
  unfold resolveVendorName. apply str_or_nonempty.
  unfold identifyVendorFromProduct. cbv zeta.
  repeat match goal with
         | |- context [if ?b then _ else _] => destruct b
         end; cbn [default]; try discriminate.
  cbv [from_option]. apply str_or_nonempty, str_or_nonempty. discriminate.
Qed.

Lemma map_set_nonempty {V : Type} (k : string) (v : V) (m : list (string * V)) :
  map_set k v m <> [].
Proof. destruct m as [|[k' v'] m]; cbn [map_set]; [|destruct (bool_decide _)]; discriminate. Qed.

Lemma aggState_products_nonempty (l : list InvoiceSubscriptionBreakdown) :
  Forall (fun kv : string * VendorEntry => ve_productsMap kv.2 <> []) (aggState l).
Proof.
  unfold aggState.
  apply (fold_left_invariant
           (Forall (fun kv : string * VendorEntry => ve_productsMap kv.2 <> []))).
  - constructor.
  - intros m sub Hm. destruct (subscriptionStep_shape m sub) as (pe & -> & _).
    apply map_set_Forall; [exact Hm|]. cbn. apply map_set_nonempty.
Qed.

Lemma aggState_key_iff (l : list InvoiceSubscriptionBreakdown) (v : string) :
  v ∈ (aggState l).*1 <-> exists sub, sub ∈ l /\ resolveVendorName sub = v.
Proof.
  pose proof (vendor_lookup l v) as Hv.
  pose proof (map_get_None_keys v (aggState l)) as Hk.
  split.
  - intros Hin. destruct (map_get v (aggState l)) as [ve|] eqn:Hg.
    + cbn in Hv. destruct (List.filter (ofVendor v) l) as [|sub b] eqn:Hf;
        [discriminate|].
      assert (Hs : In sub (List.filter (ofVendor v) l)) by (rewrite Hf; left; reflexivity).
      apply List.filter_In in Hs as [Hs Ho]. exists sub. split.
      * apply list_elem_of_In, Hs.
      * unfold ofVendor in Ho. apply bool_decide_eq_true_1 in Ho. exact Ho.
    + exfalso. apply Hk; [reflexivity|exact Hin].
  - intros (sub & Hs & Hr). destruct (decide (v ∈ (aggState l).*1)) as [|Hn]; [assumption|].
    apply Hk in Hn. rewrite Hn in Hv. cbn in Hv.
    assert (Hi : In sub (List.filter (ofVendor v) l)).
    { apply List.filter_In. split; [apply list_elem_of_In, Hs|].
      unfold ofVendor. apply bool_decide_eq_true_2, Hr. }
    destruct (List.filter (ofVendor v) l); [destruct Hi|discriminate].
Qed.

(** X5.  The vendor rows are exactly the vendor names that the
    subscriptions resolve to: a name is in the result if and only if
    some subscription resolves to it, the result is empty only for an
    empty input, no row has an empty name, and every row has at least
    one product. *)
Theorem aggregate_vendor_rows (localeCompare : string -> string -> Z)
    (subscriptions : list InvoiceSubscriptionBreakdown) :
  let vendors := aggregateVendorsFromSubscriptions localeCompare subscriptions in
  (forall v, v ∈ vendorName <$> vendors
             <-> exists sub, sub ∈ subscriptions /\ resolveVendorName sub = v) /\
  (vendors = [] <-> subscriptions = []) /\
  Forall (fun av => vendorName av <> "" /\ products av <> []) vendors.
Proof.
  cbv zeta.
  assert (Hnames : forall v,
             v ∈ vendorName <$> aggregateVendorsFromSubscriptions localeCompare subscriptions
             <-> exists sub, sub ∈ subscriptions /\ resolveVendorName sub = v).
  { intros v. rewrite (result_vendor_names localeCompare subscriptions).
    apply aggState_key_iff. }
  split_and!.
  - exact Hnames.
  - split.
    + intros Hnil. destruct subscriptions as [|sub l]; [reflexivity|exfalso].
      assert (Hin : resolveVendorName sub ∈ vendorName
                      <$> aggregateVendorsFromSubscriptions localeCompare (sub :: l)).
      { apply Hnames. exists sub. split; [left|reflexivity]. }
      rewrite Hnil in Hin. inversion Hin.
    + intros ->. reflexivity.
  - apply Forall_forall. intros av Hav.
    unfold aggregateVendorsFromSubscriptions in Hav.
    rewrite (js_sort_perm _ _) in Hav.
    apply list_elem_of_fmap in Hav as (ve & -> & Hve).
    unfold map_values in Hve. apply list_elem_of_fmap in Hve as ([k ve'] & -> & Hkv).
    cbn [snd finishVendor vendorName products]. split.
    + destruct (aggState_keyed subscriptions) as [_ Hkeyed].
      rewrite Forall_forall in Hkeyed. destruct (Hkeyed _ Hkv) as (Hname & _).
      cbn in Hname. rewrite Hname.
      assert (Hk : k ∈ (aggState subscriptions).*1).
      { apply list_elem_of_fmap. exists (k, ve'). split; [reflexivity|exact Hkv]. }
      apply aggState_key_iff in Hk as (sub & _ & <-).
      apply resolveVendorName_nonempty.
    + pose proof (aggState_products_nonempty subscriptions) as Hne.
      rewrite Forall_forall in Hne. specialize (Hne _ Hkv). cbn in Hne.
      intros Hnil. apply Hne.
      pose proof (js_sort_perm (by_key localeCompare displayName)
                    (finishProduct localeCompare <$> map_values (ve_productsMap ve')))
        as Hperm.
      rewrite Hnil in Hperm. apply Permutation_nil in Hperm.
      unfold map_values in Hperm.
      destruct (ve_productsMap ve'); [reflexivity|discriminate Hperm].
Qed.

(** ** The product rows: cost, labels and detail rows *)

Lemma option_fmap_compose {A B C : Type} (f : A -> B) (g : B -> C) (o : option A) :
  g <$> (f <$> o) = (fun x => g (f x)) <$> o.
Proof. destruct o; reflexivity. Qed.

(** X6.  The cost of a product never uses the retail amount: it is the
    sum, over the subscriptions of the product's bucket, of the total of
    the subscription's entry amounts when that total is positive and of
    the subscription's own [amount] (or [0]) otherwise.  For a vendor on
    the cost basis whose subscriptions carry an amount and no positive
    entry total, the cost of a product is its amount. *)
Theorem product_cost_amount (localeCompare : string -> string -> Z)
    (subscriptions : list InvoiceSubscriptionBreakdown) (v k : string) :
  let vendors := aggregateVendorsFromSubscriptions localeCompare subscriptions in
  let bucket := List.filter (ofProduct v k) subscriptions in
  let cost sub :=
    let entryTotal := sum ((fun e => default zero (e_amount e)) <$> s_entries sub) in
    if gt entryTotal zero then entryTotal else default zero (s_amount sub) in
  costAmount <$> (findVendor v vendors ≫= findProduct k) = bucketSum cost bucket /\
  (shouldUseRetailAmount v = false ->
   Forall (fun sub =>
             s_amount sub <> None /\
             gt (sum ((fun e => default zero (e_amount e)) <$> s_entries sub)) zero = false)
          bucket ->
   costAmount <$> (findVendor v vendors ≫= findProduct k)
   = amount <$> (findVendor v vendors ≫= findProduct k)).
Proof.
  cbv zeta. pose proof (aggregate_product_values localeCompare subscriptions v k) as Hp.
  set (o := findVendor v _ ≫= findProduct k) in *.
  assert (Hc : costAmount <$> o
               = bucketSum subCost (List.filter (ofProduct v k) subscriptions)).
  { transitivity (snd <$> ((fun p => (displayName p, licenses p, amount p, costAmount p))
                             <$> o)).
    - rewrite option_fmap_compose. reflexivity.
    - rewrite Hp. destruct (List.filter (ofProduct v k) subscriptions); reflexivity. }
  assert (Ha : amount <$> o
               = bucketSum subAmount (List.filter (ofProduct v k) subscriptions)).
  { transitivity ((fun i : string * jsnum * jsnum * jsnum => i.1.2)
                    <$> ((fun p => (displayName p, licenses p, amount p, costAmount p))
                           <$> o)).
    - rewrite option_fmap_compose. reflexivity.
    - rewrite Hp. destruct (List.filter (ofProduct v k) subscriptions); reflexivity. }
  split; [exact Hc|].
  intros Hretail Hall. rewrite Hc, Ha.
  assert (Hv : Forall (fun sub => resolveVendorName sub = v)
                 (List.filter (ofProduct v k) subscriptions)).
  { apply List.Forall_forall. intros sub Hs. apply List.filter_In in Hs as [_ Hs].
    unfold ofProduct in Hs. apply andb_prop in Hs as [Hs _].
    apply bool_decide_eq_true_1 in Hs. exact Hs. }
  destruct (List.filter (ofProduct v k) subscriptions) as [|s b]; [reflexivity|].
  cbn [bucketSum]. do 2 f_equal.
  apply Forall_fmap_ext. rewrite List.Forall_forall in Hall, Hv.
  apply List.Forall_forall. intros sub Hs.
  destruct (Hall _ Hs) as [Hamt Hgt]. specialize (Hv _ Hs).
  unfold subCost, subAmount, getAmountForVendor, entryAmount.
  rewrite Hv, Hretail, Hgt. destruct (s_amount sub); [reflexivity|congruence].
Qed.

(** ** The order of the rows *)

Section SortedRows.
Context {A : Type}.
Variable cmp : string -> string -> Z.
Variable key : A -> string.
Hypothesis cmp_ok : consistentComparator cmp.

Lemma sort_insert_sorted (x : A) (l : list A) :
  sortedBy cmp key l -> sortedBy cmp key (sort_insert (by_key cmp key) x l).
Proof.
  destruct cmp_ok as [Htotal Htrans]. unfold sortedBy.
  induction l as [|y l IH]; intros Hl; cbn [sort_insert].
  - repeat constructor.
  - apply StronglySorted_inv in Hl as [Hl Hy]. unfold by_key at 1.
    destruct (Z.leb_spec (cmp (key x) (key y)) 0) as [Hxy|Hxy].
    + constructor; [constructor; assumption|].
      constructor; [exact Hxy|].
      apply List.Forall_forall. intros z Hz. rewrite List.Forall_forall in Hy.
      apply (Htrans _ (key y)); [exact Hxy|apply Hy, Hz].
    + constructor; [apply IH, Hl|].
      apply List.Forall_forall. intros z Hz.
      apply (Permutation_in _ (sort_insert_perm (by_key cmp key) x l)) in Hz.
      destruct Hz as [<-|Hz].
      * destruct (Htotal (key x) (key y)); [lia|assumption].
      * rewrite List.Forall_forall in Hy. apply Hy, Hz.
Qed.

Lemma js_sort_sorted (l : list A) : sortedBy cmp key (js_sort (by_key cmp key) l).
Proof.
  induction l as [|x l IH]; cbn [js_sort fold_right].
  - constructor.
  - apply sort_insert_sorted, IH.
Qed.
End SortedRows.

Lemma codeUnitCompare_le (a b : string) :
  codeUnitCompare a b <= 0 <-> a = b \/ OrderedTypeEx.String_as_OT.lt a b.
Proof.
  unfold codeUnitCompare.
  pose proof (OrderedTypeEx.String_as_OT.cmp_eq a b) as He.
  pose proof (OrderedTypeEx.String_as_OT.cmp_lt a b) as Hl.
  pose proof (OrderedTypeEx.String_as_OT.cmp_antisym a b) as Ha.
  pose proof (OrderedTypeEx.String_as_OT.cmp_lt b a) as Hl'.
  unfold OrderedTypeEx.String_as_OT.cmp in *.
  destruct (String.compare a b) eqn:E.
  - split; [intros _; left; apply He; reflexivity|lia].
  - split; [intros _; right; apply Hl; reflexivity|lia].
  - split; [lia|]. intros [Heq|Hlt].
    + apply He in Heq. discriminate.
    + apply Hl in Hlt. discriminate.
Qed.

Lemma codeUnitCompare_consistent : consistentComparator codeUnitCompare.
Proof.
  split.
  - intros a b.
    pose proof (OrderedTypeEx.String_as_OT.cmp_antisym a b) as Ha.
    unfold OrderedTypeEx.String_as_OT.cmp in Ha. unfold codeUnitCompare.
    rewrite Ha. destruct (String.compare b a); cbn [CompOpp]; lia.
  - intros a b c Hab Hbc. apply codeUnitCompare_le in Hab, Hbc.
    apply codeUnitCompare_le.
    destruct Hab as [->|Hab]; [exact Hbc|].
    destruct Hbc as [<-|Hbc]; [right; exact Hab|].
    right. exact (OrderedTypeEx.String_as_OT.lt_trans _ _ _ Hab Hbc).
Qed.

(** X7.  When the collation orders the strings (any two names are
    comparable and the order is transitive), the rows come out in
    ascending order at all three levels: the vendors by name, the
    products of every vendor by display name, and the detail rows of
    every product by label. *)
Theorem aggregate_rows_sorted (localeCompare : string -> string -> Z)
    (subscriptions : list InvoiceSubscriptionBreakdown) :
  consistentComparator localeCompare ->
  let vendors := aggregateVendorsFromSubscriptions localeCompare subscriptions in
  sortedBy localeCompare vendorName vendors /\
  Forall (fun av =>
            sortedBy localeCompare displayName (products av) /\
            Forall (fun p => sortedBy localeCompare d_label (details p)) (products av))
         vendors.
Proof.
  intros Hcmp. cbv zeta. split.
  - apply js_sort_sorted, Hcmp.
  - apply Forall_forall. intros av Hav.
    unfold aggregateVendorsFromSubscriptions in Hav.
    rewrite (js_sort_perm _ _) in Hav.
    apply list_elem_of_fmap in Hav as (ve & -> & _).
    cbn [finishVendor products]. split.
    + apply js_sort_sorted, Hcmp.
    + apply Forall_forall. intros p Hp. rewrite (js_sort_perm _ _) in Hp.
      apply list_elem_of_fmap in Hp as (pe & -> & _).
      cbn [finishProduct details]. apply js_sort_sorted, Hcmp.
Qed.

Lemma aggregate_rows_sorted_witness :
  vendorName <$> aggregateVendorsFromSubscriptions codeUnitCompare
                   [subNce; subUpper; subPlain; subLower]
  = ["Microsoft"; "Vendor"] /\
  sortedBy codeUnitCompare vendorName
    (aggregateVendorsFromSubscriptions codeUnitCompare
       [subNce; subUpper; subPlain; subLower]).
Proof.
  split; [reflexivity|].
  apply (aggregate_rows_sorted codeUnitCompare [subNce; subUpper; subPlain; subLower]).
  apply codeUnitCompare_consistent.
Defined.

(** ** Sets of terms and the label they resolve to *)

Lemma set_add_elem (x y : string) (s : list string) :
  y ∈ set_add x s <-> y ∈ s \/ y = x.
Proof.
  unfold set_add. destruct (decide (x ∈ s)) as [Hx|Hx].
  - rewrite (bool_decide_eq_true_2 _ Hx). split; [auto|]. intros [H| ->]; assumption.
  - rewrite (bool_decide_eq_false_2 _ Hx). rewrite elem_of_app, list_elem_of_singleton.
    reflexivity.
Qed.

Lemma set_add_NoDup (x : string) (s : list string) : NoDup s -> NoDup (set_add x s).
Proof.
  intros Hs. unfold set_add. destruct (decide (x ∈ s)) as [Hx|Hx].
  - rewrite (bool_decide_eq_true_2 _ Hx). exact Hs.
  - rewrite (bool_decide_eq_false_2 _ Hx). apply NoDup_app. split_and!.
    + exact Hs.
    + intros y Hy Hy'. apply list_elem_of_singleton in Hy'. subst y. contradiction.
    + apply NoDup_singleton.
Qed.

Lemma set_fold_spec (l acc : list string) :
  let r := fold_left (fun acc x => set_add x acc) l acc in
  (forall y, y ∈ r <-> y ∈ acc \/ y ∈ l) /\ (NoDup acc -> NoDup r).
Proof.
  cbv zeta. revert acc. induction l as [|x l IH]; intros acc; cbn [fold_left].
  - split; [|auto]. intros y. rewrite elem_of_nil. tauto.
  - destruct (IH (set_add x acc)) as [He Hn]. split.
    + intros y. rewrite He, set_add_elem, elem_of_cons. tauto.
    + intros Hacc. apply Hn, set_add_NoDup, Hacc.
Qed.

Lemma unique_elem (x : string) (l : list string) : x ∈ unique l <-> x ∈ l.
Proof.
  unfold unique. destruct (set_fold_spec l []) as [He _]. rewrite He, elem_of_nil. tauto.
Qed.

Lemma unique_NoDup (l : list string) : NoDup (unique l).
Proof. unfold unique. apply (set_fold_spec l []), NoDup_nil_2. Qed.

Lemma unique_app (a b : list string) :
  unique (a ++ b) = fold_left (fun acc x => set_add x acc) b (unique a).
Proof. unfold unique. apply fold_left_app. Qed.

Lemma NoDup_all_equal (a : string) (u : list string) :
  NoDup u -> u <> [] -> (forall y, y ∈ u -> y = a) -> u = [a].
Proof.
  intros Hn Hne Hall. destruct u as [|x u]; [congruence|].
  assert (x = a) by (apply Hall; left). subst x.
  destruct u as [|y u]; [reflexivity|exfalso].
  assert (y = a) by (apply Hall; right; left). subst y.
  apply NoDup_cons in Hn as [Hn _]. apply Hn. left.
Qed.

Lemma resolveLabel_unique (tags : list string) :
  resolveLabel (unique tags) = commonLabel tags.
Proof.
  destruct tags as [|t rest]; [reflexivity|].
  unfold resolveLabel, commonLabel.
  assert (Ht : t ∈ unique (t :: rest)) by (apply unique_elem; left).
  destruct (unique (t :: rest)) as [|u0 us] eqn:Hu; [inversion Ht|].
  rewrite <- Hu. clear Ht.
  set (U := unique (trim <$> unique (t :: rest))).
  assert (HU : forall y, y ∈ U <-> exists x, x ∈ t :: rest /\ y = trim x).
  { intros y. unfold U. rewrite unique_elem, list_elem_of_fmap. split.
    - intros (x & -> & Hx). rewrite unique_elem in Hx. exists x. split; [exact Hx|reflexivity].
    - intros (x & Hx & ->). exists x. split; [reflexivity|]. apply unique_elem, Hx. }
  assert (HN : NoDup U) by apply unique_NoDup.
  destruct (forallb _ rest) eqn:Hall.
  - rewrite (NoDup_all_equal (trim t) U); [reflexivity|exact HN| |].
    + intros Hnil. assert (Hin : trim t ∈ U) by (apply HU; exists t; split; [left|reflexivity]).
      rewrite Hnil in Hin. inversion Hin.
    + intros y Hy. apply HU in Hy as (x & Hx & ->).
      apply elem_of_cons in Hx as [->|Hx]; [reflexivity|].
      rewrite forallb_forall in Hall. apply list_elem_of_In in Hx.
      specialize (Hall _ Hx). apply bool_decide_eq_true_1 in Hall. exact Hall.
  - assert (Hex : exists x, x ∈ rest /\ trim x <> trim t).
    { clear -Hall. induction rest as [|x rest IH]; [discriminate|].
      cbn [forallb] in Hall. destruct (decide (trim x = trim t)) as [E|E].
      - rewrite (bool_decide_eq_true_2 _ E) in Hall. cbn [andb] in Hall.
        destruct (IH Hall) as (x' & Hx' & Hne). exists x'. split; [right|]; assumption.
      - exists x. split; [left|exact E]. }
    destruct Hex as (x & Hx & Hne).
    assert (H1 : trim t ∈ U) by (apply HU; exists t; split; [left|reflexivity]).
    assert (H2 : trim x ∈ U) by (apply HU; exists x; split; [right; exact Hx|reflexivity]).
    destruct U as [|a [|b U']]; [inversion H1| |reflexivity].
    apply list_elem_of_singleton in H1, H2. congruence.
Qed.

Lemma addIfTruthy_fold (f : InvoiceTenantEntry -> option string)
    (es : list InvoiceTenantEntry) (acc : list string) :
  fold_left (fun acc e => addIfTruthy (f e) acc) es acc
  = fold_left (fun acc x => set_add x acc) (omap (fun e => nonEmpty (f e)) es) acc.
Proof.
  revert acc. induction es as [|e es IH]; intros acc; cbn [fold_left omap list_omap];
    [reflexivity|].
  rewrite IH. unfold addIfTruthy. destruct (nonEmpty (f e)); reflexivity.
Qed.

(** ** What the entries bring to a product *)

Lemma entryStep_extras (lbl : string) (es : list InvoiceTenantEntry)
    (pe : ProductEntry) (a : jsnum) :
  productExtra (fold_left (entryStep lbl) es (pe, a)).1
  = (fold_left (fun acc x => set_add x acc) (billingTags es) (pe_billingValues pe),
     fold_left (fun acc x => set_add x acc) (commitmentTags es) (pe_commitmentValues pe),
     add (sum (d_licenses <$> map_values (pe_detailsMap pe))) (sum (entryLicenses <$> es)),
     add (sum (d_amount <$> map_values (pe_detailsMap pe))) (sum (entryAmount <$> es)),
     isNil (pe_detailsMap pe) && isNil es).
Proof.
  revert pe a. induction es as [|e es IH]; intros pe a.
  - cbn [fold_left fst billingTags commitmentTags omap list_omap fmap list_fmap isNil].
    rewrite sum_nil, !add_zero_r, andb_true_r. reflexivity.
  - cbn [fold_left]. destruct (entryStep lbl (pe, a) e) as [pe' a'] eqn:E.
    rewrite IH. unfold entryStep in E. cbn [fst snd] in E.
    injection E as E _. subst pe'.
    cbn [pe_billingValues pe_commitmentValues pe_detailsMap].
    set (key := _ +:+ _).
    rewrite (map_set_sum d_licenses key _ (pe_detailsMap pe) (entryLicenses e)).
    2:{ cbn [d_licenses]. unfold entryLicenses.
        destruct (map_get key (pe_detailsMap pe)); reflexivity. }
    rewrite (map_set_sum d_amount key _ (pe_detailsMap pe) (entryAmount e)).
    2:{ cbn [d_amount]. unfold entryAmount.
        destruct (map_get key (pe_detailsMap pe)); reflexivity. }
    cbn [fmap list_fmap]. rewrite !sum_cons, !add_assoc.
    unfold billingTags, commitmentTags, addIfTruthy. cbn [omap list_omap].
    assert (Hnil : forall (V : Type) (k : string) (v : V) m, isNil (map_set k v m) = false).
    { intros V k v m. pose proof (map_set_nonempty k v m). destruct (map_set k v m);
        [congruence|reflexivity]. }
    rewrite Hnil. cbn [isNil andb]. rewrite andb_false_r.
    destruct (nonEmpty (e_billing e)), (nonEmpty (e_commitment e)); reflexivity.
Qed.

Lemma subscriptionStep_extras (m : list (string * VendorEntry))
    (sub : InvoiceSubscriptionBreakdown) :
  exists pe : ProductEntry,
    subscriptionStep m sub =
      map_set (resolveVendorName sub)
        {| ve_vendorName := ve_vendorName (vendorBefore m sub);
           ve_totalLicenses := add (ve_totalLicenses (vendorBefore m sub)) (subLicenses sub);
           ve_totalAmount := add (ve_totalAmount (vendorBefore m sub)) (subAmount sub);
           ve_productsMap :=
             map_set (productKeyOf sub) pe (ve_productsMap (vendorBefore m sub)) |}
        m /\
    productExtra pe
    = (fold_left (fun acc x => set_add x acc) (billingTags (s_entries sub))
         (pe_billingValues (productBefore m sub)),
       fold_left (fun acc x => set_add x acc) (commitmentTags (s_entries sub))
         (pe_commitmentValues (productBefore m sub)),
       add (sum (d_licenses <$> map_values (pe_detailsMap (productBefore m sub))))
           (sum (entryLicenses <$> s_entries sub)),
       add (sum (d_amount <$> map_values (pe_detailsMap (productBefore m sub))))
           (sum (entryAmount <$> s_entries sub)),
       isNil (pe_detailsMap (productBefore m sub)) && isNil (s_entries sub)).
Proof.
  unfold subscriptionStep. fold (vendorBefore m sub).
  fold (productKeyOf sub). fold (productBefore m sub). fold (subAmount sub).
  match goal with
  | |- context [fold_left (entryStep ?lbl) ?es (?p, ?a)] =>
      pose proof (entryStep_extras lbl es p a) as Hx;
      set (r := fold_left (entryStep lbl) es (p, a)) in *
  end.
  eexists. split; [reflexivity|].
  unfold productExtra in *.
  cbn [pe_billingValues pe_commitmentValues pe_detailsMap] in *. exact Hx.
Qed.

Lemma entriesExtra_snoc (b : list InvoiceSubscriptionBreakdown)
    (x : InvoiceSubscriptionBreakdown) :
  entriesExtra (bucketEntries (b ++ [x]))
  = (fold_left (fun acc y => set_add y acc) (billingTags (s_entries x))
       (unique (billingTags (bucketEntries b))),
     fold_left (fun acc y => set_add y acc) (commitmentTags (s_entries x))
       (unique (commitmentTags (bucketEntries b))),
     add (sum (entryLicenses <$> bucketEntries b)) (sum (entryLicenses <$> s_entries x)),
     add (sum (entryAmount <$> bucketEntries b)) (sum (entryAmount <$> s_entries x)),
     isNil (bucketEntries b) && isNil (s_entries x)).
Proof.
  assert (Hb : bucketEntries (b ++ [x]) = bucketEntries b ++ s_entries x).
  { unfold bucketEntries. rewrite bind_app. cbn [mbind list_bind]. rewrite app_nil_r.
    reflexivity. }
  unfold entriesExtra. rewrite Hb. unfold billingTags, commitmentTags.
  rewrite !omap_app, !unique_app, !fmap_app, !sum_app.
  destruct (bucketEntries b); reflexivity.
Qed.

Lemma product_extra_lookup (l : list InvoiceSubscriptionBreakdown) (v k : string) :
  productExtra <$> (map_get v (aggState l) ≫= fun ve => map_get k (ve_productsMap ve))
  = (fun b => entriesExtra (bucketEntries b))
      <$> nonEmptyBucket (List.filter (ofProduct v k) l).
Proof.
  induction l as [|x l IH] using rev_ind; [reflexivity|].
  rewrite aggState_snoc, filter_snoc.
  destruct (subscriptionStep_extras (aggState l) x) as (pe & -> & Hx).
  rewrite map_get_set. unfold ofProduct at 2.
  decide_case (v = resolveVendorName x) as Hv.
  - subst v. rewrite (bool_decide_eq_true_2 (resolveVendorName x = resolveVendorName x))
      by reflexivity.
    cbn [mbind option_bind ve_productsMap andb]. rewrite map_get_set.
    decide_case (k = productKeyOf x) as Hk.
    + subst k. rewrite bool_decide_eq_true_2 by reflexivity.
      generalize dependent
        (List.filter (ofProduct (resolveVendorName x) (productKeyOf x)) l).
      intros b IH.
      assert (Hne : nonEmptyBucket (b ++ [x]) = Some (b ++ [x]))
        by (destruct b; reflexivity).
      rewrite Hne. cbn [fmap option_fmap option_map]. rewrite entriesExtra_snoc, Hx.
      assert (Hbefore : productExtra (productBefore (aggState l) x)
                        = entriesExtra (bucketEntries b)).
      { unfold productBefore. rewrite products_before.
        destruct (map_get (resolveVendorName x) (aggState l) ≫= _) as [pe0|].
        - cbv [default from_option id]. destruct b as [|s0 b]; [discriminate IH|].
          apply (inj Some). exact IH.
        - destruct b; [reflexivity|discriminate IH]. }
      unfold productExtra, entriesExtra in Hbefore.
      injection Hbefore as -> -> -> -> ->. reflexivity.
    + rewrite bool_decide_eq_false_2 by congruence. rewrite app_nil_r, <- IH.
      rewrite products_before. reflexivity.
  - rewrite (bool_decide_eq_false_2 (resolveVendorName x = v)) by congruence.
    cbn [andb]. rewrite app_nil_r. exact IH.
Qed.

Lemma finished_product_extra (localeCompare : string -> string -> Z)
    (l : list InvoiceSubscriptionBreakdown) (v k : string) :
  (fun p => (billing p, commitment p,
             sum (d_licenses <$> details p), sum (d_amount <$> details p),
             isNil (details p)))
    <$> (findVendor v (aggregateVendorsFromSubscriptions localeCompare l)
           ≫= findProduct k)
  = (fun b => (commonLabel (billingTags (bucketEntries b)),
               commonLabel (commitmentTags (bucketEntries b)),
               sum (entryLicenses <$> bucketEntries b),
               sum (entryAmount <$> bucketEntries b),
               isNil (bucketEntries b)))
      <$> nonEmptyBucket (List.filter (ofProduct v k) l).
Proof.
  rewrite findProduct_aggregate. pose proof (product_extra_lookup l v k) as Hx.
  destruct (map_get v (aggState l) ≫= _) as [pe|];
    destruct (nonEmptyBucket (List.filter (ofProduct v k) l)) as [b|];
    try discriminate Hx; [|reflexivity].
  cbn [fmap option_fmap option_map] in *. apply (inj Some) in Hx.
  unfold productExtra, entriesExtra in Hx. injection Hx as Hb Hc Hl Ha Hn.
  cbn [finishProduct billing commitment details].
  pose proof (js_sort_perm (by_key localeCompare d_label) (map_values (pe_detailsMap pe)))
    as Hperm.
  rewrite (sum_perm _ _ (fmap_Permutation d_licenses _ _ Hperm)).
  rewrite (sum_perm _ _ (fmap_Permutation d_amount _ _ Hperm)).
  rewrite Hb, Hc, Hl, Ha, !resolveLabel_unique. do 2 f_equal.
  rewrite <- Hn. unfold map_values in *.
  destruct (pe_detailsMap pe) as [|d ds].
  - reflexivity.
  - destruct (js_sort _ _); [|reflexivity].
    apply Permutation_nil in Hperm. discriminate Hperm.
Qed.

(** X8.  The billing and the commitment label of a product are read off
    the entries of the product's subscriptions: no label when no entry
    carries a non-empty term, the trimmed term when all the terms agree
    after trimming, and "Mixed" as soon as two of them differ. *)
Theorem product_term_labels (localeCompare : string -> string -> Z)
    (subscriptions : list InvoiceSubscriptionBreakdown) (v k : string) :
  let vendors := aggregateVendorsFromSubscriptions localeCompare subscriptions in
  let label (term : InvoiceTenantEntry -> option string)
            (bucket : list InvoiceSubscriptionBreakdown) :=
    commonLabel (omap (fun e => nonEmpty (term e)) (bucket ≫= s_entries)) in
  (fun p => (billing p, commitment p)) <$> (findVendor v vendors ≫= findProduct k)
  = (fun bucket => (label e_billing bucket, label e_commitment bucket))
      <$> nonEmptyBucket (List.filter (ofProduct v k) subscriptions).
Proof.
  cbv zeta. pose proof (finished_product_extra localeCompare subscriptions v k) as Hx.
  apply (f_equal (fmap (fun i : option string * option string * jsnum * jsnum * bool =>
                          (i.1.1.1.1, i.1.1.1.2)))) in Hx.
  rewrite !option_fmap_compose in Hx. exact Hx.
Qed.


(** ** The response mapper: what every mapped subscription carries *)

Lemma buildEntry_complete (entry : TenantEntryApi) (fallbackId fallbackDescription : string) :
  entryComplete (buildEntry entry fallbackId fallbackDescription).
Proof. unfold entryComplete, buildEntry. cbn. split_and!; eexists; reflexivity. Qed.

(** X10.  Whatever strategy produces it, every subscription of the
    mapper carries the billing type of its invoice line and a license
    quantity, and every entry below it has a description, a nickname, a
    license quantity, an amount and a retail amount: the consumers'
    fallbacks for these entry fields never fire on mapped data. *)
Theorem mapSubscriptions_fields (line : LineApi) (tenant : TenantApi) :
  Forall (fun sub =>
            s_billingTypeId sub = la_billingTypeId line /\
            s_billingTypeDescription sub = la_billingTypeDescription line /\
            is_Some (s_licensQuantity sub) /\
            Forall (fun e =>
                      is_Some (e_description e) /\ is_Some (e_nickname e) /\
                      is_Some (e_licensQuantity e) /\ is_Some (e_amount e) /\
                      is_Some (e_retailAmount e))
                   (s_entries sub))
         (mapSubscriptions line tenant).
Proof.
  change (Forall (fun sub =>
                    s_billingTypeId sub = la_billingTypeId line /\
                    s_billingTypeDescription sub = la_billingTypeDescription line /\
                    is_Some (s_licensQuantity sub) /\
                    Forall entryComplete (s_entries sub))
                 (mapSubscriptions line tenant)).
  assert (H1 : forall sub, let s := fromSubscription line sub in
             s_billingTypeId s = la_billingTypeId line /\
             s_billingTypeDescription s = la_billingTypeDescription line /\
             is_Some (s_licensQuantity s) /\ Forall entryComplete (s_entries s)).
  { intros sub. cbv zeta. unfold fromSubscription. cbn.
    split_and!; try reflexivity; [eexists; reflexivity|].
    apply Forall_forall. intros e He. unfold mapSubscriptionEntries in He.
    apply elem_of_imap_inv in He as (i & x & ->). apply buildEntry_complete. }
  assert (H2 : forall i e, let s := fromEntry line tenant i e in
             s_billingTypeId s = la_billingTypeId line /\
             s_billingTypeDescription s = la_billingTypeDescription line /\
             is_Some (s_licensQuantity s) /\ Forall entryComplete (s_entries s)).
  { intros i e. cbv zeta. unfold fromEntry. cbn [s_billingTypeId s_billingTypeDescription
      s_licensQuantity s_entries].
    split_and!; try reflexivity; [eexists; reflexivity|].
    repeat constructor; apply buildEntry_complete. }
  assert (H3 : forall i c, let s := fromConnector line tenant i c in
             s_billingTypeId s = la_billingTypeId line /\
             s_billingTypeDescription s = la_billingTypeDescription line /\
             is_Some (s_licensQuantity s) /\ Forall entryComplete (s_entries s)).
  { intros i c. cbv zeta. unfold fromConnector. cbn [s_billingTypeId
      s_billingTypeDescription s_licensQuantity s_entries].
    split_and!; try reflexivity; [eexists; reflexivity|].
    repeat constructor; apply buildEntry_complete. }
  assert (H4 : let s := fromTenant line tenant in
             s_billingTypeId s = la_billingTypeId line /\
             s_billingTypeDescription s = la_billingTypeDescription line /\
             is_Some (s_licensQuantity s) /\ Forall entryComplete (s_entries s)).
  { cbv zeta. unfold fromTenant. cbn [s_billingTypeId s_billingTypeDescription
      s_licensQuantity s_entries].
    split_and!; try reflexivity; [eexists; reflexivity|].
    repeat constructor; apply buildEntry_complete. }
  unfold mapSubscriptions.
  destruct (ta_subscriptions tenant) as [[|sub subs]|].
  2:{ apply Forall_forall. intros s Hs. apply list_elem_of_fmap in Hs as (x & -> & _).
      apply H1. }
  all: destruct (0 <? length (imap (fromEntry line tenant) _))%nat;
    [apply Forall_forall; intros s Hs; apply elem_of_imap_inv in Hs as (i & x & ->);
     apply H2|];
    destruct (0 <? length (imap (fromConnector line tenant) _))%nat;
    [apply Forall_forall; intros s Hs; apply elem_of_imap_inv in Hs as (i & x & ->);
     apply H3|];
    (constructor; [apply H4|constructor]).
Qed.

Lemma mapSubscriptions_billingType (line : LineApi) (tenant : TenantApi) :
  Forall (fun sub => s_billingTypeDescription sub = la_billingTypeDescription line)
         (mapSubscriptions line tenant).
Proof.
  unfold mapSubscriptions.
  destruct (ta_subscriptions tenant) as [[|sub subs]|].
  2:{ apply Forall_forall. intros s Hs. apply list_elem_of_fmap in Hs as (x & -> & _).
      reflexivity. }
  all: destruct (0 <? length (imap (fromEntry line tenant) _))%nat;
    [apply Forall_forall; intros s Hs; apply elem_of_imap_inv in Hs as (i & x & ->);
     reflexivity|];
    destruct (0 <? length (imap (fromConnector line tenant) _))%nat;
    [apply Forall_forall; intros s Hs; apply elem_of_imap_inv in Hs as (i & x & ->);
     reflexivity|];
    (constructor; [reflexivity|constructor]).
Qed.

Lemma sum_singleton (x : jsnum) : sum [x] = x.
Proof. rewrite sum_cons, sum_nil, add_zero_r. reflexivity. Qed.

(** X11.  A tenant without explicit subscriptions gets synthetic ones
    (from its flat entries, its connectors or its own fields): each has
    exactly one entry, which repeats the subscription's license
    quantity, amount and retail amount, and both amounts are numbers.
    For the aggregation the cost of such a subscription is therefore its
    own amount. *)
Theorem mapSubscriptions_synthetic (line : LineApi) (tenant : TenantApi) :
  default [] (ta_subscriptions tenant) = [] ->
  Forall (fun sub =>
            (exists e, s_entries sub = [e] /\
                       e_licensQuantity e = s_licensQuantity sub /\
                       e_amount e = s_amount sub /\
                       e_retailAmount e = s_retailAmount sub) /\
            is_Some (s_amount sub) /\ is_Some (s_retailAmount sub) /\
            subCost sub = default zero (s_amount sub))
         (mapSubscriptions line tenant).
Proof.
  intros Hsubs.
  assert (Hcost : forall sub e a,
             s_entries sub = [e] -> e_amount e = Some a -> s_amount sub = Some a ->
             subCost sub = default zero (s_amount sub)).
  { intros sub e a He Ha Hs. unfold subCost. rewrite He, Hs. cbn [fmap list_fmap].
    rewrite sum_singleton. unfold entryAmount. rewrite Ha. cbv [default from_option id].
    destruct (gt a zero); reflexivity. }
  assert (H2 : forall i e, let sub := fromEntry line tenant i e in
             (exists e, s_entries sub = [e] /\ e_licensQuantity e = s_licensQuantity sub /\
                        e_amount e = s_amount sub /\ e_retailAmount e = s_retailAmount sub) /\
             is_Some (s_amount sub) /\ is_Some (s_retailAmount sub) /\
             subCost sub = default zero (s_amount sub)).
  { intros i e. cbv zeta. split_and!.
    - eexists. split; [reflexivity|]. split_and!; reflexivity.
    - eexists; reflexivity.
    - eexists; reflexivity.
    - eapply Hcost; reflexivity. }
  assert (H3 : forall i c, let sub := fromConnector line tenant i c in
             (exists e, s_entries sub = [e] /\ e_licensQuantity e = s_licensQuantity sub /\
                        e_amount e = s_amount sub /\ e_retailAmount e = s_retailAmount sub) /\
             is_Some (s_amount sub) /\ is_Some (s_retailAmount sub) /\
             subCost sub = default zero (s_amount sub)).
  { intros i c. cbv zeta. split_and!.
    - eexists. split; [reflexivity|]. split_and!; reflexivity.
    - eexists; reflexivity.
    - eexists; reflexivity.
    - eapply Hcost; reflexivity. }
  assert (H4 : let sub := fromTenant line tenant in
             (exists e, s_entries sub = [e] /\ e_licensQuantity e = s_licensQuantity sub /\
                        e_amount e = s_amount sub /\ e_retailAmount e = s_retailAmount sub) /\
             is_Some (s_amount sub) /\ is_Some (s_retailAmount sub) /\
             subCost sub = default zero (s_amount sub)).
  { cbv zeta. split_and!.
    - eexists. split; [reflexivity|]. unfold fromTenant, buildEntry.
      cbn [s_licensQuantity s_amount s_retailAmount e_licensQuantity e_amount
           e_retailAmount ea_licensQuantity ea_quantity ea_amount ea_retailAmount].
      split_and!; try reflexivity. destruct (ta_quantity tenant); reflexivity.
    - eexists; reflexivity.
    - eexists; reflexivity.
    - eapply Hcost; reflexivity. }
  unfold mapSubscriptions.
  destruct (ta_subscriptions tenant) as [[|sub subs]|]; [|discriminate Hsubs|].
  all: destruct (0 <? length (imap (fromEntry line tenant) _))%nat;
    [apply Forall_forall; intros s Hs; apply elem_of_imap_inv in Hs as (i & x & ->);
     apply H2|];
    destruct (0 <? length (imap (fromConnector line tenant) _))%nat;
    [apply Forall_forall; intros s Hs; apply elem_of_imap_inv in Hs as (i & x & ->);
     apply H3|];
    (constructor; [apply H4|constructor]).
Qed.

Lemma mapSubscriptions_synthetic_witness :
  Forall (fun sub => subCost sub = default zero (s_amount sub))
         (mapSubscriptions exampleLineApi exampleTenantApi).
Proof.
  eapply Forall_impl; [apply (mapSubscriptions_synthetic exampleLineApi exampleTenantApi);
                       reflexivity|].
  intros sub (_ & _ & _ & H). exact H.
Defined.

Lemma map_imap_ext {A B C : Type} (g : B -> C) (h : A -> C) (l : list A) :
  forall b : nat -> A -> B,
    (forall i x, g (b i x) = h x) -> map g (imap b l) = map h l.
Proof.
  induction l as [|x l IH]; intros b Hb; cbn [imap map]; [reflexivity|].
  rewrite Hb. f_equal. apply IH. intros i y. apply Hb.
Qed.

(** X12.  The license quantity of an explicit subscription is the one
    of the payload when there is one; otherwise it is the sum, over the
    subscription's entries, of [licensQuantity ?? quantity ?? 0], and
    when that sum is zero or not a number, the number of entries (zero
    for a subscription without entries). *)
Theorem fromSubscription_licenses (line : LineApi) (sub : SubscriptionApi) :
  let apiEntries := default [] (sa_entries sub) in
  let derived := sum (map apiEntryLicenses apiEntries) in
  s_licensQuantity (fromSubscription line sub)
  = Some (match sa_licensQuantity sub with
          | Some q => q
          | None => if truthy derived then derived else ofNat (length apiEntries)
          end) /\
  length (s_entries (fromSubscription line sub)) = length apiEntries.
Proof.
  cbv zeta. unfold fromSubscription. cbn [s_licensQuantity s_entries].
  unfold mapSubscriptionEntries. rewrite length_imap. split; [|reflexivity].
  f_equal. destruct (sa_licensQuantity sub) as [q|]; [reflexivity|].
  cbv [default from_option id]. fold (default [] (sa_entries sub)).
  unfold sumEntryLicenses.
  rewrite (fold_add_map
             (fun entry => default (default zero (e_quantity entry))
                                   (e_licensQuantity entry))).
  fold (sum (map (fun entry => default (default zero (e_quantity entry))
                                       (e_licensQuantity entry))
                 (imap (fun idx entry =>
                          buildEntry entry
                            (default (default (sa_id sub +:+ "-entry-" +:+ nat_to_string idx)
                                              (ea_skuId entry)) (ea_productId entry))
                            (default (default (default "Line item" (sa_description sub))
                                              (ea_nickname entry)) (ea_description entry)))
                       (default [] (sa_entries sub))))).
  rewrite (map_imap_ext _ apiEntryLicenses) by reflexivity.
  destruct (truthy _); [reflexivity|].
  destruct (sa_entries sub) as [[|e es]|]; reflexivity.
Qed.

(** ** The mapper feeding the aggregation *)

Lemma resolveVendorName_billingType (sub : InvoiceSubscriptionBreakdown) (btd : string) :
  s_billingTypeDescription sub = Some btd -> trim btd <> "" ->
  resolveVendorName sub = trim btd.
Proof.
  intros Hb Hne. unfold resolveVendorName. rewrite Hb. cbn [fmap option_fmap option_map].
  destruct (trim btd); [congruence|reflexivity].
Qed.

Lemma filter_all {A : Type} (p : A -> bool) (l : list A) :
  Forall (fun x => p x = true) l -> List.filter p l = l.
Proof.
  induction 1 as [|x l Hx _ IH]; cbn [List.filter]; [reflexivity|].
  rewrite Hx, IH. reflexivity.
Qed.

Lemma aggregate_single_vendor (localeCompare : string -> string -> Z)
    (l : list InvoiceSubscriptionBreakdown) (v : string) :
  l <> [] -> Forall (fun sub => resolveVendorName sub = v) l ->
  exists ps,
    aggregateVendorsFromSubscriptions localeCompare l
    = [ {| vendorName := v;
           totalLicenses := sum (subLicenses <$> l);
           totalAmount := sum ((fun sub => getAmountForVendor sub v) <$> l);
           products := ps |} ].
Proof.
  intros Hne Hall.
  pose proof (result_vendor_names localeCompare l) as Hperm.
  pose proof (aggregate_vendor_totals localeCompare l v) as Htot.
  assert (Hnames : vendorName <$> aggregateVendorsFromSubscriptions localeCompare l = [v]).
  { apply NoDup_all_equal.
    - rewrite Hperm. apply aggState_keyed.
    - intros Hnil. destruct l as [|s l]; [congruence|].
      assert (Hin : resolveVendorName s ∈ (aggState (s :: l)).*1).
      { apply aggState_key_iff. exists s. split; [left|reflexivity]. }
      rewrite <- Hperm, Hnil in Hin. inversion Hin.
    - intros y Hy. rewrite Hperm in Hy. apply aggState_key_iff in Hy as (s & Hs & <-).
      rewrite Forall_forall in Hall. apply Hall, Hs. }
  destruct (aggregateVendorsFromSubscriptions localeCompare l) as [|av [|av' r]];
    try discriminate Hnames.
  cbn [fmap list_fmap] in Hnames. injection Hnames as Hv.
  unfold findVendor in Htot. cbn [List.find] in Htot.
  rewrite (bool_decide_eq_true_2 _ Hv) in Htot.
  rewrite filter_all in Htot.
  2:{ eapply Forall_impl; [exact Hall|]. intros s Hs. unfold ofVendor.
      apply bool_decide_eq_true_2, Hs. }
  destruct l as [|s l]; [congruence|].
  cbn [fmap option_fmap option_map vendorBucket] in Htot. injection Htot as Hl Ha.
  clear Hperm. exists (products av). destruct av as [n tl ta ps].
  cbn [vendorName totalLicenses totalAmount products] in *. subst n.
  rewrite Hl, Ha. do 2 f_equal. f_equal.
  change (subAmount s :: list_fmap _ _ subAmount l) with (subAmount <$> s :: l).
  apply Forall_fmap_ext. eapply Forall_impl; [exact Hall|].
  intros sub Hs. unfold subAmount. rewrite Hs. reflexivity.
Qed.

Lemma mapSubscriptions_nonempty (line : LineApi) (tenant : TenantApi) :
  mapSubscriptions line tenant <> [].
Proof.
  unfold mapSubscriptions.
  destruct (ta_subscriptions tenant) as [[|sub subs]|]; try discriminate;
    destruct (ta_entries tenant) as [[|e es]|]; try discriminate;
    destruct (ta_connectors tenant) as [[|c cs]|]; discriminate.
Qed.

(** X13.  When the invoice line has a billing type description that is
    not blank, the aggregation of a mapped tenant has exactly one vendor
    row: its name is the trimmed billing type description, whatever the
    product labels say, and its totals are the license quantities and
    the amounts of all the tenant's subscriptions, each amount on the
    basis of that vendor. *)
Theorem mapped_tenant_single_vendor (localeCompare : string -> string -> Z)
    (line : LineApi) (tenant : TenantApi) (btd : string) :
  la_billingTypeDescription line = Some btd -> trim btd <> "" ->
  let subs := mapSubscriptions line tenant in
  exists ps,
    aggregateVendorsFromSubscriptions localeCompare subs
    = [ {| vendorName := trim btd;
           totalLicenses := sum ((fun sub => default zero (s_licensQuantity sub)) <$> subs);
           totalAmount := sum ((fun sub => getAmountForVendor sub (trim btd)) <$> subs);
           products := ps |} ].
Proof.
  intros Hb Hne. cbv zeta.
  apply (aggregate_single_vendor localeCompare (mapSubscriptions line tenant) (trim btd)).
  - apply mapSubscriptions_nonempty.
  - eapply Forall_impl; [apply mapSubscriptions_billingType|].
    intros sub Hs. apply resolveVendorName_billingType; [|exact Hne].
    cbn beta in Hs. rewrite Hs. exact Hb.
Qed.

Lemma mapped_tenant_single_vendor_witness :
  vendorName <$> aggregateVendorsFromSubscriptions codeUnitCompare
                   (mapSubscriptions exampleLineApi exampleTenantApi)
  = ["Microsoft"].
Proof.
  destruct (mapped_tenant_single_vendor codeUnitCompare exampleLineApi exampleTenantApi
              "Microsoft " eq_refl) as (ps & ->).
  - discriminate.
  - reflexivity.
Defined.

(** ** The invoice detail as a whole *)

Lemma mapTenants_length (lines : list LineApi) :
  length (mapTenants lines)
  = sum_list_with (fun line => length (default [] (la_tenants line))) lines.
Proof.
  unfold mapTenants. induction lines as [|line lines IH]; [reflexivity|].
  cbn [mbind list_bind sum_list_with]. rewrite length_app, length_fmap.
  f_equal. exact IH.
Qed.

Lemma mapTenants_subscriptions (lines : list LineApi) :
  Forall (fun t => t_subscriptions t <> []) (mapTenants lines).
Proof.
  unfold mapTenants. apply Forall_forall. intros t Ht.
  apply list_elem_of_bind in Ht as (line & Ht & _).
  apply list_elem_of_fmap in Ht as (tenant & -> & _).
  apply mapSubscriptions_nonempty.
Qed.

(** X14.  In the mapped invoice detail the tenant list is either absent
    or non-empty, never an empty list: it is absent exactly when no line
    has a tenant.  It holds one tenant per tenant of the payload, over
    all lines in line order, and every tenant has at least one
    subscription.  The lines are kept one to one, and the status is the
    derived one. *)
Theorem mapInvoiceDetail_tenants (today : string) (api : InvoiceDetailApi) :
  let detail := mapInvoiceDetail today api in
  let tenantsOf line := default [] (la_tenants (dl_line line)) in
  (det_tenants detail = None <-> Forall (fun line => tenantsOf line = []) (da_lines api)) /\
  det_tenants detail <> Some [] /\
  length (default [] (det_tenants detail))
    = sum_list_with (fun line => length (tenantsOf line)) (da_lines api) /\
  Forall (fun t => t_subscriptions t <> []) (default [] (det_tenants detail)) /\
  length (det_lines detail) = length (da_lines api) /\
  status (det_invoice detail)
    = mapStatus today (da_remainingAmountIncludingVAT api) (da_dueDate api).
Proof.
  cbv zeta. unfold mapInvoiceDetail. cbn [det_tenants det_lines det_invoice status].
  pose proof (mapTenants_length (dl_line <$> da_lines api)) as Hlen.
  pose proof (mapTenants_subscriptions (dl_line <$> da_lines api)) as Hsub.
  assert (Hsum : sum_list_with (fun line => length (default [] (la_tenants line)))
                   (dl_line <$> da_lines api)
                 = sum_list_with (fun line => length (default [] (la_tenants (dl_line line))))
                     (da_lines api)).
  { clear. induction (da_lines api) as [|x l IH]; [reflexivity|].
    cbn [fmap list_fmap sum_list_with]. f_equal. exact IH. }
  rewrite Hsum in Hlen. clear Hsum.
  assert (Hzero : sum_list_with (fun line => length (default [] (la_tenants (dl_line line))))
                    (da_lines api) = 0%nat
                  <-> Forall (fun line => default [] (la_tenants (dl_line line)) = [])
                        (da_lines api)).
  { clear. induction (da_lines api) as [|x l IH]; cbn [sum_list_with].
    - split; [constructor|reflexivity].
    - rewrite Forall_cons, <- IH.
      destruct (default [] (la_tenants (dl_line x))); cbn [length]; split.
      + intros H. split; [reflexivity|exact H].
      + intros [_ H]. exact H.
      + discriminate.
      + intros [H _]. discriminate H. }
  set (tenants := mapTenants (dl_line <$> da_lines api)) in *.
  destruct tenants as [|t ts]; cbn [length Nat.ltb Nat.leb default from_option].
  - split_and!; try reflexivity; try discriminate.
    + split; [intros _; apply Hzero; symmetry; exact Hlen|reflexivity].
    + exact Hlen.
    + constructor.
    + apply length_fmap.
  - split_and!; try reflexivity; try discriminate.
    + split; [discriminate|]. intros H. apply Hzero in H. rewrite H in Hlen.
      discriminate Hlen.
    + exact Hlen.
    + exact Hsub.
    + apply length_fmap.
Qed.

(** ** The invoice list feeding the metrics *)

Lemma filter_fmap_comm {A B : Type} (f : A -> B) (p : B -> bool) (l : list A) :
  List.filter p (f <$> l) = f <$> List.filter (fun x => p (f x)) l.
Proof.
  induction l as [|x l IH]; cbn [fmap list_fmap List.filter]; [reflexivity|].
  destruct (p (f x)); cbn [fmap list_fmap]; rewrite IH; reflexivity.
Qed.

Lemma map_fmap_comp {A B C : Type} (f : A -> B) (g : B -> C) (l : list A) :
  map g (f <$> l) = map (fun x => g (f x)) l.
Proof. induction l as [|x l IH]; cbn [fmap list_fmap map]; [reflexivity|]. rewrite IH. reflexivity. Qed.

(** X15.  On the invoices of the list mapper the open figures follow the
    remaining balance, but count whole invoices: [balanceDue] is the sum
    of the full amounts (not of the remaining balances) of the invoices
    whose remaining balance is not exactly zero, [openInvoiceCount] the
    number of these invoices, and [overdueAmount] the sum over those of
    them whose due date is before today as a string. *)
Theorem metrics_of_mapped_invoices (today nowIso : string) (apis : list ApiInvoice)
    (mode : BillingAmountMode) :
  let m := calculateBillingMetrics nowIso (mapInvoice today <$> apis) mode in
  let open inv := negb (strict_eq (api_remainingAmountIncludingVAT inv) zero) in
  let overdue inv := open inv && str_lt (api_dueDate inv) today in
  totalInvoiced m = sum (map (apiAmount mode) apis) /\
  balanceDue m = sum (map (apiAmount mode) (List.filter open apis)) /\
  openInvoiceCount m = ofNat (length (List.filter open apis)) /\
  overdueAmount m = sum (map (apiAmount mode) (List.filter overdue apis)).
Proof.
  cbv zeta.
  destruct (metrics_fields nowIso (mapInvoice today <$> apis) mode)
    as (Ht & Hb & Ho & _ & _ & Hn).
  rewrite Ht, Hb, Ho, Hn, !filter_fmap_comm, !map_fmap_comp, length_fmap.
  assert (Hamt : forall inv, invoiceAmount mode (mapInvoice today inv) = apiAmount mode inv)
    by (intros inv; destruct mode; reflexivity).
  assert (Hext : forall l, map (fun x => invoiceAmount mode (mapInvoice today x)) l
                           = map (apiAmount mode) l)
    by (intros l; apply map_ext, Hamt).
  rewrite !Hext.
  rewrite (filter_ext_in (fun x => isOpen (mapInvoice today x))
             (fun inv => negb (strict_eq (api_remainingAmountIncludingVAT inv) zero))).
  2:{ intros inv. unfold isOpen, mapInvoice, mapStatus_list. cbn [status].
      destruct (strict_eq _ zero); [reflexivity|]. destruct (str_lt _ _); reflexivity. }
  rewrite (filter_ext_in (fun x => hasStatus Overdue (mapInvoice today x))
             (fun inv => negb (strict_eq (api_remainingAmountIncludingVAT inv) zero)
                         && str_lt (api_dueDate inv) today)).
  2:{ intros inv. unfold hasStatus, mapInvoice, mapStatus_list. cbn [status].
      destruct (strict_eq _ zero); [reflexivity|]. destruct (str_lt _ _); reflexivity. }
  split_and!; reflexivity.
Qed.

(** ** The discount store as a map of last writes *)

Lemma storedRate_set (tenantId vendorName productName : option string)
    (rate : option jsnum) (prev : TenantDiscountState) (t k : string) :
  storedRate (setDiscountRate tenantId vendorName productName rate prev) t k
  = if bool_decide (nonEmpty tenantId = Some t /\
                    makeProductKey vendorName productName = k)
    then effectiveRate rate else storedRate prev t k.
Proof.
  unfold setDiscountRate. destruct (nonEmpty tenantId) as [t0|] eqn:Ht.
  2:{ rewrite bool_decide_eq_false_2; [reflexivity|]. intros [H _]. discriminate H. }
  cbv zeta.
  assert (Hcond : bool_decide (Some t0 = Some t /\
                               makeProductKey vendorName productName = k)
                  = bool_decide (t = t0 /\ k = makeProductKey vendorName productName)).
  { apply bool_decide_ext. split.
    - intros [H1 H2]. injection H1 as ->. auto.
    - intros [-> ->]. auto. }
  rewrite Hcond. destruct rate as [r|]; cbn [effectiveRate].
  - destruct (isNaN r); [apply storedRate_remove|apply storedRate_update].
  - apply storedRate_remove.
Qed.

Lemma normalizeRate_valid (r : jsnum) : isNaN r = false -> validRate (normalizeRate r).
Proof.
  destruct r as [q|]; [intros _|discriminate].
  destruct (normalizeRate_finite q) as (c & n & _ & Hn & Hr & _).
  exists n. split; [exact Hr|exact Hn].
Qed.

Lemma removeRate_no_empty (t k : string) (prev : TenantDiscountState) :
  (forall t0, prev !! t0 <> Some ∅) -> forall t0, removeRate t k prev !! t0 <> Some ∅.
Proof.
  intros Hprev t0. unfold removeRate. cbv zeta.
  destruct (bool_decide (is_Some _)); [|apply Hprev].
  destruct (decide (delete k (default ∅ (prev !! t)) = ∅)) as [He|He].
  - rewrite (bool_decide_eq_true_2 _ He). destruct (decide (t0 = t)) as [->|Hne].
    + rewrite lookup_delete_eq. discriminate.
    + rewrite lookup_delete_ne by congruence. apply Hprev.
  - rewrite (bool_decide_eq_false_2 _ He). destruct (decide (t0 = t)) as [->|Hne].
    + rewrite lookup_insert_eq. congruence.
    + rewrite lookup_insert_ne by congruence. apply Hprev.
Qed.

Lemma setDiscountRate_valid (tenantId vendorName productName : option string)
    (rate : option jsnum) (prev : TenantDiscountState) :
  storeValid prev -> storeValid (setDiscountRate tenantId vendorName productName rate prev).
Proof.
  intros [Hrates Hempty]. split.
  - intros t k r. rewrite storedRate_set. destruct (bool_decide _); [|apply Hrates].
    destruct rate as [x|]; cbn [effectiveRate]; [|discriminate].
    destruct (isNaN x) eqn:Hx; [discriminate|]. intros [= <-].
    apply normalizeRate_valid, Hx.
  - unfold setDiscountRate. destruct (nonEmpty tenantId) as [t0|]; [|exact Hempty].
    cbv zeta. destruct rate as [x|]; [destruct (isNaN x)|];
      try (apply removeRate_no_empty; exact Hempty).
    intros t. destruct (decide (t = t0)) as [->|Hne].
    + rewrite lookup_insert_eq. intros [= H]. revert H. apply insert_non_empty.
    + rewrite lookup_insert_ne by congruence. apply Hempty.
Qed.

(** X16.  Whatever calls are made on an empty store, in whatever order
    and with whatever arguments, every rate it then holds has two
    decimals and lies between 0 and 100, and no tenant is left with an
    empty set of products: removing the last rate of a tenant removes
    the tenant. *)
Theorem discount_store_invariant (ops : list DiscountOp) :
  let st := applyOps ops ∅ in
  (forall t k r, storedRate st t k = Some r ->
                 exists n : Z, 0 <= n <= 10000 /\ r = dec n 100) /\
  (forall t, st !! t <> Some ∅).
Proof.
  cbv zeta. unfold applyOps.
  apply (fold_left_invariant storeValid).
  - split; [|intros t; rewrite lookup_empty; discriminate].
    intros t k r. unfold storedRate. rewrite lookup_empty. discriminate.
  - intros st op Hst. apply setDiscountRate_valid, Hst.
Qed.

(** X17.  The store behaves as a map from the pair of a tenant id and a
    product key to the last write: after any sequence of calls, the rate
    read under a pair is what the last call on that pair left (its
    normalised rate, or nothing for [null] and [NaN]), and the stored
    rate from before when no call wrote to the pair.  Calls without a
    tenant id write nowhere. *)
Theorem discount_store_last_write (ops : list DiscountOp)
    (st : TenantDiscountState) (t k : string) :
  storedRate (applyOps ops st) t k
  = match lastWrite t k ops with
    | Some op => effectiveRate (op_rate op)
    | None => storedRate st t k
    end.
Proof.
  induction ops as [|op ops IH] using rev_ind; [reflexivity|].
  unfold applyOps, lastWrite. rewrite !fold_left_app. cbn [fold_left].
  fold (applyOps ops st). fold (lastWrite t k ops).
  unfold applyOp. rewrite storedRate_set.
  change (bool_decide _) with (writesTo t k op).
  destruct (writesTo t k op); [reflexivity|exact IH].
Qed.

(** ** Normalising a rate twice *)

Lemma normalizeRate_dec (n : Z) :
  0 <= n <= 10000 -> normalizeRate (dec n 100) = dec n 100.
Proof.
  intros Hn. unfold dec. set (q := Q2Qc (n # 100)).
  assert (Hq : (this q == n # 100)%Q) by (unfold q; cbn [this Q2Qc]; apply Qred_correct).
  destruct (normalizeRate_finite q) as (c & m & Hc & Hm & _ & Hlo & Hhi).
  destruct (clampRate_finite q) as (c' & Hc' & _ & _ & Hid & _).
  rewrite Hc in Hc'. injection Hc' as <-.
  assert (Hcq : c = q).
  { apply Hid.
    - unfold Qcle. cbn [this Q2Qc]. rewrite Qred_correct, Hq. unfold Qle. cbn. lia.
    - unfold Qcle. cbn [this Q2Qc]. rewrite Qred_correct, Hq. unfold Qle. cbn. lia. }
  subst c. rewrite Hm. rewrite Hq in Hlo, Hhi.
  assert (m = n).
  { unfold Qle, Qlt, Qminus, Qplus, Qmult, Qopp, inject_Z in Hlo, Hhi.
    cbn in Hlo, Hhi. lia. }
  subst m. reflexivity.
Qed.

(** X19.  Normalising a rate is idempotent: a rate that has been
    clamped and rounded to two decimals is left as it is by clamping and
    rounding it again, so the service, which normalises the rate the
    hook has already normalised, stores the very value the hook keeps.
    The result of normalising a number is a number with two decimals
    between 0 and 100. *)
Theorem normalizeRate_idempotent (r : jsnum) :
  normalizeRate (normalizeRate r) = normalizeRate r /\
  (isNaN r = false ->
   exists n : Z, 0 <= n <= 10000 /\ normalizeRate r = dec n 100).
Proof.
  split.
  - destruct r as [q|]; [|reflexivity].
    destruct (normalizeRate_finite q) as (c & n & _ & Hn & Hr & _).
    rewrite Hn. apply normalizeRate_dec, Hr.
  - intros Hr. apply normalizeRate_valid, Hr.
Qed.

(** ** The product key of a discount *)

Lemma includes_colon_cons (c : ascii) (r : string) :
  includes ":" (String c r) = bool_decide (c = ":"%char) || includes ":" r.
Proof.
  cbn [includes String.prefix].
  destruct (ascii_dec ":" c) as [<-|Hne].
  - rewrite bool_decide_eq_true_2 by reflexivity. destruct r; reflexivity.
  - rewrite bool_decide_eq_false_2 by congruence. reflexivity.
Qed.

Lemma lower_char_colon (c : ascii) : lower_char c = ":"%char <-> c = ":"%char.
Proof.
  destruct c as [[] [] [] [] [] [] [] []]; vm_compute; split; congruence.
Qed.

Lemma noColon_lower (s : string) : noColon s -> noColon (toLowerCase s).
Proof.
  unfold noColon. induction s as [|c s IH]; [reflexivity|].
  cbn [toLowerCase]. rewrite !includes_colon_cons. intros H.
  apply orb_false_elim in H as [Hc Hs]. rewrite (IH Hs), orb_false_r.
  apply bool_decide_eq_false_2. apply bool_decide_eq_false_1 in Hc.
  rewrite lower_char_colon. exact Hc.
Qed.

Lemma colon_split_unique (a a' x x' : string) :
  noColon a -> noColon a' ->
  a +:+ String ":" x = a' +:+ String ":" x' -> a = a' /\ x = x'.
Proof.
  unfold noColon. revert a'. induction a as [|c a IH]; intros [|c' a'] Ha Ha' Heq.
  - change (String ":" x = String ":" x') in Heq. injection Heq as ->. auto.
  - change (String ":" x = String c' (a' +:+ String ":" x')) in Heq.
    injection Heq as <- _. rewrite includes_colon_cons in Ha'.
    rewrite bool_decide_eq_true_2 in Ha' by reflexivity. discriminate Ha'.
  - change (String c (a +:+ String ":" x) = String ":" x') in Heq.
    injection Heq as -> _. rewrite includes_colon_cons in Ha.
    rewrite bool_decide_eq_true_2 in Ha by reflexivity. discriminate Ha.
  - change (String c (a +:+ String ":" x) = String c' (a' +:+ String ":" x')) in Heq.
    injection Heq as -> Heq. rewrite includes_colon_cons in Ha, Ha'.
    apply orb_false_elim in Ha as [_ Ha]. apply orb_false_elim in Ha' as [_ Ha'].
    destruct (IH a' Ha Ha' Heq) as [-> ->]. auto.
Qed.

Lemma makeProductKey_lower (v p : string) :
  makeProductKey (Some v) (Some p)
  = toLowerCase v +:+ String ":" (String ":" (toLowerCase p)).
Proof.
  unfold makeProductKey. cbv [default from_option id].
  rewrite !toLowerCase_app. reflexivity.
Qed.

Lemma string_app_assoc (a b c : string) : (a +:+ b) +:+ c = a +:+ (b +:+ c).
Proof.
  induction a as [|x a IH]; [reflexivity|].
  change (String x ((a +:+ b) +:+ c) = String x (a +:+ (b +:+ c))). rewrite IH. reflexivity.
Qed.

(** X18.  The product key of a discount ignores letter case: names
    that agree up to case give one key, and so one stored rate.  The key
    is in lower case already.  It identifies the pair of names up to
    case whenever the vendor names contain no colon; with a colon it
    does not, since the vendor [a::b] with the product [c] and the
    vendor [a] with the product [b::c] share their key. *)
Theorem makeProductKey_properties (v v' p p' : string) :
  (toLowerCase v = toLowerCase v' -> toLowerCase p = toLowerCase p' ->
   makeProductKey (Some v) (Some p) = makeProductKey (Some v') (Some p') /\
   forall discounts tenantId,
     getDiscountRate discounts tenantId (Some v) (Some p)
     = getDiscountRate discounts tenantId (Some v') (Some p')) /\
  toLowerCase (makeProductKey (Some v) (Some p)) = makeProductKey (Some v) (Some p) /\
  (noColon v -> noColon v' ->
   (makeProductKey (Some v) (Some p) = makeProductKey (Some v') (Some p')
    <-> toLowerCase v = toLowerCase v' /\ toLowerCase p = toLowerCase p')) /\
  makeProductKey (Some (v +:+ "::" +:+ p)) (Some p')
  = makeProductKey (Some v) (Some (p +:+ "::" +:+ p')).
Proof.
  split_and!.
  - intros Hv Hp.
    assert (Hk : makeProductKey (Some v) (Some p) = makeProductKey (Some v') (Some p'))
      by (rewrite !makeProductKey_lower, Hv, Hp; reflexivity).
    split; [exact Hk|]. intros discounts tenantId. unfold getDiscountRate.
    cbv zeta. rewrite Hk. reflexivity.
  - unfold makeProductKey. apply toLowerCase_idem.
  - intros Hv Hv'. rewrite !makeProductKey_lower. split.
    + intros Heq. apply colon_split_unique in Heq as [Ha Hb];
        [|apply noColon_lower, Hv|apply noColon_lower, Hv'].
      injection Hb as Hb. auto.
    + intros [-> ->]. reflexivity.
  - unfold makeProductKey. cbv [default from_option id]. f_equal.
    rewrite !string_app_assoc. reflexivity.
Qed.

(** ** The discount service *)

Lemma includes_separator (a b : string) : includes "::" (a +:+ "::" +:+ b) = true.
Proof.
  induction a as [|c a IH].
  - change ("" +:+ "::" +:+ b) with (String ":" (String ":" b)).
    cbn [includes String.prefix]. destruct (ascii_dec ":" ":"); [|congruence].
    destruct b; reflexivity.
  - change (String c a +:+ "::" +:+ b) with (String c (a +:+ "::" +:+ b)).
    cbn [includes]. rewrite IH. apply orb_true_r.
Qed.

Lemma stringField_trimmed (v : jsval) : trim (stringField v) = stringField v.
Proof. destruct v; cbn [stringField]; try reflexivity. apply trim_idem. Qed.

Lemma parseBody_rate_valid (body : RequestBody) (r : jsnum) :
  pb_rate (parseBody body) = Some r -> validRate r.
Proof.
  unfold parseBody. cbn [pb_rate]. destruct (body_rate body) as [| |x|]; try discriminate.
  destruct (isNaN x) eqn:Hx; [discriminate|]. intros [= <-]. apply normalizeRate_valid, Hx.
Qed.

Lemma blank_false (s : string) : blank s = false -> s <> "".
Proof. unfold blank. apply bool_decide_eq_false_1. Qed.

Lemma parsedKey_valid (body : RequestBody) (rate : jsnum) (db : DiscountTable) :
  missingNames (parseBody body) = false -> pb_rate (parseBody body) = Some rate ->
  tableValid db -> tableValid (<[parsedKey (parseBody body) := rate]> db).
Proof.
  intros Hnames Hrate Hdb t k r Hlook.
  destruct (decide ((t, k) = parsedKey (parseBody body))) as [Heq|Hne].
  - rewrite Heq, lookup_insert_eq in Hlook. injection Hlook as <-.
    unfold parsedKey in Heq. injection Heq as -> ->.
    unfold missingNames in Hnames.
    apply orb_false_elim in Hnames as [Hnames _].
    apply orb_false_elim in Hnames as [Ht _].
    split_and!.
    + apply blank_false, Ht.
    + apply stringField_trimmed.
    + unfold makeProductKey. apply toLowerCase_idem.
    + unfold makeProductKey. cbv [default from_option id].
      rewrite !toLowerCase_app. apply includes_separator.
    + eapply parseBody_rate_valid, Hrate.
  - rewrite lookup_insert_ne in Hlook by congruence. exact (Hdb t k r Hlook).
Qed.

Lemma handle_valid (m : Method) (body : RequestBody) (db : DiscountTable) :
  tableValid db -> tableValid (handle m body db).2.
Proof.
  intros Hdb.
  destruct m; cbn [handle]; unfold handlePost, handlePatch, handlePut, handleDelete;
    cbv zeta; destruct (missingNames (parseBody body)) eqn:Hn; try exact Hdb.
  - destruct (pb_rate (parseBody body)) as [rate|] eqn:Hr; [|exact Hdb].
    destruct (db !! _); [exact Hdb|]. apply parsedKey_valid; assumption.
  - destruct (pb_rate (parseBody body)) as [rate|] eqn:Hr; [|exact Hdb].
    destruct (db !! _); [|exact Hdb]. apply parsedKey_valid; assumption.
  - destruct (pb_rate (parseBody body)) as [rate|] eqn:Hr; [|exact Hdb].
    apply parsedKey_valid; assumption.
  - cbn [snd]. intros t k r Hlook.
    destruct (decide ((t, k) = parsedKey (parseBody body))) as [Heq|Hne].
    + rewrite Heq, lookup_delete_eq in Hlook. discriminate.
    + rewrite lookup_delete_ne in Hlook by congruence. exact (Hdb t k r Hlook).
Qed.

(** X21.  Whatever requests the service has answered since the table
    was empty, every row it holds has a tenant id that is not empty and
    has no white space around it, a product key that is in lower case and
    holds the separator, and a rate with two decimals between 0 and
    100. *)
Theorem service_table_invariant (requests : list (Method * RequestBody)) :
  forall t k r, serveAll requests ∅ !! (t, k) = Some r ->
    t <> "" /\ trim t = t /\ toLowerCase k = k /\ includes "::" k = true /\
    exists n : Z, 0 <= n <= 10000 /\ r = dec n 100.
Proof.
  change (tableValid (serveAll requests ∅)). unfold serveAll.
  apply (fold_left_invariant tableValid).
  - intros t k r. rewrite lookup_empty. discriminate.
  - intros db req Hdb. apply handle_valid, Hdb.
Qed.

Lemma service_table_invariant_witness :
  serveAll [examplePut] ∅ !! ("tenant-1", "microsoft::m365") = Some (dec 3346 100) /\
  trim "tenant-1" = "tenant-1" /\
  toLowerCase "microsoft::m365" = "microsoft::m365".
Proof.
  assert (H : serveAll [examplePut] ∅ !! ("tenant-1", "microsoft::m365")
              = Some (dec 3346 100)) by reflexivity.
  destruct (service_table_invariant [examplePut] "tenant-1" "microsoft::m365"
              (dec 3346 100) H) as (_ & Ht & Hk & _).
  split_and!; assumption.
Defined.

(** X22.  The three writing methods reject the same bodies, and a
    rejected request (any status from 400 on) leaves the table as it
    was.  On a body that is accepted, PUT does what POST does when the
    row is missing and what PATCH does when the row exists, and the
    other of the two answers 404 or 409: POST never overwrites a row and
    PATCH never creates one.  After an accepted PUT the row holds the
    normalised rate of the body.  DELETE does not look at the rate,
    answers 204 whether or not there was a row, and leaves no row. *)
Theorem service_methods (body : RequestBody) (db : DiscountTable) :
  let key := parsedKey (parseBody body) in
  (forall m, 400 <= (handle m body db).1 -> (handle m body db).2 = db) /\
  ((handlePut body db).1 = 400 <->
     missingNames (parseBody body) = true \/ pb_rate (parseBody body) = None) /\
  ((handlePut body db).1 = 400 ->
     (handlePost body db).1 = 400 /\ (handlePatch body db).1 = 400) /\
  ((handlePut body db).1 <> 400 ->
     (handlePut body db).1 = 200 /\
     (handlePut body db).2 !! key = pb_rate (parseBody body) /\
     match db !! key with
     | None =>
         handlePost body db = (201, (handlePut body db).2) /\
         handlePatch body db = (404, db)
     | Some _ =>
         handlePatch body db = handlePut body db /\
         handlePost body db = (409, db)
     end) /\
  (missingNames (parseBody body) = false ->
     (handleDelete body db).1 = 204 /\
     (handleDelete body db).2 !! key = None /\
     handleDelete body (handleDelete body db).2 = handleDelete body db) /\
  (forall rate, handleDelete {| body_tenantId := body_tenantId body;
                                body_vendorName := body_vendorName body;
                                body_productName := body_productName body;
                                body_rate := rate |} db
                = handleDelete body db).
Proof.
  cbv zeta. unfold handlePost, handlePatch, handlePut, handleDelete. cbv zeta.
  split_and!.
  - intros m. destruct m; cbn [handle];
      unfold handlePost, handlePatch, handlePut, handleDelete; cbv zeta;
      destruct (missingNames (parseBody body)); try reflexivity;
      try (destruct (pb_rate (parseBody body)); [|reflexivity]);
      try (destruct (db !! _); cbn [fst snd]; intros; try reflexivity; lia);
      cbn [fst snd]; intros; lia.
  - destruct (missingNames (parseBody body)); [cbn [fst]; intuition|].
    destruct (pb_rate (parseBody body)); cbn [fst]; split; intros H;
      try discriminate; auto.
    destruct H as [H|H]; discriminate H.
  - destruct (missingNames (parseBody body)); [auto|].
    destruct (pb_rate (parseBody body)); [discriminate|auto].
  - destruct (missingNames (parseBody body)); [cbn [fst]; congruence|].
    destruct (pb_rate (parseBody body)) as [rate|]; [|cbn [fst]; congruence].
    intros _. cbn [fst snd]. rewrite lookup_insert_eq.
    split_and!; try reflexivity. destruct (db !! _); split; reflexivity.
  - intros ->. cbn [fst snd]. rewrite lookup_delete_eq, delete_delete_eq.
    split_and!; reflexivity.
  - intros rate. reflexivity.
Qed.

(** ** The state that the service returns *)

Lemma mapRowsToState_plain (rows : list DiscountRow) :
  Forall (fun row => plainRow row = true) rows ->
  mapRowsToState rows = Some (fold_left rowInsert rows ∅).
Proof.
  unfold mapRowsToState. generalize (∅ : TenantDiscountState) as st.
  induction rows as [|row rows IH]; intros st Hall; [reflexivity|].
  apply Forall_cons in Hall as [Hrow Hall]. cbn [fold_left mbind option_bind].
  rewrite Hrow. apply IH, Hall.
Qed.

Lemma rows_lookup (rows : list DiscountRow) (t k : string) (r : jsnum) :
  NoDup (rowKey <$> rows) ->
  storedRate (fold_left rowInsert rows ∅) t k = Some r
  <-> {| row_tenant_id := t; row_product_key := k; row_rate := r |} ∈ rows.
Proof.
  induction rows as [|x rows IH] using rev_ind; intros Hnd.
  - cbn [fold_left]. unfold storedRate. rewrite lookup_empty, elem_of_nil.
    split; [discriminate|contradiction].
  - rewrite fmap_app in Hnd. apply NoDup_app in Hnd as (Hnd & Hx & _).
    rewrite fold_left_app. cbn [fold_left]. unfold rowInsert at 1.
    rewrite storedRate_update, elem_of_app, list_elem_of_singleton.
    destruct (decide (t = row_tenant_id x /\ k = row_product_key x)) as [[-> ->]|Hne].
    + rewrite bool_decide_eq_true_2 by auto. split.
      * intros [= <-]. right. destruct x; reflexivity.
      * intros [Hin| <-]; [|reflexivity]. exfalso.
        apply (Hx (rowKey x)).
        -- apply list_elem_of_fmap. eexists. split; [|exact Hin]. reflexivity.
        -- cbn [fmap list_fmap]. left.
    + rewrite bool_decide_eq_false_2 by exact Hne. rewrite (IH Hnd). split.
      * auto.
      * intros [Hin|Heq]; [exact Hin|]. exfalso. apply Hne. rewrite <- Heq. auto.
Qed.

Lemma rows_no_empty (rows : list DiscountRow) (st : TenantDiscountState) :
  (forall t, st !! t <> Some ∅) -> forall t, fold_left rowInsert rows st !! t <> Some ∅.
Proof.
  intros Hst.
  apply (fold_left_invariant (fun st : TenantDiscountState => forall t, st !! t <> Some ∅));
    [exact Hst|].
  intros m row Hm t. unfold rowInsert.
  destruct (decide (t = row_tenant_id row)) as [->|Hne].
  - rewrite lookup_insert_eq. intros [= H]. revert H. apply insert_non_empty.
  - rewrite lookup_insert_ne by congruence. apply Hm.
Qed.

(** X20.  The state that GET returns mirrors the table: when the rows
    read are the rows of the table, in any order, and no tenant id is a
    name that every object inherits, the rate found in the state under a
    tenant id and a product key is the rate of that row of the table,
    and nothing where the table has no such row; no tenant of the state
    has an empty set of products. *)
Theorem mapRowsToState_table (db : DiscountTable) (rows : list DiscountRow) :
  rows ≡ₚ tableRows db ->
  Forall (fun row => plainRow row = true) rows ->
  exists st,
    mapRowsToState rows = Some st /\
    (forall t k, storedRate st t k = db !! (t, k)) /\
    (forall t, st !! t <> Some ∅).
Proof.
  intros Hperm Hplain. exists (fold_left rowInsert rows ∅). split_and!.
  - apply mapRowsToState_plain, Hplain.
  - intros t k. apply option_eq. intros r.
    rewrite rows_lookup.
    + rewrite Hperm. unfold tableRows. rewrite list_elem_of_fmap. split.
      * intros ([[t' k'] r'] & Heq & Hin). cbn in Heq. injection Heq as -> -> ->.
        apply elem_of_map_to_list in Hin. exact Hin.
      * intros Hlook. exists ((t, k), r). split; [reflexivity|].
        apply elem_of_map_to_list. exact Hlook.
    + rewrite Hperm. unfold tableRows. rewrite <- list_fmap_compose.
      assert (Hfst : (rowKey ∘ (fun kv : string * string * jsnum =>
                                  {| row_tenant_id := kv.1.1; row_product_key := kv.1.2;
                                     row_rate := kv.2 |})) <$> map_to_list db
                     = (map_to_list db).*1).
      { apply list_fmap_ext. intros i [[t' k'] r'] _. reflexivity. }
      rewrite Hfst. apply NoDup_fst_map_to_list.
  - apply rows_no_empty. intros t. rewrite lookup_empty. discriminate.
Qed.

Lemma mapRowsToState_table_witness :
  exists st,
    mapRowsToState [ {| row_tenant_id := "tenant-1";
                        row_product_key := "microsoft::m365";
                        row_rate := ofZ 10 |} ] = Some st /\
    storedRate st "tenant-1" "microsoft::m365" = Some (ofZ 10).
Proof.
  destruct (mapRowsToState_table {[ ("tenant-1", "microsoft::m365") := ofZ 10 ]}
              [ {| row_tenant_id := "tenant-1"; row_product_key := "microsoft::m365";
                   row_rate := ofZ 10 |} ]) as (st & Hst & Hlook & _).
  - unfold tableRows. rewrite map_to_list_singleton. reflexivity.
  - repeat constructor.
  - exists st. split; [exact Hst|]. rewrite Hlook. apply lookup_singleton_eq.
Defined.

(** ** The hook and the service *)

Lemma nonEmpty_Some (t : string) : t <> "" -> nonEmpty (Some t) = Some t.
Proof. destruct t; [congruence|reflexivity]. Qed.

Lemma blank_trimmed (s : string) : trim s = s -> s <> "" -> blank (trim s) = false.
Proof. intros -> Hs. unfold blank. apply bool_decide_eq_false_2, Hs. Qed.

Lemma effectiveRate_fixed (rate : option jsnum) (r : jsnum) :
  effectiveRate rate = Some r -> isNaN r = false /\ normalizeRate r = r.
Proof.
  destruct rate as [x|]; cbn [effectiveRate]; [|discriminate].
  destruct (isNaN x) eqn:Hx; [discriminate|]. intros [= <-].
  destruct (normalizeRate_valid x Hx) as (n & Hn & ->). split.
  - reflexivity.
  - apply normalizeRate_dec, Hn.
Qed.

(** X23.  The update that the hook makes to its cache and the request
    it sends to the service agree: when the tenant id, the vendor name
    and the product name are not empty and have no white space around
    them, and the cache mirrors the table, the service accepts the
    request (PUT with the normalised rate, or DELETE for [null] and
    [NaN]) and afterwards the cache mirrors the table again, for every
    tenant and every product key. *)
Theorem hook_and_service_agree (t v p : string) (rate : option jsnum)
    (cache : TenantDiscountState) (db : DiscountTable) :
  t <> "" -> trim t = t -> v <> "" -> trim v = v -> p <> "" -> trim p = p ->
  (forall t' k', storedRate cache t' k' = db !! (t', k')) ->
  let request := hookRequest t (Some v) (Some p) rate in
  let response := handle request.1 request.2 db in
  let cache' := setDiscountRate_query (Some t) (Some v) (Some p) rate cache in
  (response.1 = 200 \/ response.1 = 204) /\
  forall t' k', storedRate cache' t' k' = response.2 !! (t', k').
Proof.
  intros Ht Htt Hv Hvt Hp Hpt Hmirror. cbv zeta.
  assert (Hcache : forall t' k',
             storedRate (setDiscountRate_query (Some t) (Some v) (Some p) rate cache) t' k'
             = if bool_decide ((t', k') = (t, makeProductKey (Some v) (Some p)))
               then effectiveRate rate else db !! (t', k')).
  { intros t' k'. rewrite setDiscountRate_query_eq, storedRate_set, nonEmpty_Some by exact Ht.
    rewrite Hmirror. apply (f_equal (fun b : bool => if b then _ else _)).
    apply bool_decide_ext. split.
    - intros [[= ->] ->]. reflexivity.
    - intros [= -> ->]. auto. }
  assert (Hnames : forall r,
             missingNames (parseBody {| body_tenantId := JString t;
                                        body_vendorName := JString v;
                                        body_productName := JString p;
                                        body_rate := r |}) = false).
  { intros r. unfold missingNames, parseBody.
    cbn [pb_tenantId pb_vendorName pb_productName stringField
         body_tenantId body_vendorName body_productName].
    rewrite !blank_trimmed by assumption. reflexivity. }
  assert (Hkey : forall r,
             parsedKey (parseBody {| body_tenantId := JString t;
                                     body_vendorName := JString v;
                                     body_productName := JString p;
                                     body_rate := r |})
             = (t, makeProductKey (Some v) (Some p))).
  { intros r. unfold parsedKey, parseBody.
    cbn [pb_tenantId pb_vendorName pb_productName stringField
         body_tenantId body_vendorName body_productName].
    rewrite Htt, Hvt, Hpt. reflexivity. }
  unfold hookRequest. cbv zeta. cbn [nameField].
  destruct (effectiveRate rate) as [r|] eqn:Hr.
  - destruct (effectiveRate_fixed rate r Hr) as [Hnan Hfix].
    assert (Hrate : pb_rate (parseBody {| body_tenantId := JString t;
                                          body_vendorName := JString v;
                                          body_productName := JString p;
                                          body_rate := JNumber r |}) = Some r).
    { unfold parseBody. cbn [pb_rate body_rate]. rewrite Hnan, Hfix. reflexivity. }
    cbn [fst snd handle]. unfold handlePut. cbv zeta. rewrite Hnames, Hkey, Hrate.
    cbn [fst snd].
    split; [left; reflexivity|]. intros t' k'. rewrite Hcache.
    destruct (decide ((t', k') = (t, makeProductKey (Some v) (Some p)))) as [->|Hne].
    + rewrite bool_decide_eq_true_2 by reflexivity. rewrite lookup_insert_eq. reflexivity.
    + rewrite bool_decide_eq_false_2 by exact Hne.
      rewrite lookup_insert_ne by congruence. reflexivity.
  - cbn [fst snd handle]. unfold handleDelete. cbv zeta. rewrite Hnames, Hkey.
    cbn [fst snd]. split; [right; reflexivity|]. intros t' k'. rewrite Hcache.
    destruct (decide ((t', k') = (t, makeProductKey (Some v) (Some p)))) as [->|Hne].
    + rewrite bool_decide_eq_true_2 by reflexivity. rewrite lookup_delete_eq. reflexivity.
    + rewrite bool_decide_eq_false_2 by exact Hne.
      rewrite lookup_delete_ne by congruence. reflexivity.
Qed.

Lemma hook_and_service_agree_witness :
  storedRate (setDiscountRate_query (Some "tenant-1") (Some "Microsoft") (Some "M365")
                (Some (dec 33456 1000)) ∅) "tenant-1" "microsoft::m365"
  = (handle (hookRequest "tenant-1" (Some "Microsoft") (Some "M365")
               (Some (dec 33456 1000))).1
            (hookRequest "tenant-1" (Some "Microsoft") (Some "M365")
               (Some (dec 33456 1000))).2
            ∅).2 !! ("tenant-1", "microsoft::m365").
Proof.
  apply (hook_and_service_agree "tenant-1" "Microsoft" "M365" (Some (dec 33456 1000)) ∅ ∅);
    try discriminate; try reflexivity.
Defined.

(** ** The customer cards of the detail page *)

Lemma groupStep_set (m : list (string * GroupedCustomer)) (tenant : InvoiceTenantBreakdown) :
  exists g, groupStep m tenant = map_set (customerKey tenant) g m /\
    g_key g = from_option g_key (customerKey tenant) (map_get (customerKey tenant) m) /\
    g_id g = from_option g_id (t_id tenant) (map_get (customerKey tenant) m) /\
    g_name g = from_option g_name (t_customerName tenant) (map_get (customerKey tenant) m) /\
    g_subscriptions g
    = from_option g_subscriptions [] (map_get (customerKey tenant) m)
        ++ t_subscriptions tenant.
Proof.
  unfold groupStep. cbv zeta.
  destruct (map_get (customerKey tenant) m) as [existing|];
    eexists; (split; [reflexivity|]); cbn; auto.
Qed.

Lemma customerGroups_snoc (l : list InvoiceTenantBreakdown) (x : InvoiceTenantBreakdown) :
  customerGroups (l ++ [x]) = groupStep (customerGroups l) x.
Proof. unfold customerGroups. rewrite fold_left_app. reflexivity. Qed.

Lemma customerGroups_lookup (l : list InvoiceTenantBreakdown) (k : string) :
  (fun g => (g_key g, g_id g, g_name g, g_subscriptions g))
    <$> map_get k (customerGroups l)
  = match List.filter (ofCustomer k) l with
    | [] => None
    | first :: rest =>
        Some (k, t_id first, t_customerName first, (first :: rest) ≫= t_subscriptions)
    end.
Proof.
  induction l as [|x l IH] using rev_ind; [reflexivity|].
  rewrite customerGroups_snoc, filter_snoc.
  destruct (groupStep_set (customerGroups l) x) as (g & -> & Hk & Hi & Hn & Hs).
  rewrite map_get_set. unfold ofCustomer at 2.
  decide_case (k = customerKey x) as Hkey.
  - subst k. rewrite bool_decide_eq_true_2 by reflexivity.
    cbn [fmap option_fmap option_map]. rewrite Hk, Hi, Hn, Hs.
    destruct (map_get (customerKey x) (customerGroups l)) as [g0|];
      destruct (List.filter (ofCustomer (customerKey x)) l) as [|first rest];
      try discriminate IH.
    + cbn [fmap option_fmap option_map] in IH. cbn [from_option].
      injection IH as -> -> -> ->.
      cbn [app]. do 2 f_equal. change (first :: rest ++ [x]) with ((first :: rest) ++ [x]).
      rewrite bind_app. cbn [mbind list_bind]. rewrite app_nil_r. reflexivity.
    + cbn [from_option app mbind list_bind]. rewrite app_nil_r. reflexivity.
  - rewrite bool_decide_eq_false_2 by congruence. rewrite app_nil_r. exact IH.
Qed.

Lemma customerGroups_keys (l : list InvoiceTenantBreakdown) :
  NoDup (customerGroups l).*1.
Proof.
  unfold customerGroups.
  apply (fold_left_invariant (fun m : list (string * GroupedCustomer) => NoDup m.*1)).
  - constructor.
  - intros m x Hm. destruct (groupStep_set m x) as (g & -> & _).
    apply map_set_NoDup, Hm.
Qed.

Lemma map_set_bind_perm {V A : Type} (f : V -> list A) (k : string) (v : V)
    (m : list (string * V)) (extra : list A) :
  f v = from_option f [] (map_get k m) ++ extra ->
  map_values (map_set k v m) ≫= f ≡ₚ (map_values m ≫= f) ++ extra.
Proof.
  unfold map_values. induction m as [|[k' v'] r IH]; cbn [map_get map_set]; intros Hv.
  - cbn [from_option app] in Hv. cbn [fmap list_fmap mbind list_bind snd].
    rewrite Hv, app_nil_r. reflexivity.
  - destruct (bool_decide (k' = k)).
    + cbn [from_option] in Hv. cbn [fmap list_fmap mbind list_bind snd].
      rewrite Hv, <- !app_assoc. apply Permutation_app_head, Permutation_app_comm.
    + cbn [fmap list_fmap mbind list_bind snd]. rewrite (IH Hv), app_assoc. reflexivity.
Qed.

Lemma customerGroups_subscriptions (l : list InvoiceTenantBreakdown) :
  map_values (customerGroups l) ≫= g_subscriptions ≡ₚ l ≫= t_subscriptions.
Proof.
  induction l as [|x l IH] using rev_ind; [reflexivity|].
  rewrite customerGroups_snoc.
  destruct (groupStep_set (customerGroups l) x) as (g & -> & _ & _ & _ & Hs).
  rewrite (map_set_bind_perm g_subscriptions _ _ _ (t_subscriptions x) Hs).
  rewrite IH, bind_app. cbn [mbind list_bind]. rewrite app_nil_r. reflexivity.
Qed.

Lemma string_app_nonempty (a b : string) : b <> "" -> a +:+ b <> "".
Proof. intros Hb. destruct a; [exact Hb|discriminate]. Qed.

(** X24.  The customer cards group the tenants by customer name up to
    letter case: there is one group per name, it holds the subscriptions
    of all tenants of that name in their order, none lost and none
    twice, and it takes its id and its display name from the first of
    these tenants.  The cards are the groups in order, and no card has
    an empty id, so that the discount hook is never called without a
    tenant id. *)
Theorem groupedCustomers_cards (tenants : list InvoiceTenantBreakdown) :
  let groups := customerGroups tenants in
  let cards := groupedCustomers tenants in
  (forall k,
     (fun g => (g_id g, g_name g, g_subscriptions g)) <$> map_get k groups
     = match List.filter (fun t => bool_decide (toLowerCase (t_customerName t) = k))
               tenants with
       | [] => None
       | first :: rest =>
           Some (t_id first, t_customerName first, (first :: rest) ≫= t_subscriptions)
       end) /\
  NoDup groups.*1 /\
  (fun c => (c_name c, c_subscriptions c)) <$> cards
    = (fun g => (g_name g, g_subscriptions g)) <$> map_values groups /\
  cards ≫= c_subscriptions ≡ₚ tenants ≫= t_subscriptions /\
  Forall (fun c => c_id c <> "") cards.
Proof.
  cbv zeta. split_and!.
  - intros k. pose proof (customerGroups_lookup tenants k) as H.
    apply (f_equal (fmap (fun i : string * string * string *
                                  list InvoiceSubscriptionBreakdown =>
                            (i.1.1.2, i.1.2, i.2)))) in H.
    rewrite option_fmap_compose in H. etransitivity; [exact H|].
    change (fun t => bool_decide (toLowerCase (t_customerName t) = k)) with (ofCustomer k).
    destruct (List.filter (ofCustomer k) tenants); reflexivity.
  - apply customerGroups_keys.
  - unfold groupedCustomers. generalize (map_values (customerGroups tenants)) as gs.
    intros gs. rewrite fmap_imap. unfold compose. cbn [c_name c_subscriptions].
    apply imap_const.
  - rewrite <- (customerGroups_subscriptions tenants). unfold groupedCustomers.
    generalize (map_values (customerGroups tenants)) as gs. intros gs.
    assert (Hgen : forall (n : nat) (gs : list GroupedCustomer),
               imap (fun index group =>
                       {| c_id := cardId group (n + index); c_name := g_name group;
                          c_domains := g_domains group;
                          c_references := g_references group;
                          c_subscriptions := g_subscriptions group |}) gs
               ≫= c_subscriptions
               = gs ≫= g_subscriptions).
    { clear. intros n gs. revert n. induction gs as [|g gs IH]; intros n; [reflexivity|].
      cbn [imap mbind list_bind c_subscriptions]. f_equal.
      rewrite <- (IH (S n)). f_equal. apply imap_ext. intros i y _. cbn.
      rewrite Nat.add_succ_r. reflexivity. }
    rewrite <- (Hgen 0%nat gs). reflexivity.
  - apply Forall_forall. intros c Hc. unfold groupedCustomers in Hc.
    apply elem_of_imap_inv in Hc as (i & g & ->). cbn [c_id]. unfold cardId.
    destruct (decide (g_id g = "")) as [He|He].
    + rewrite (bool_decide_eq_true_2 _ He). apply string_app_nonempty.
      change ("-" +:+ nat_to_string i) with (String "-" (nat_to_string i)). discriminate.
    + rewrite (bool_decide_eq_false_2 _ He). exact He.
Qed.

(** ** The totals of a customer card *)








(** ** Discounts never raise a total *)














(** ** The metrics above the invoice table *)

Lemma matchesStatus_spec (f : StatusFilter) (s : Status) :
  matchesStatus f s
  = match f with
    | filterAll => true
    | filterOverdue => bool_decide (s = Overdue)
    | filterUnpaid => bool_decide (s = Unpaid)
    | filterPaid => bool_decide (s = Paid)
    end.
Proof. destruct f, s; reflexivity. Qed.

Lemma includes_empty (s : string) : includes "" s = true.
Proof. destruct s; reflexivity. Qed.

Lemma filter_Forall {A : Type} (p : A -> bool) (l : list A) :
  Forall (fun x => p x = true) (List.filter p l).
Proof.
  apply List.Forall_forall. intros x Hx. apply List.filter_In in Hx as [_ Hx]. exact Hx.
Qed.

Lemma filter_sublist_Forall {A : Type} (P : A -> Prop) (p : A -> bool) (l : list A) :
  Forall P l -> Forall P (List.filter p l).
Proof.
  intros H. apply List.Forall_forall. intros x Hx. apply List.filter_In in Hx as [Hx _].
  rewrite List.Forall_forall in H. apply H, Hx.
Qed.

Lemma filter_none {A : Type} (p : A -> bool) (l : list A) :
  Forall (fun x => p x = false) l -> List.filter p l = [].
Proof.
  induction 1 as [|x l Hx _ IH]; cbn [List.filter]; [reflexivity|]. rewrite Hx. exact IH.
Qed.

Lemma filtered_status (parseDate : string -> jsnum) (now : jsnum) (search : string)
    (f : StatusFilter) (preset : DatePreset) (invoices : list Invoice) :
  Forall (fun inv => matchesStatus f (status inv) = true)
         (filteredInvoices parseDate now search f preset invoices).
Proof.
  unfold filteredInvoices. apply filter_sublist_Forall.
  apply (filter_Forall (fun inv => matchesStatus f (status inv))).
Qed.

(** X27.  The metrics above the invoice table are those of the rows the
    filters let through, so they follow the status filter: under "paid"
    nothing is due, overdue or open; under "overdue" the balance due and
    the overdue amount are both the total invoiced; under "unpaid" the
    balance due is the total invoiced and nothing is overdue.  With an
    empty search, the status "all" and no date preset, every invoice is
    kept. *)
Theorem table_metrics_follow_status (parseDate : string -> jsnum) (nowIso : string)
    (now : jsnum) (search : string) (preset : DatePreset) (invoices : list Invoice) :
  let m f := tableMetrics parseDate nowIso now search f preset invoices in
  (balanceDue (m filterPaid) = zero /\ overdueAmount (m filterPaid) = zero /\
   openInvoiceCount (m filterPaid) = zero) /\
  (balanceDue (m filterOverdue) = totalInvoiced (m filterOverdue) /\
   overdueAmount (m filterOverdue) = totalInvoiced (m filterOverdue)) /\
  (balanceDue (m filterUnpaid) = totalInvoiced (m filterUnpaid) /\
   overdueAmount (m filterUnpaid) = zero) /\
  (forall f, Forall (fun inv => f = filterAll \/
                                toLowerCase (statusString (status inv))
                                = statusFilterString f)
                    (filteredInvoices parseDate now search f preset invoices)) /\
  filteredInvoices parseDate now "" filterAll presetAll invoices = invoices.
Proof.
  cbv zeta. unfold tableMetrics.
  assert (Hfields : forall f,
             let l := filteredInvoices parseDate now search f preset invoices in
             let mm := calculateBillingMetrics nowIso l inclVat in
             totalInvoiced mm = sum (map (invoiceAmount inclVat) l) /\
             balanceDue mm = sum (map (invoiceAmount inclVat) (List.filter isOpen l)) /\
             overdueAmount mm
               = sum (map (invoiceAmount inclVat) (List.filter (hasStatus Overdue) l)) /\
             openInvoiceCount mm = ofNat (length (List.filter isOpen l))).
  { intros f. cbv zeta.
    destruct (metrics_fields nowIso (filteredInvoices parseDate now search f preset invoices)
                inclVat) as (H1 & H2 & H3 & _ & _ & H4). auto. }
  assert (Hst : forall f, Forall (fun inv => matchesStatus f (status inv) = true)
                            (filteredInvoices parseDate now search f preset invoices))
    by (intros f; apply filtered_status).
  split_and!.
  - destruct (Hfields filterPaid) as (_ & -> & _). rewrite filter_none; [reflexivity|].
    eapply Forall_impl; [apply (Hst filterPaid)|]. intros inv H. cbn beta in H.
    rewrite matchesStatus_spec in H. apply bool_decide_eq_true_1 in H.
    unfold isOpen. rewrite H. reflexivity.
  - destruct (Hfields filterPaid) as (_ & _ & -> & _). rewrite filter_none; [reflexivity|].
    eapply Forall_impl; [apply (Hst filterPaid)|]. intros inv H. cbn beta in H.
    rewrite matchesStatus_spec in H. apply bool_decide_eq_true_1 in H.
    unfold hasStatus. rewrite H. reflexivity.
  - destruct (Hfields filterPaid) as (_ & _ & _ & ->). rewrite filter_none; [reflexivity|].
    eapply Forall_impl; [apply (Hst filterPaid)|]. intros inv H. cbn beta in H.
    rewrite matchesStatus_spec in H. apply bool_decide_eq_true_1 in H.
    unfold isOpen. rewrite H. reflexivity.
  - destruct (Hfields filterOverdue) as (-> & -> & _). rewrite filter_all; [reflexivity|].
    eapply Forall_impl; [apply (Hst filterOverdue)|]. intros inv H. cbn beta in H.
    rewrite matchesStatus_spec in H. apply bool_decide_eq_true_1 in H.
    unfold isOpen. rewrite H. reflexivity.
  - destruct (Hfields filterOverdue) as (-> & _ & -> & _). rewrite filter_all; [reflexivity|].
    eapply Forall_impl; [apply (Hst filterOverdue)|]. intros inv H. cbn beta in H.
    rewrite matchesStatus_spec in H. apply bool_decide_eq_true_1 in H.
    unfold hasStatus. rewrite H. reflexivity.
  - destruct (Hfields filterUnpaid) as (-> & -> & _). rewrite filter_all; [reflexivity|].
    eapply Forall_impl; [apply (Hst filterUnpaid)|]. intros inv H. cbn beta in H.
    rewrite matchesStatus_spec in H. apply bool_decide_eq_true_1 in H.
    unfold isOpen. rewrite H. reflexivity.
  - destruct (Hfields filterUnpaid) as (_ & _ & -> & _). rewrite filter_none; [reflexivity|].
    eapply Forall_impl; [apply (Hst filterUnpaid)|]. intros inv H. cbn beta in H.
    rewrite matchesStatus_spec in H. apply bool_decide_eq_true_1 in H.
    unfold hasStatus. rewrite H. reflexivity.
  - intros f. eapply Forall_impl; [apply (Hst f)|]. intros inv H. cbn beta in H.
    unfold matchesStatus in H. destruct f; [left; reflexivity|right..];
      cbn in H; apply bool_decide_eq_true_1 in H; exact H.
  - unfold filteredInvoices. rewrite !filter_all; [reflexivity|..];
      apply List.Forall_forall; intros inv _; try reflexivity.
    cbn [toLowerCase]. apply includes_empty.
Qed.

(** ** The WL code of a customer reference *)

Lemma takeDigits_allDigits (s : string) : allDigits (takeDigits s) = true.
Proof.
  induction s as [|c r IH]; [reflexivity|]. cbn [takeDigits].
  destruct (is_digit c) eqn:Hc; [|reflexivity]. cbn [allDigits]. rewrite Hc, IH. reflexivity.
Qed.

Lemma takeDigits_prefix (s : string) : String.prefix (takeDigits s) s = true.
Proof.
  induction s as [|c r IH]; [reflexivity|]. cbn [takeDigits].
  destruct (is_digit c); [|reflexivity]. cbn [String.prefix].
  destruct (ascii_dec c c); [exact IH|congruence].
Qed.

Lemma includes_prefix (n s : string) : String.prefix n s = true -> includes n s = true.
Proof. intros H. destruct s; cbn [includes]; rewrite H; reflexivity. Qed.

Lemma includes_cons (n : string) (c : ascii) (s : string) :
  includes n s = true -> includes n (String c s) = true.
Proof. intros H. cbn [includes]. rewrite H. apply orb_true_r. Qed.

Lemma includes_trimStart (n s : string) :
  includes n (trimStart s) = true -> includes n s = true.
Proof.
  induction s as [|c r IH]; [auto|]. cbn [trimStart].
  destruct (is_space c); [|auto]. intros H. apply includes_cons, IH, H.
Qed.

Lemma matchWlHere_spec (s d : string) :
  matchWlHere s = Some d -> d <> "" /\ allDigits d = true /\ includes d s = true.
Proof.
  unfold matchWlHere. destruct s as [|w [|l rest]]; try discriminate.
  destruct (char_ci "w" w && char_ci "l" l); [|discriminate].
  pose proof (takeDigits_allDigits (trimStart rest)) as Hd.
  pose proof (takeDigits_prefix (trimStart rest)) as Hp.
  destruct (takeDigits (trimStart rest)) as [|c ds]; [discriminate|].
  intros [= <-]. split_and!; [discriminate|exact Hd|].
  apply includes_cons, includes_cons, includes_trimStart, includes_prefix, Hp.
Qed.

Lemma matchWl_spec (s d : string) :
  matchWl s = Some d -> d <> "" /\ allDigits d = true /\ includes d s = true.
Proof.
  induction s as [|c r IH]; cbn [matchWl].
  - destruct (matchWlHere "") eqn:E; [|discriminate]. intros [= <-].
    apply matchWlHere_spec, E.
  - destruct (matchWlHere (String c r)) eqn:E.
    + intros [= <-]. apply matchWlHere_spec, E.
    + intros H. destruct (IH H) as (H1 & H2 & H3). split_and!; auto.
      apply includes_cons, H3.
Qed.

Lemma takeDigits_nonempty (c : ascii) (r : string) :
  is_digit c = true -> takeDigits (String c r) <> "".
Proof. intros H. cbn [takeDigits]. rewrite H. discriminate. Qed.

Lemma firstDigits_spec (s : string) :
  allDigits (firstDigits s) = true /\ includes (firstDigits s) s = true /\
  (firstDigits s = "" <-> hasDigit s = false).
Proof.
  induction s as [|c r (IH1 & IH2 & IH3)]; [split_and!; try reflexivity; tauto|].
  cbn [firstDigits hasDigit]. destruct (is_digit c) eqn:Hc.
  - split_and!.
    + apply takeDigits_allDigits.
    + apply includes_prefix, takeDigits_prefix.
    + cbn [orb]. split; [|discriminate]. intros H.
      exfalso. exact (takeDigits_nonempty c r Hc H).
  - cbn [orb]. split_and!; [exact IH1|apply includes_cons, IH2|exact IH3].
Qed.

Lemma allDigits_hasDigit (d s : string) :
  d <> "" -> allDigits d = true -> includes d s = true -> hasDigit s = true.
Proof.
  intros Hd Hall. destruct d as [|c ds]; [congruence|]. cbn [allDigits] in Hall.
  apply andb_prop in Hall as [Hc _].
  induction s as [|x r IH]; cbn [includes hasDigit String.prefix].
  - discriminate.
  - intros H. apply orb_prop in H as [H|H].
    + destruct (ascii_dec c x) as [<-|]; [|discriminate]. rewrite Hc. reflexivity.
    + rewrite (IH H). apply orb_true_r.
Qed.

(** X28.  The WL code read from a customer reference consists of digits
    only and occurs in the reference; it is empty exactly when the
    reference is missing, empty or without any digit: a reference
    without "WL" still gives its first run of digits. *)
Theorem extractWlCode_digits (reference : option string) :
  let code := extractWlCode reference in
  allDigits code = true /\
  includes code (default "" reference) = true /\
  (code = "" <-> hasDigit (default "" reference) = false).
Proof.
  cbv zeta. unfold extractWlCode.
  destruct reference as [[|c r]|]; cbn [nonEmpty default from_option id];
    try (split_and!; try reflexivity; tauto).
  cbv [default from_option id].
  destruct (matchWl (String c r)) as [d|] eqn:E.
  - destruct (matchWl_spec _ _ E) as (Hne & Hall & Hin). split_and!; auto.
    split; [contradiction|]. intros H.
    rewrite (allDigits_hasDigit d _ Hne Hall Hin) in H. discriminate.
  - apply firstDigits_spec.
Qed.

(** ** The WL filter of the detail page *)








(** ** The names that the rows show *)

Lemma formatProductLabel_blank (s : string) : formatProductLabel s = "" <-> trim s = "".
Proof.
  unfold formatProductLabel. cbv zeta. split.
  - destruct (trim (stripNcePrefix (trim s))) as [|c r] eqn:E; cbn [String.length Nat.ltb Nat.leb].
    + auto.
    + discriminate.
  - intros ->. reflexivity.
Qed.

Lemma aggState_display_names (l : list InvoiceSubscriptionBreakdown) :
  Forall (fun kv : string * VendorEntry =>
            Forall (fun kp : string * ProductEntry =>
                      exists sub, sub ∈ l /\ resolveVendorName sub = kv.1 /\
                                  pe_displayName kp.2 = productLabelOf sub)
                   (ve_productsMap kv.2))
         (aggState l).
Proof.
  induction l as [|x l IH] using rev_ind; [constructor|].
  rewrite aggState_snoc.
  destruct (subscriptionStep_shape (aggState l) x) as (pe & -> & Hd & _).
  assert (IH' : Forall (fun kv : string * VendorEntry =>
                  Forall (fun kp : string * ProductEntry =>
                            exists sub, sub ∈ l ++ [x] /\ resolveVendorName sub = kv.1 /\
                                        pe_displayName kp.2 = productLabelOf sub)
                         (ve_productsMap kv.2))
                  (aggState l)).
  { eapply Forall_impl; [exact IH|]. intros kv Hkv.
    eapply Forall_impl; [exact Hkv|]. intros kp (sub & Hs & Hv & Hn).
    exists sub. split; [apply elem_of_app; left; exact Hs|auto]. }
  assert (Hvb : Forall (fun kp : string * ProductEntry =>
                          exists sub, sub ∈ l ++ [x] /\
                                      resolveVendorName sub = resolveVendorName x /\
                                      pe_displayName kp.2 = productLabelOf sub)
                  (ve_productsMap (vendorBefore (aggState l) x))).
  { unfold vendorBefore.
    destruct (map_get (resolveVendorName x) (aggState l)) as [ve|] eqn:Hg;
      cbv [default from_option id]; [|constructor].
    apply map_get_Some_elem in Hg. rewrite Forall_forall in IH'. exact (IH' _ Hg). }
  apply map_set_Forall; [exact IH'|]. cbn [fst snd ve_productsMap].
  apply map_set_Forall; [exact Hvb|]. cbn [snd]. rewrite Hd.
  unfold productBefore.
  destruct (map_get (productKeyOf x) _) as [pe0|] eqn:Hg; cbv [default from_option id].
  - apply map_get_Some_elem in Hg. rewrite Forall_forall in Hvb. exact (Hvb _ Hg).
  - exists x. split; [apply elem_of_app; right; left|]. split; reflexivity.
Qed.

(** X30.  Every product row shows the formatted label of one of the
    subscriptions of its vendor: the description, or else the nickname,
    or else "Line item", trimmed and without a leading NCE marker.  The
    name has no white space around it, and it is empty only when that
    label is blank, a description of spaces only being kept in front of
    the nickname. *)
Theorem product_display_names (localeCompare : string -> string -> Z)
    (subscriptions : list InvoiceSubscriptionBreakdown) :
  Forall (fun av =>
            Forall (fun p =>
                      trim (displayName p) = displayName p /\
                      exists sub,
                        sub ∈ subscriptions /\ resolveVendorName sub = vendorName av /\
                        let label :=
                          str_or (s_description sub) (str_or (s_nickname sub) "Line item") in
                        displayName p = formatProductLabel (trim label) /\
                        (displayName p = "" <-> trim label = ""))
                   (products av))
         (aggregateVendorsFromSubscriptions localeCompare subscriptions).
Proof.
  unfold aggregateVendorsFromSubscriptions. fold (aggState subscriptions).
  eapply Permutation_Forall; [symmetry; apply js_sort_perm|].
  apply Forall_fmap. unfold map_values. apply Forall_fmap.
  pose proof (aggState_keyed subscriptions) as [_ Hkeyed].
  pose proof (aggState_display_names subscriptions) as Hnames.
  rewrite Forall_forall in Hkeyed, Hnames. apply Forall_forall. intros [k ve] Hkv.
  cbn [snd compose finishVendor products vendorName].
  eapply Permutation_Forall; [symmetry; apply js_sort_perm|].
  apply Forall_fmap. unfold map_values. apply Forall_fmap.
  destruct (Hkeyed _ Hkv) as (Hname & _). cbn [fst snd] in Hname.
  eapply Forall_impl; [exact (Hnames _ Hkv)|].
  intros [k' pe] (sub & Hs & Hv & Hd). cbn [fst snd compose finishProduct displayName] in *.
  rewrite Hd. unfold productLabelOf, rawProductLabel. split.
  - apply formatProductLabel_trimmed.
  - exists sub. split; [exact Hs|]. split; [congruence|]. cbv zeta.
    split; [reflexivity|]. rewrite formatProductLabel_blank, trim_idem. reflexivity.
Qed.
